(** * race-sim: the timeline engine and the playback engine

    A shallow embedding of the lap processor, the event manager, the
    timeline generator (backend services) and of the [useAnimation] hook
    (frontend), with the properties the specification states about them.

    Conventions of the embedding.

    - A JavaScript [number] is a value of [num]: a rational, one of the two
      infinities, or [NaN].  Arithmetic on rationals is exact: the rounding
      of IEEE-754 doubles, overflow to an infinity and the sign of zero are
      not tracked.  Everything else (propagation of [NaN], division by
      zero, comparisons with [NaN], truthiness) follows ECMAScript.
      The statements are kept to what rounding does not change: orders,
      signs and the structure of the results; a value is stated only where
      doubles compute it exactly (whole numbers below 2^53), and bounds on
      the inputs are hypotheses where they are needed for that.
    - A JavaScript string is a [string]; its characters stand for code
      units below 256.
    - A [Map] is an association list in insertion order, which is the order
      [Map.prototype.entries] and [forEach] visit it in.
    - [Array.prototype.sort] is the stable sort ECMAScript prescribes. *)

From Stdlib Require Import ZArith QArith Qreduction Qabs Qround Bool List Ascii String.
From Stdlib Require Import Lia Lqa Sorting.Sorted Permutation.
Import ListNotations.

Set Implicit Arguments.

(* ================================================================== *)
(** * JavaScript numbers *)
(* ================================================================== *)

Module JS.

Inductive num : Type :=
| Fin (q : Q)
| PInf
| NInf
| NaN.

Declare Scope num_scope.
Delimit Scope num_scope with num.
Bind Scope num_scope with num.

Definition of_Z (z : Z) : num := Fin (inject_Z z).
Definition zero : num := of_Z 0.

(** Sign of a rational as a comparison with zero. *)
Definition Qsign (q : Q) : comparison := (q ?= 0)%Q.

Definition is_nan (a : num) : bool :=
  match a with NaN => true | _ => false end.

Definition is_finite (a : num) : bool :=
  match a with Fin _ => true | _ => false end.

Definition add (a b : num) : num :=
  match a, b with
  | NaN, _ | _, NaN => NaN
  | Fin x, Fin y => Fin (Qred (x + y))
  | PInf, NInf | NInf, PInf => NaN
  | PInf, _ | _, PInf => PInf
  | NInf, _ | _, NInf => NInf
  end.

Definition sub (a b : num) : num :=
  match a, b with
  | NaN, _ | _, NaN => NaN
  | Fin x, Fin y => Fin (Qred (x - y))
  | PInf, PInf | NInf, NInf => NaN
  | PInf, _ | _, NInf => PInf
  | NInf, _ | _, PInf => NInf
  end.

(** An infinity with the sign of [c], or [NaN] for a zero factor. *)
Definition signed_inf (c : comparison) : num :=
  match c with Gt => PInf | Lt => NInf | Eq => NaN end.

Definition mul (a b : num) : num :=
  match a, b with
  | NaN, _ | _, NaN => NaN
  | Fin x, Fin y => Fin (Qred (x * y))
  | Fin x, PInf | PInf, Fin x => signed_inf (Qsign x)
  | Fin x, NInf | NInf, Fin x => signed_inf (CompOpp (Qsign x))
  | PInf, PInf | NInf, NInf => PInf
  | PInf, NInf | NInf, PInf => NInf
  end.

(** Division; a zero divisor counts as [+0]. *)
Definition div (a b : num) : num :=
  match a, b with
  | NaN, _ | _, NaN => NaN
  | Fin x, Fin y =>
      match Qsign y with
      | Eq => signed_inf (Qsign x)
      | _ => Fin (Qred (x / y))
      end
  | Fin _, (PInf | NInf) => zero
  | PInf, Fin y => match Qsign y with Lt => NInf | _ => PInf end
  | NInf, Fin y => match Qsign y with Lt => PInf | _ => NInf end
  | (PInf | NInf), (PInf | NInf) => NaN
  end.

(** [a < b]; false as soon as one side is [NaN]. *)
Definition ltb (a b : num) : bool :=
  match a, b with
  | NaN, _ | _, NaN => false
  | Fin x, Fin y => match (x ?= y)%Q with Lt => true | _ => false end
  | NInf, NInf | PInf, _ | _, NInf => false
  | NInf, _ | _, PInf => true
  end.

(** [a <= b]; false as soon as one side is [NaN]. *)
Definition leb (a b : num) : bool :=
  match a, b with
  | NaN, _ | _, NaN => false
  | Fin x, Fin y => match (x ?= y)%Q with Gt => false | _ => true end
  | NInf, _ | _, PInf => true
  | PInf, _ | _, NInf => false
  end.

Definition gtb (a b : num) : bool := ltb b a.
Definition geb (a b : num) : bool := leb b a.

(** [a === b] on numbers. *)
Definition strict_eq (a b : num) : bool :=
  match a, b with
  | Fin x, Fin y => Qeq_bool x y
  | PInf, PInf | NInf, NInf => true
  | _, _ => false
  end.

(** SameValueZero, the equality of [Map] keys and [Set] members. *)
Definition same_value_zero (a b : num) : bool :=
  match a, b with
  | NaN, NaN => true
  | _, _ => strict_eq a b
  end.

(** ToBoolean on a number: [0] and [NaN] are falsy. *)
Definition truthy (a : num) : bool :=
  match a with
  | Fin q => negb (Qeq_bool q 0)
  | PInf | NInf => true
  | NaN => false
  end.

(** [a || b] on numbers. *)
Definition or_else (a b : num) : num := if truthy a then a else b.

(** [Math.max(a, b)] and [Math.min(a, b)]: [NaN] if either is. *)
Definition max (a b : num) : num :=
  match a, b with
  | NaN, _ | _, NaN => NaN
  | _, _ => if ltb a b then b else a
  end.

Definition min (a b : num) : num :=
  match a, b with
  | NaN, _ | _, NaN => NaN
  | _, _ => if ltb b a then b else a
  end.

Definition abs (a : num) : num :=
  match a with
  | Fin q => Fin (Qred (Qabs q))
  | PInf | NInf => PInf
  | NaN => NaN
  end.

(** The order of the extended rationals, as a proposition; nothing is
    related to [NaN]. *)
Definition le (a b : num) : Prop := leb a b = true.
Definition lt (a b : num) : Prop := ltb a b = true.

(** Equality of numbers up to the representation of a rational. *)
Definition eqv (a b : num) : Prop :=
  match a, b with
  | Fin x, Fin y => (x == y)%Q
  | PInf, PInf | NInf, NInf | NaN, NaN => True
  | _, _ => False
  end.

Notation "a + b" := (add a b) : num_scope.
Notation "a - b" := (sub a b) : num_scope.
Notation "a * b" := (mul a b) : num_scope.
Notation "a / b" := (div a b) : num_scope.
Notation "a <? b" := (ltb a b) : num_scope.
Notation "a <=? b" := (leb a b) : num_scope.
Notation "a >? b" := (gtb a b) : num_scope.
Notation "a >=? b" := (geb a b) : num_scope.
Notation "a === b" := (strict_eq a b) (at level 70) : num_scope.

(** [Math.ceil(a)] *)
Definition ceil (a : num) : num :=
  match a with
  | Fin q => of_Z (Qceiling q)
  | _ => a
  end.

(** The integer part of a rational, towards zero. *)
Definition Qtrunc (q : Q) : Z := Z.quot (Qnum q) (Zpos (Qden q)).

(** [a % b]: the remainder has the sign of the dividend; it is [NaN] for
    a zero divisor or an infinite dividend, and the dividend itself for
    an infinite divisor. *)
Definition modulo (a b : num) : num :=
  match a, b with
  | Fin x, Fin y =>
      match Qsign y with
      | Eq => NaN
      | _ => Fin (Qred (x - y * inject_Z (Qtrunc (x / y))))
      end
  | Fin _, (PInf | NInf) => a
  | _, _ => NaN
  end.

(* ------------------------------------------------------------------ *)
(** ** Strings, [parseInt], [parseFloat] and [split] *)
(* ------------------------------------------------------------------ *)

Definition code (c : ascii) : N := N_of_ascii c.

(** The white space [parseInt] and [parseFloat] skip: TAB, LF, VT, FF, CR,
    SP and NBSP (the white-space code units below 256). *)
Definition is_whitespace (c : ascii) : bool :=
  let n := code c in
  ((9 <=? n) && (n <=? 13) || (n =? 32) || (n =? 160))%N.

Definition is_digit (c : ascii) : bool :=
  let n := code c in ((48 <=? n) && (n <=? 57))%N.

Definition digit_value (c : ascii) : Z := Z.of_N (code c) - 48.

Fixpoint trim_start (l : list ascii) : list ascii :=
  match l with
  | c :: r => if is_whitespace c then trim_start r else l
  | [] => []
  end.

(** The longest prefix of decimal digits, and what follows it. *)
Fixpoint span_digits (l : list ascii) : list ascii * list ascii :=
  match l with
  | c :: r =>
      if is_digit c
      then let (d, rest) := span_digits r in (c :: d, rest)
      else ([], l)
  | [] => ([], [])
  end.

(** The integer a string of decimal digits denotes. *)
Definition digits_value (ds : list ascii) : Z :=
  fold_left (fun acc c => 10 * acc + digit_value c)%Z ds 0%Z.

(** An optional sign: whether it is [-], and what follows it. *)
Definition take_sign (l : list ascii) : bool * list ascii :=
  match l with
  | "-"%char :: r => (true, r)
  | "+"%char :: r => (false, r)
  | _ => (false, l)
  end.

Fixpoint starts_with (p l : list ascii) : bool :=
  match p, l with
  | [], _ => true
  | a :: p', b :: l' => Ascii.eqb a b && starts_with p' l'
  | _ :: _, [] => false
  end.

(** [parseInt(s, 10)]: white space, a sign, then the longest run of
    decimal digits; [NaN] when there is no digit. *)
Definition parseInt (s : list ascii) : num :=
  let (negative, r) := take_sign (trim_start s) in
  let (ds, _) := span_digits r in
  match ds with
  | [] => NaN
  | _ => of_Z (if negative then - digits_value ds else digits_value ds)
  end.

(** The exponent part [e], [e+], [e-] followed by digits, when complete. *)
Definition exponent_part (l : list ascii) : Z :=
  match l with
  | c :: r =>
      if (Ascii.eqb c "e" || Ascii.eqb c "E")%bool then
        let (negative, r') := take_sign r in
        let (ds, _) := span_digits r' in
        match ds with
        | [] => 0
        | _ => if negative then - digits_value ds else digits_value ds
        end
      else 0
  | [] => 0
  end%Z.

(** [parseFloat(s)]: white space, then the longest prefix that is a
    StrDecimalLiteral (a sign, then [Infinity], or digits with an optional
    fraction and exponent); [NaN] when there is none. *)
Definition parseFloat (s : list ascii) : num :=
  let (negative, r) := take_sign (trim_start s) in
  if starts_with (list_ascii_of_string "Infinity") r
  then (if negative then NInf else PInf)
  else
    let (ip, r1) := span_digits r in
    let (fp, r2) :=
      match r1 with
      | "."%char :: r' =>
          let (fp, r'') := span_digits r' in
          match ip, fp with
          | [], [] => ([], r1)
          | _, _ => (fp, r'')
          end
      | _ => ([], r1)
      end in
    match ip, fp with
    | [], [] => NaN
    | _, _ =>
        let m := digits_value (ip ++ fp) in
        let e := (exponent_part r2 - Z.of_nat (List.length fp))%Z in
        let v := (inject_Z m * Qpower (10 # 1) e)%Q in
        Fin (Qred (if negative then - v else v))
    end.

(** [s.split(sep)] for a one-character separator. *)
Fixpoint split_on (sep : ascii) (l : list ascii) : list (list ascii) :=
  match l with
  | [] => [[]]
  | c :: r =>
      if Ascii.eqb c sep then [] :: split_on sep r
      else match split_on sep r with
           | p :: ps => (c :: p) :: ps
           | [] => [[c]]
           end
  end.

(** [s.toLowerCase()] on code units below 256: the letters A-Z and the
    capital letters of Latin-1 move up by 32. *)
Definition to_lower (c : ascii) : ascii :=
  let n := code c in
  if ((65 <=? n) && (n <=? 90)
      || (192 <=? n) && (n <=? 222) && negb (n =? 215))%N
  then ascii_of_N (n + 32)
  else c.

Definition toLowerCase (s : list ascii) : list ascii := List.map to_lower s.

(** [s.includes(c)] for a one-character [c]. *)
Definition includes (c : ascii) (s : list ascii) : bool :=
  existsb (Ascii.eqb c) s.

End JS.

Import JS.
Local Open Scope string_scope.
Local Open Scope list_scope.
Local Open Scope num_scope.

(** Completion of a call: a normal return or a thrown error. *)
Inductive FormatError : Type := format_error.

Inductive completion (A : Type) : Type :=
| Normal (a : A)
| Throw (e : FormatError).
Arguments Normal {A} a.
Arguments Throw {A} e.

(* ================================================================== *)
(** * Data types (backend [types], frontend [services/api]) *)
(* ================================================================== *)

(** One module per interface, so that fields keep their names. *)

Module JolpicaTiming.
Record t : Type := mk { driverId : string; position : string; time : string }.
End JolpicaTiming.

Module JolpicaLap.
Record t : Type := mk { number : string; Timings : list JolpicaTiming.t }.
End JolpicaLap.

Module JolpicaPitStop.
Record t : Type := mk {
  driverId : string;
  lap : string;
  stop : string;
  time : string;
  duration : string }.
End JolpicaPitStop.

(** [JolpicaResult.FastestLap]; the average speed is not read. *)
Module JolpicaFastestLap.
Record t : Type := mk { rank : string; lap : string; time : string }.
End JolpicaFastestLap.

(** Of a [JolpicaResult] the lap processor reads the driver identifier,
    the laps, the status and the fastest lap. *)
Module JolpicaResult.
Record t : Type := mk {
  driverId : string;
  laps : string;
  status : string;
  FastestLap : option JolpicaFastestLap.t }.
End JolpicaResult.

Module LapData.
Record t : Type := mk {
  driverId : string;
  lap : num;
  position : num;
  time : string;
  timeInMs : num }.
End LapData.

Module LapTiming.
Record t : Type := mk { lap : num; timings : list LapData.t }.
End LapTiming.

(** An element of [ProcessedLapData.laps]. *)
Module ProcessedLap.
Record t : Type := mk {
  lap : num;
  position : num;
  timeInMs : num;
  cumulativeTimeInMs : num;
  progressPerLap : num;
  speedFactor : num }.
End ProcessedLap.

Module ProcessedLapData.
Record t : Type := mk { driverId : string; laps : list ProcessedLap.t }.
End ProcessedLapData.

Module PitStop.
Record t : Type := mk {
  driverId : string;
  lap : num;
  stop : num;
  time : string;
  duration : string;
  durationInMs : num }.
End PitStop.

Inductive RaceEventType : Type :=
| lap_complete | pitstop | overtake | dnf | fastest_lap.

Module EventData.
Record t : Type := mk {
  position : option num;
  previousPosition : option num;
  overtakenDriverId : option string;
  lapTime : option num;
  pitDuration : option num;
  dnfReason : option string }.
Definition empty : t := mk None None None None None None.
End EventData.

Module RaceEvent.
Record t : Type := mk {
  type : RaceEventType;
  lap : num;
  timeInMs : num;
  driverId : string;
  data : EventData.t }.
End RaceEvent.

(** Of a [Driver] the services read the identifier only. *)
Module Driver.
Record t : Type := mk { driverId : string; code : string }.
End Driver.

(** Of the [RaceMetadata] the services read [totalLaps] only. *)
Module RaceMetadata.
Record t : Type := mk { raceName : string; totalLaps : num }.
End RaceMetadata.

Module DnfInfo.
Record t : Type := mk { lap : num; reason : string }.
End DnfInfo.

Module FastestLap.
Record t : Type := mk {
  driverId : string;
  lap : num;
  time : string;
  timeInMs : num }.
End FastestLap.

Module DriverState.
Record t : Type := mk {
  driverId : string;
  position : num;
  progress : num;
  lap : num;
  isInPit : bool;
  isDNF : bool;
  hasFastestLap : bool;
  gapToLeader : num;
  lastLapTime : num }.
End DriverState.

Module AnimationFrame.
Record t : Type := mk {
  timeInMs : num;
  drivers : list DriverState.t;
  events : list RaceEvent.t }.
End AnimationFrame.

Module RaceTimeline.
Record t : Type := mk {
  metadata : RaceMetadata.t;
  drivers : list Driver.t;
  totalDurationMs : num;
  frames : list AnimationFrame.t;
  events : list RaceEvent.t }.
End RaceTimeline.

Module PlaybackState.
Record t : Type := mk {
  isPlaying : bool;
  currentTimeMs : num;
  speed : num;
  currentFrameIndex : Z }.
End PlaybackState.

(* ================================================================== *)
(** * [Map], [Set] and [Array.prototype.sort] *)
(* ================================================================== *)

(** [x || 0] for an [x] that may be [undefined]. *)
Definition or_else_opt (x : option num) : num :=
  match x with
  | Some v => or_else v zero
  | None => zero
  end.

Fixpoint last_opt (A : Type) (l : list A) : option A :=
  match l with
  | [] => None
  | [x] => Some x
  | _ :: r => last_opt r
  end.

Section Containers.

Variables K V : Type.
Variable key_eq : K -> K -> bool.

(** [m.get(k)] *)
Fixpoint map_get (m : list (K * V)) (k : K) : option V :=
  match m with
  | [] => None
  | (k', v) :: r => if key_eq k' k then Some v else map_get r k
  end.

(** [m.set(k, v)]: an existing key keeps its place, a new one goes last. *)
Fixpoint map_set (m : list (K * V)) (k : K) (v : V) : list (K * V) :=
  match m with
  | [] => [(k, v)]
  | (k', v') :: r =>
      if key_eq k' k then (k', v) :: r else (k', v') :: map_set r k v
  end.

(** [s.has(k)] and [s.add(k)] on a [Set]. *)
Definition set_has (s : list K) (k : K) : bool :=
  existsb (fun k' => key_eq k' k) s.
Definition set_add (s : list K) (k : K) : list K :=
  if set_has s k then s else s ++ [k].

End Containers.

Section Sort.

Variable A : Type.
(** The comparator; a negative result puts its first argument first, and
    [NaN] counts as [0]. *)
Variable compareFn : A -> A -> num.

Definition comes_after (x y : A) : bool := compareFn x y >? zero.

Fixpoint sort_insert (x : A) (l : list A) : list A :=
  match l with
  | [] => [x]
  | y :: r => if comes_after x y then y :: sort_insert x r else x :: l
  end.

(** [l.sort(compareFn)], stable: an element moves behind those that
    follow it only when the comparator says it is greater. *)
Definition array_sort (l : list A) : list A := fold_right sort_insert [] l.

End Sort.

(* ================================================================== *)
(** * The lap processor *)
(* ================================================================== *)

Module LapProcessor.

(** [lapTimeToMs]: a lap time string to milliseconds. *)
Definition lapTimeToMs (timeStr : string) : num :=
  match timeStr with
  | EmptyString => zero
  | _ =>
      let l := list_ascii_of_string timeStr in
      match split_on ":" l with
      | [p0; p1] =>
          let minutes := parseInt p0 in
          let seconds := parseFloat p1 in
          (minutes * of_Z 60 + seconds) * of_Z 1000
      | _ => parseFloat l * of_Z 1000
      end
  end.

(** The body of [lapTimeToMs] has no [throw], and [split], [parseInt] and
    [parseFloat] do not throw on a string: every call completes normally. *)
Definition lapTimeToMs_completion (timeStr : string) : completion num :=
  Normal (lapTimeToMs timeStr).

(** [processLapData] *)
Definition processLapData (jolpicaLaps : list JolpicaLap.t)
  : list LapTiming.t :=
  map (fun lap =>
         let n := parseInt (list_ascii_of_string (JolpicaLap.number lap)) in
         LapTiming.mk n
           (map (fun timing =>
                   LapData.mk
                     (JolpicaTiming.driverId timing)
                     n
                     (parseInt
                        (list_ascii_of_string (JolpicaTiming.position timing)))
                     (JolpicaTiming.time timing)
                     (lapTimeToMs (JolpicaTiming.time timing)))
                (JolpicaLap.Timings lap)))
      jolpicaLaps.

(** The first loop of [calculateDriverLapData]: the sum and the count of
    the positive lap times. *)
Definition accumulate_valid (acc : num * Z) (timing : LapData.t) : num * Z :=
  let (totalLapTime, lapCount) := acc in
  if LapData.timeInMs timing >? zero
  then (totalLapTime + LapData.timeInMs timing, (lapCount + 1)%Z)
  else acc.

Definition total_and_count (lapTimings : list LapTiming.t) : num * Z :=
  fold_left (fun acc lapTiming =>
               fold_left accumulate_valid (LapTiming.timings lapTiming) acc)
            lapTimings (zero, 0%Z).

Definition averageLapTime (lapTimings : list LapTiming.t) : num :=
  let (totalLapTime, lapCount) := total_and_count lapTimings in
  if (0 <? lapCount)%Z then totalLapTime / of_Z lapCount else of_Z 90000.

Definition find_timing (driverId : string) (timings : list LapData.t)
  : option LapData.t :=
  find (fun t => String.eqb (LapData.driverId t) driverId) timings.

Definition clamp_speed (speedFactor : num) : num :=
  max (Fin (1 # 2)) (min (Fin (3 # 2)) speedFactor).

(** The inner [forEach] of [calculateDriverLapData] for one driver, from
    the cumulative time reached so far. *)
Fixpoint driver_laps (average : num) (driverId : string)
    (lapTimings : list LapTiming.t) (cumulativeTime : num)
  : list ProcessedLap.t :=
  match lapTimings with
  | [] => []
  | lapTiming :: rest =>
      match find_timing driverId (LapTiming.timings lapTiming) with
      | Some driverTiming =>
          let cumulativeTime' :=
            cumulativeTime + LapData.timeInMs driverTiming in
          let speedFactor := average / LapData.timeInMs driverTiming in
          ProcessedLap.mk
            (LapData.lap driverTiming)
            (LapData.position driverTiming)
            (LapData.timeInMs driverTiming)
            cumulativeTime'
            (of_Z 100)
            (clamp_speed speedFactor)
          :: driver_laps average driverId rest cumulativeTime'
      | None => driver_laps average driverId rest cumulativeTime
      end
  end.

(** [calculateDriverLapData] *)
Definition calculateDriverLapData (lapTimings : list LapTiming.t)
    (driverIds : list string) : list ProcessedLapData.t :=
  let average := averageLapTime lapTimings in
  map (fun driverId =>
         ProcessedLapData.mk driverId
           (driver_laps average driverId lapTimings zero))
      driverIds.

(** [calculateRaceDuration]: the largest running total seen. *)
Definition duration_step (acc : list (string * num) * num) (timing : LapData.t)
  : list (string * num) * num :=
  let (driverTimes, maxTime) := acc in
  let currentTime :=
    or_else_opt (map_get String.eqb driverTimes (LapData.driverId timing)) in
  let newTime := currentTime + LapData.timeInMs timing in
  (map_set String.eqb driverTimes (LapData.driverId timing) newTime,
   if newTime >? maxTime then newTime else maxTime).

Definition calculateRaceDuration (lapTimings : list LapTiming.t) : num :=
  match lapTimings with
  | [] => zero
  | _ =>
      snd (fold_left
             (fun acc lapTiming =>
                fold_left duration_step (LapTiming.timings lapTiming) acc)
             lapTimings ([], zero))
  end.

Module Interpolated.
Record t : Type := mk { lap : num; progress : num; position : num }.
End Interpolated.

(** The search loop of [interpolatePosition]; [prevCumulativeTime] is the
    cumulative time of the lap before the head of [laps]. *)
Fixpoint interpolate_loop (laps : list ProcessedLap.t)
    (prevCumulativeTime targetTimeMs : num) : option Interpolated.t :=
  match laps with
  | [] => None
  | currentLap :: rest =>
      if targetTimeMs <=? ProcessedLap.cumulativeTimeInMs currentLap then
        let lapStartTime := prevCumulativeTime in
        let lapDuration := ProcessedLap.timeInMs currentLap in
        let timeIntoLap := targetTimeMs - lapStartTime in
        let progress :=
          min (of_Z 100) (max zero ((timeIntoLap / lapDuration) * of_Z 100)) in
        Some (Interpolated.mk (ProcessedLap.lap currentLap) progress
                (ProcessedLap.position currentLap))
      else
        interpolate_loop rest (ProcessedLap.cumulativeTimeInMs currentLap)
          targetTimeMs
  end.

(** [interpolatePosition] *)
Definition interpolatePosition (processedData : ProcessedLapData.t)
    (targetTimeMs : num) (totalLaps : num) : Interpolated.t :=
  let laps := ProcessedLapData.laps processedData in
  match laps with
  | [] => Interpolated.mk zero zero zero
  | _ =>
      match interpolate_loop laps zero targetTimeMs with
      | Some r => r
      | None =>
          match last_opt laps with
          | Some lastLap =>
              Interpolated.mk (ProcessedLap.lap lastLap) (of_Z 100)
                (ProcessedLap.position lastLap)
          | None => Interpolated.mk zero zero zero
          end
      end
  end.

(** [processPitStops] *)
Definition processPitStops (jolpicaPitStops : list JolpicaPitStop.t)
  : list PitStop.t :=
  map (fun pitStop =>
         PitStop.mk
           (JolpicaPitStop.driverId pitStop)
           (parseInt (list_ascii_of_string (JolpicaPitStop.lap pitStop)))
           (parseInt (list_ascii_of_string (JolpicaPitStop.stop pitStop)))
           (JolpicaPitStop.time pitStop)
           (JolpicaPitStop.duration pitStop)
           (parseFloat (list_ascii_of_string (JolpicaPitStop.duration pitStop))
            * of_Z 1000))
      jolpicaPitStops.

(** The test of [identifyDNFs]: the status, in lower case, is not
    [finished] and has no [+]. *)
Definition did_not_finish (status : string) : bool :=
  let lower := toLowerCase (list_ascii_of_string status) in
  negb (String.eqb (string_of_list_ascii lower) "finished")
  && negb (includes "+" lower).

(** [identifyDNFs] *)
Definition identifyDNFs (results : list JolpicaResult.t)
  : list (string * DnfInfo.t) :=
  fold_left
    (fun dnfs result =>
       if did_not_finish (JolpicaResult.status result) then
         map_set String.eqb dnfs (JolpicaResult.driverId result)
           (DnfInfo.mk
              (parseInt (list_ascii_of_string (JolpicaResult.laps result)))
              (JolpicaResult.status result))
       else dnfs)
    results [].

(** [findFastestLap] *)
Fixpoint findFastestLap (results : list JolpicaResult.t)
  : option FastestLap.t :=
  match results with
  | [] => None
  | result :: rest =>
      match JolpicaResult.FastestLap result with
      | Some fl =>
          if String.eqb (JolpicaFastestLap.rank fl) "1" then
            Some (FastestLap.mk
                    (JolpicaResult.driverId result)
                    (parseInt (list_ascii_of_string (JolpicaFastestLap.lap fl)))
                    (JolpicaFastestLap.time fl)
                    (lapTimeToMs (JolpicaFastestLap.time fl)))
          else findFastestLap rest
      | None => findFastestLap rest
      end
  end.

End LapProcessor.

(* ================================================================== *)
(** * The event manager *)
(* ================================================================== *)

Module EventManager.

(** The comparator every [sort] of events uses: [a.timeInMs - b.timeInMs]. *)
Definition by_time (a b : RaceEvent.t) : num :=
  RaceEvent.timeInMs a - RaceEvent.timeInMs b.

Definition sort_events : list RaceEvent.t -> list RaceEvent.t :=
  array_sort by_time.

(** [createLapCompleteEvents] *)
Definition lap_complete_step
    (acc : list RaceEvent.t * list (string * num)) (timing : LapData.t)
  : list RaceEvent.t * list (string * num) :=
  let (events, cumulativeTimes) := acc in
  let prevTime :=
    or_else_opt
      (map_get String.eqb cumulativeTimes (LapData.driverId timing)) in
  let currentTime := prevTime + LapData.timeInMs timing in
  (events ++
     [RaceEvent.mk lap_complete (LapData.lap timing) currentTime
        (LapData.driverId timing)
        (EventData.mk (Some (LapData.position timing)) None None
           (Some (LapData.timeInMs timing)) None None)],
   map_set String.eqb cumulativeTimes (LapData.driverId timing) currentTime).

Definition lap_complete_unsorted (lapTimings : list LapTiming.t)
  : list RaceEvent.t :=
  fst (fold_left
         (fun acc lapTiming =>
            fold_left lap_complete_step (LapTiming.timings lapTiming) acc)
         lapTimings ([], [])).

Definition createLapCompleteEvents (lapTimings : list LapTiming.t)
  : list RaceEvent.t :=
  sort_events (lap_complete_unsorted lapTimings).

Definition find_driver (driverId : string)
    (processedLapData : list ProcessedLapData.t) : option ProcessedLapData.t :=
  find (fun d => String.eqb (ProcessedLapData.driverId d) driverId)
       processedLapData.

Definition find_lap (lap : num) (laps : list ProcessedLap.t)
  : option ProcessedLap.t :=
  find (fun l => ProcessedLap.lap l === lap) laps.

(** [createPitStopEvents] *)
Definition pit_stop_step (processedLapData : list ProcessedLapData.t)
    (events : list RaceEvent.t) (pitStop : PitStop.t) : list RaceEvent.t :=
  match find_driver (PitStop.driverId pitStop) processedLapData with
  | Some driverData =>
      match find_lap (PitStop.lap pitStop)
              (ProcessedLapData.laps driverData) with
      | Some lapData =>
          let pitEntryTime :=
            ProcessedLap.cumulativeTimeInMs lapData
            - ProcessedLap.timeInMs lapData * Fin (1 # 10) in
          events ++
            [RaceEvent.mk pitstop (PitStop.lap pitStop) pitEntryTime
               (PitStop.driverId pitStop)
               (EventData.mk None None None None
                  (Some (PitStop.durationInMs pitStop)) None)]
      | None => events
      end
  | None => events
  end.

Definition pit_stop_unsorted (pitStops : list PitStop.t)
    (processedLapData : list ProcessedLapData.t) : list RaceEvent.t :=
  fold_left (pit_stop_step processedLapData) pitStops [].

Definition createPitStopEvents (pitStops : list PitStop.t)
    (processedLapData : list ProcessedLapData.t) : list RaceEvent.t :=
  sort_events (pit_stop_unsorted pitStops processedLapData).

(** [detectOvertakes]: the state the two nested loops thread. *)
Module Detect.
Record t : Type := mk {
  events : list RaceEvent.t;
  previousPositions : list (string * num);
  cumulativeTimes : list (string * num) }.
End Detect.

(** The first lap ([lapIndex === 0]) only stores positions and times. *)
Definition store_initial (st : Detect.t) (timing : LapData.t) : Detect.t :=
  Detect.mk (Detect.events st)
    (map_set String.eqb (Detect.previousPositions st)
       (LapData.driverId timing) (LapData.position timing))
    (map_set String.eqb (Detect.cumulativeTimes st)
       (LapData.driverId timing) (LapData.timeInMs timing)).

(** A later lap compares each position with the previous one. *)
Definition overtake_step (st : Detect.t) (timing : LapData.t) : Detect.t :=
  let prevTime :=
    or_else_opt (map_get String.eqb (Detect.cumulativeTimes st)
                   (LapData.driverId timing)) in
  let currentTime := prevTime + LapData.timeInMs timing in
  let cumulativeTimes' :=
    map_set String.eqb (Detect.cumulativeTimes st)
      (LapData.driverId timing) currentTime in
  let prevPosition :=
    map_get String.eqb (Detect.previousPositions st)
      (LapData.driverId timing) in
  let events' :=
    match prevPosition with
    | Some prevPos =>
        if LapData.position timing <? prevPos then
          let overtakenDriver :=
            find (fun entry => snd entry === LapData.position timing)
                 (Detect.previousPositions st) in
          Detect.events st ++
            [RaceEvent.mk overtake (LapData.lap timing)
               (currentTime - LapData.timeInMs timing * Fin (1 # 2))
               (LapData.driverId timing)
               (EventData.mk (Some (LapData.position timing)) (Some prevPos)
                  (option_map fst overtakenDriver) None None None)]
        else Detect.events st
    | None => Detect.events st
    end in
  Detect.mk events'
    (map_set String.eqb (Detect.previousPositions st)
       (LapData.driverId timing) (LapData.position timing))
    cumulativeTimes'.

Definition overtakes_unsorted (lapTimings : list LapTiming.t)
  : list RaceEvent.t :=
  match lapTimings with
  | [] => []
  | first :: rest =>
      let st0 :=
        fold_left store_initial (LapTiming.timings first)
                  (Detect.mk [] [] []) in
      Detect.events
        (fold_left (fun st lapTiming =>
                      fold_left overtake_step (LapTiming.timings lapTiming) st)
                   rest st0)
  end.

Definition detectOvertakes (lapTimings : list LapTiming.t)
  : list RaceEvent.t :=
  sort_events (overtakes_unsorted lapTimings).

(** [createDNFEvents]; [dnfs] is the [Map] in insertion order. *)
Definition dnf_step (processedLapData : list ProcessedLapData.t)
    (events : list RaceEvent.t) (entry : string * DnfInfo.t)
  : list RaceEvent.t :=
  let (driverId, dnfInfo) := entry in
  match find_driver driverId processedLapData with
  | Some driverData =>
      match last_opt (ProcessedLapData.laps driverData) with
      | Some lastLap =>
          events ++
            [RaceEvent.mk dnf (DnfInfo.lap dnfInfo)
               (ProcessedLap.cumulativeTimeInMs lastLap) driverId
               (EventData.mk None None None None None
                  (Some (DnfInfo.reason dnfInfo)))]
      | None => events
      end
  | None => events
  end.

Definition dnf_unsorted (dnfs : list (string * DnfInfo.t))
    (processedLapData : list ProcessedLapData.t) : list RaceEvent.t :=
  fold_left (dnf_step processedLapData) dnfs [].

Definition createDNFEvents (dnfs : list (string * DnfInfo.t))
    (processedLapData : list ProcessedLapData.t) : list RaceEvent.t :=
  sort_events (dnf_unsorted dnfs processedLapData).

(** [createFastestLapEvent] *)
Definition createFastestLapEvent (fastestLap : option FastestLap.t)
    (processedLapData : list ProcessedLapData.t) : option RaceEvent.t :=
  match fastestLap with
  | None => None
  | Some fl =>
      match find_driver (FastestLap.driverId fl) processedLapData with
      | Some driverData =>
          match find_lap (FastestLap.lap fl)
                  (ProcessedLapData.laps driverData) with
          | Some lapData =>
              Some (RaceEvent.mk fastest_lap (FastestLap.lap fl)
                      (ProcessedLap.cumulativeTimeInMs lapData)
                      (FastestLap.driverId fl)
                      (EventData.mk None None None
                         (Some (FastestLap.timeInMs fl)) None None))
          | None => None
          end
      | None => None
      end
  end.

(** [allEvents] of [buildEventTimeline], before the final sort. *)
Definition all_events (lapTimings : list LapTiming.t)
    (pitStops : list PitStop.t) (processedLapData : list ProcessedLapData.t)
    (dnfs : list (string * DnfInfo.t)) (fastestLap : option FastestLap.t)
  : list RaceEvent.t :=
  createLapCompleteEvents lapTimings
  ++ createPitStopEvents pitStops processedLapData
  ++ detectOvertakes lapTimings
  ++ createDNFEvents dnfs processedLapData
  ++ match createFastestLapEvent fastestLap processedLapData with
     | Some fastestLapEvent => [fastestLapEvent]
     | None => []
     end.

(** [buildEventTimeline] *)
Definition buildEventTimeline (lapTimings : list LapTiming.t)
    (pitStops : list PitStop.t) (processedLapData : list ProcessedLapData.t)
    (dnfs : list (string * DnfInfo.t)) (fastestLap : option FastestLap.t)
  : list RaceEvent.t :=
  sort_events (all_events lapTimings pitStops processedLapData dnfs fastestLap).

Definition type_eqb (a b : RaceEventType) : bool :=
  match a, b with
  | lap_complete, lap_complete | pitstop, pitstop | overtake, overtake
  | dnf, dnf | fastest_lap, fastest_lap => true
  | _, _ => false
  end.

(** [filterEventsByType] *)
Definition filterEventsByType (events : list RaceEvent.t)
    (type : RaceEventType) : list RaceEvent.t :=
  filter (fun event => type_eqb (RaceEvent.type event) type) events.

(** [getEventsInTimeRange] *)
Definition getEventsInTimeRange (events : list RaceEvent.t)
    (startTimeMs endTimeMs : num) : list RaceEvent.t :=
  filter (fun event =>
            (RaceEvent.timeInMs event >=? startTimeMs)
            && (RaceEvent.timeInMs event <=? endTimeMs))
         events.

(** [getDriverEvents] *)
Definition getDriverEvents (events : list RaceEvent.t) (driverId : string)
  : list RaceEvent.t :=
  filter (fun event => String.eqb (RaceEvent.driverId event) driverId) events.

End EventManager.

(* ================================================================== *)
(** * The timeline generator *)
(* ================================================================== *)

Module TimelineGenerator.

Import LapProcessor.

Definition DEFAULT_FRAME_INTERVAL : num := of_Z 500.

(** [calculateLeaderTimes]: a running sum of the lap times of whoever is
    in position 1 on each lap, keyed by lap number. *)
Definition leader_step (acc : list (num * num) * num) (lapTiming : LapTiming.t)
  : list (num * num) * num :=
  let (leaderTimes, cumulativeTime) := acc in
  match find (fun t => LapData.position t === of_Z 1)
             (LapTiming.timings lapTiming) with
  | Some leaderTiming =>
      let cumulativeTime' := cumulativeTime + LapData.timeInMs leaderTiming in
      (map_set same_value_zero leaderTimes (LapTiming.lap lapTiming)
         cumulativeTime',
       cumulativeTime')
  | None => acc
  end.

Definition calculateLeaderTimes (lapTimings : list LapTiming.t)
  : list (num * num) :=
  fst (fold_left leader_step lapTimings ([], zero)).

(** [createPitStopMap] *)
Definition pit_map_step (m : list (string * list num)) (pitStop : PitStop.t)
  : list (string * list num) :=
  let m' :=
    match map_get String.eqb m (PitStop.driverId pitStop) with
    | Some _ => m
    | None => map_set String.eqb m (PitStop.driverId pitStop) []
    end in
  match map_get String.eqb m' (PitStop.driverId pitStop) with
  | Some laps =>
      map_set String.eqb m' (PitStop.driverId pitStop)
        (set_add same_value_zero laps (PitStop.lap pitStop))
  | None => m'
  end.

Definition createPitStopMap (pitStops : list PitStop.t)
  : list (string * list num) :=
  fold_left pit_map_step pitStops [].

(** The state of one driver in [generateFrame]. *)
Definition driver_state (timeMs : num)
    (processedLapData : list ProcessedLapData.t)
    (pitStopMap : list (string * list num))
    (dnfs : list (string * DnfInfo.t))
    (fastestLapDriverId : option string)
    (leaderTimes : list (num * num)) (totalLaps : num)
    (driver : Driver.t) : DriverState.t :=
  let placeholder :=
    DriverState.mk (Driver.driverId driver) zero zero zero
      false false false zero zero in
  match EventManager.find_driver (Driver.driverId driver) processedLapData with
  | None => placeholder
  | Some driverData =>
      match ProcessedLapData.laps driverData with
      | [] => placeholder
      | _ =>
          let r := interpolatePosition driverData timeMs totalLaps in
          let lap := Interpolated.lap r in
          let progress := Interpolated.progress r in
          let position := Interpolated.position r in
          let isInPit :=
            match map_get String.eqb pitStopMap (Driver.driverId driver) with
            | Some driverPitLaps =>
                set_has same_value_zero driverPitLaps lap
                && (progress >? of_Z 85) && (progress <? of_Z 100)
            | None => false
            end in
          let isDNF :=
            match map_get String.eqb dnfs (Driver.driverId driver) with
            | Some dnfInfo => lap >=? DnfInfo.lap dnfInfo
            | None => false
            end in
          let hasFastestLap :=
            match fastestLapDriverId with
            | Some id => String.eqb (Driver.driverId driver) id
            | None => false
            end in
          let leaderTime :=
            or_else_opt (map_get same_value_zero leaderTimes lap) in
          let lapData :=
            EventManager.find_lap lap (ProcessedLapData.laps driverData) in
          let driverTime :=
            or_else_opt (option_map ProcessedLap.cumulativeTimeInMs lapData) in
          let gapToLeader :=
            if position === of_Z 1 then zero
            else max zero (driverTime - leaderTime) in
          let lastLapTime :=
            or_else_opt (option_map ProcessedLap.timeInMs lapData) in
          DriverState.mk (Driver.driverId driver) position progress lap
            isInPit isDNF hasFastestLap gapToLeader lastLapTime
      end
  end.

(** The comparator of the sort by position: position 0 goes last. *)
Definition by_position (a b : DriverState.t) : num :=
  if DriverState.position a === zero then of_Z 1
  else if DriverState.position b === zero then of_Z (-1)
  else DriverState.position a - DriverState.position b.

(** The events a frame at [timeMs] keeps. *)
Definition frame_events (events : list RaceEvent.t) (timeMs : num)
  : list RaceEvent.t :=
  filter (fun event =>
            abs (RaceEvent.timeInMs event - timeMs)
            <? DEFAULT_FRAME_INTERVAL / of_Z 2)
         events.

(** [generateFrame] *)
Definition generateFrame (timeMs : num) (drivers : list Driver.t)
    (processedLapData : list ProcessedLapData.t)
    (pitStopMap : list (string * list num))
    (events : list RaceEvent.t)
    (dnfs : list (string * DnfInfo.t))
    (fastestLapDriverId : option string)
    (leaderTimes : list (num * num)) (totalLaps : num)
  : AnimationFrame.t :=
  let driverStates :=
    map (driver_state timeMs processedLapData pitStopMap dnfs
           fastestLapDriverId leaderTimes totalLaps) drivers in
  AnimationFrame.mk timeMs
    (array_sort by_position driverStates)
    (frame_events events timeMs).

(** The [for] loop of [generateRaceTimeline], from [timeMs] on.  It does
    not end when [frameInterval] is zero or negative: [fuel] bounds the
    number of iterations, and [None] is a loop that used it up. *)
Fixpoint frames_from (fuel : nat) (timeMs totalDurationMs frameInterval : num)
    (mk_frame : num -> AnimationFrame.t) : option (list AnimationFrame.t) :=
  match fuel with
  | O => None
  | S fuel' =>
      if timeMs <=? totalDurationMs then
        match frames_from fuel' (timeMs + frameInterval) totalDurationMs
                frameInterval mk_frame with
        | Some frames => Some (mk_frame timeMs :: frames)
        | None => None
        end
      else Some []
  end.

(** [generateRaceTimeline] *)
Definition generateRaceTimeline (fuel : nat)
    (metadata : RaceMetadata.t) (drivers : list Driver.t)
    (lapTimings : list LapTiming.t)
    (processedLapData : list ProcessedLapData.t)
    (pitStops : list PitStop.t) (events : list RaceEvent.t)
    (dnfs : list (string * DnfInfo.t))
    (fastestLapDriverId : option string)
    (frameInterval : num) : option RaceTimeline.t :=
  let totalDurationMs := calculateRaceDuration lapTimings in
  let leaderTimes := calculateLeaderTimes lapTimings in
  let pitStopMap := createPitStopMap pitStops in
  match frames_from fuel zero totalDurationMs frameInterval
          (fun timeMs =>
             generateFrame timeMs drivers processedLapData pitStopMap events
               dnfs fastestLapDriverId leaderTimes
               (RaceMetadata.totalLaps metadata)) with
  | Some frames =>
      Some (RaceTimeline.mk metadata drivers totalDurationMs frames events)
  | None => None
  end.

(** [new Set(events.map((e) => e.timeInMs))] *)
Definition event_times (events : list RaceEvent.t) : list num :=
  fold_left (set_add same_value_zero) (map RaceEvent.timeInMs events) [].

(** The loop of [compressTimeline] from index [i]; [frames] are the frames
    from [i] on, and the last of them is not visited. *)
Fixpoint compress_loop (interval : num) (eventTimes : list num) (i : Z)
    (frames : list AnimationFrame.t) : list AnimationFrame.t :=
  match frames with
  | frame :: (_ :: _) as rest =>
      let kept :=
        (modulo (of_Z i) interval === zero)
        || set_has same_value_zero eventTimes (AnimationFrame.timeInMs frame) in
      (if kept then [frame] else [])
        ++ compress_loop interval eventTimes (i + 1) rest
  | _ => []
  end.

(** [compressTimeline].  On a timeline without frames and a target below
    zero the source pushes [frames[0]], which is [undefined]: [None]
    stands for that result, which is not a timeline. *)
Definition compressTimeline (timeline : RaceTimeline.t)
    (targetFrameCount : num) : option RaceTimeline.t :=
  let frames := RaceTimeline.frames timeline in
  let events := RaceTimeline.events timeline in
  if of_Z (Z.of_nat (List.length frames)) <=? targetFrameCount then
    Some timeline
  else
    let interval :=
      ceil (of_Z (Z.of_nat (List.length frames)) / targetFrameCount) in
    let eventTimes := event_times events in
    match frames, last_opt frames with
    | first :: rest, Some lastFrame =>
        Some (RaceTimeline.mk
                (RaceTimeline.metadata timeline)
                (RaceTimeline.drivers timeline)
                (RaceTimeline.totalDurationMs timeline)
                (first :: compress_loop interval eventTimes 1 rest
                   ++ [lastFrame])
                events)
    | _, _ => None
    end.

(** [getTimelineSlice] *)
Definition getTimelineSlice (timeline : RaceTimeline.t)
    (startTimeMs endTimeMs : num) : list AnimationFrame.t :=
  filter (fun frame =>
            (AnimationFrame.timeInMs frame >=? startTimeMs)
            && (AnimationFrame.timeInMs frame <=? endTimeMs))
         (RaceTimeline.frames timeline).

End TimelineGenerator.

(* ================================================================== *)
(** * The playback engine: the [useAnimation] hook *)
(* ================================================================== *)

Module Animation.

Import PlaybackState.

(** The state [useState] starts from. *)
Definition initial : PlaybackState.t := PlaybackState.mk false zero (of_Z 1) 0.

(** The loop of [findFrameIndex], at index [i]. *)
Fixpoint find_frame_loop (frames : list AnimationFrame.t) (i : Z)
    (timeMs : num) : option Z :=
  match frames with
  | [] => None
  | frame :: rest =>
      if AnimationFrame.timeInMs frame >? timeMs then Some (Z.max 0 (i - 1))
      else find_frame_loop rest (i + 1) timeMs
  end.

(** [findFrameIndex] *)
Definition findFrameIndex (timeline : option RaceTimeline.t) (timeMs : num)
  : Z :=
  match timeline with
  | None => 0
  | Some tl =>
      match RaceTimeline.frames tl with
      | [] => 0
      | frames =>
          match find_frame_loop frames 0 timeMs with
          | Some i => i
          | None => Z.of_nat (List.length frames) - 1
          end
      end
  end%Z.

(** The state update of one [animate] callback, [deltaMs] after the
    previous one. *)
Definition animate (timeline : option RaceTimeline.t) (deltaMs : num)
    (prev : PlaybackState.t) : PlaybackState.t :=
  match timeline with
  | None => prev
  | Some tl =>
      let newTimeMs := currentTimeMs prev + deltaMs * speed prev * of_Z 20 in
      if newTimeMs >=? RaceTimeline.totalDurationMs tl then
        PlaybackState.mk false (RaceTimeline.totalDurationMs tl) (speed prev)
          (Z.of_nat (List.length (RaceTimeline.frames tl)) - 1)
      else
        PlaybackState.mk (isPlaying prev) newTimeMs (speed prev)
          (findFrameIndex timeline newTimeMs)
  end.

(** The effect that runs when the timeline changes. *)
Definition on_timeline_change (timeline : option RaceTimeline.t)
    (prev : PlaybackState.t) : PlaybackState.t :=
  match timeline with
  | Some _ => initial
  | None => prev
  end.

Definition play (timeline : option RaceTimeline.t) (prev : PlaybackState.t)
  : PlaybackState.t :=
  PlaybackState.mk true (currentTimeMs prev) (speed prev)
    (currentFrameIndex prev).

Definition pause (timeline : option RaceTimeline.t) (prev : PlaybackState.t)
  : PlaybackState.t :=
  PlaybackState.mk false (currentTimeMs prev) (speed prev)
    (currentFrameIndex prev).

(** [restart] reads the speed of the rendered state. *)
Definition restart (timeline : option RaceTimeline.t)
    (playbackState : PlaybackState.t) : PlaybackState.t :=
  PlaybackState.mk false zero (speed playbackState) 0.

Definition setSpeed (timeline : option RaceTimeline.t) (speed' : num)
    (prev : PlaybackState.t) : PlaybackState.t :=
  PlaybackState.mk (isPlaying prev) (currentTimeMs prev) speed'
    (currentFrameIndex prev).

Definition seekTo (timeline : option RaceTimeline.t) (timeMs : num)
    (prev : PlaybackState.t) : PlaybackState.t :=
  match timeline with
  | None => prev
  | Some tl =>
      let clampedTime :=
        max zero (min timeMs (RaceTimeline.totalDurationMs tl)) in
      let frameIndex := findFrameIndex timeline clampedTime in
      PlaybackState.mk (isPlaying prev) clampedTime (speed prev) frameIndex
  end.

Definition seekToPercent (timeline : option RaceTimeline.t) (percent : num)
    (prev : PlaybackState.t) : PlaybackState.t :=
  match timeline with
  | None => prev
  | Some tl =>
      let timeMs := (percent / of_Z 100) * RaceTimeline.totalDurationMs tl in
      seekTo timeline timeMs prev
  end.

(** [getFrame] *)
Definition getFrame (timeline : option RaceTimeline.t) (index : Z)
  : option AnimationFrame.t :=
  match timeline with
  | None => None
  | Some tl =>
      if (index <? 0)%Z
         || (Z.of_nat (List.length (RaceTimeline.frames tl)) <=? index)%Z
      then None
      else nth_error (RaceTimeline.frames tl) (Z.to_nat index)
  end.

(** The body of the [map] of [interpolateDrivers] for one driver, at the
    interpolation factor [t]. *)
Definition interpolate_driver (t : num) (nextDrivers : list DriverState.t)
    (driver : DriverState.t) : DriverState.t :=
  match find (fun d => String.eqb (DriverState.driverId d)
                         (DriverState.driverId driver)) nextDrivers with
  | None => driver
  | Some nextDriver =>
      let linear :=
        DriverState.progress driver
        + (DriverState.progress nextDriver - DriverState.progress driver) * t in
      let interpolatedProgress :=
        if (DriverState.lap nextDriver >? DriverState.lap driver)
           && (DriverState.progress nextDriver <? DriverState.progress driver)
        then
          let wrapped :=
            DriverState.progress driver
            + (of_Z 100 - DriverState.progress driver
               + DriverState.progress nextDriver) * t in
          if wrapped >? of_Z 100 then modulo wrapped (of_Z 100) else wrapped
        else linear in
      DriverState.mk
        (DriverState.driverId driver)
        (if t >? Fin (1 # 2) then DriverState.position nextDriver
         else DriverState.position driver)
        interpolatedProgress
        (if t >? Fin (1 # 2) then DriverState.lap nextDriver
         else DriverState.lap driver)
        (DriverState.isInPit driver)
        (DriverState.isDNF driver)
        (DriverState.hasFastestLap driver)
        (DriverState.gapToLeader driver)
        (DriverState.lastLapTime driver)
  end.

(** [interpolateDrivers] *)
Definition interpolateDrivers (timeline : option RaceTimeline.t)
    (timeMs : num) : list DriverState.t :=
  match timeline with
  | None => []
  | Some tl =>
      let frameIndex := findFrameIndex timeline timeMs in
      match skipn (Z.to_nat frameIndex) (RaceTimeline.frames tl) with
      | [] => []
      | [currentFrame] => AnimationFrame.drivers currentFrame
      | currentFrame :: nextFrame :: _ =>
          let frameDuration :=
            AnimationFrame.timeInMs nextFrame
            - AnimationFrame.timeInMs currentFrame in
          let elapsed := timeMs - AnimationFrame.timeInMs currentFrame in
          let t :=
            if frameDuration >? zero then min (of_Z 1) (elapsed / frameDuration)
            else zero in
          map (interpolate_driver t (AnimationFrame.drivers nextFrame))
              (AnimationFrame.drivers currentFrame)
      end
  end.

(** The operations the hook returns. *)
Inductive operation : Type :=
| Play
| Pause
| Restart
| SetSpeed (speed : num)
| SeekTo (timeMs : num)
| SeekToPercent (percent : num).

(** A call made right after a render, when no update is pending: the
    state the callbacks have captured is the state they update. *)
Definition apply (timeline : option RaceTimeline.t) (st : PlaybackState.t)
    (o : operation) : PlaybackState.t :=
  match o with
  | Play => play timeline st
  | Pause => pause timeline st
  | Restart => restart timeline st
  | SetSpeed s => setSpeed timeline s st
  | SeekTo t => seekTo timeline t st
  | SeekToPercent p => seekToPercent timeline p st
  end.

(** A call in general: the callbacks are those of the last render, whose
    state was [rendered], and the updates queued since have led to
    [pending].  [play], [pause], [setSpeed] and [seekTo] queue an updater
    function, which runs on the pending state; [restart] queues a state,
    built with the speed of the rendered one. *)
Definition call (timeline : option RaceTimeline.t)
    (rendered pending : PlaybackState.t) (o : operation) : PlaybackState.t :=
  match o with
  | Play => play timeline pending
  | Pause => pause timeline pending
  | Restart => restart timeline rendered
  | SetSpeed s => setSpeed timeline s pending
  | SeekTo t => seekTo timeline t pending
  | SeekToPercent p => seekToPercent timeline p pending
  end.

(** The calls made between two renders, and the state the next render
    shows. *)
Definition batch (timeline : option RaceTimeline.t)
    (rendered : PlaybackState.t) (ops : list operation) : PlaybackState.t :=
  fold_left (call timeline rendered) ops rendered.

(** Batches of calls, with a render after each batch. *)
Definition run_batches (timeline : option RaceTimeline.t)
    (batches : list (list operation)) (st : PlaybackState.t)
  : PlaybackState.t :=
  fold_left (batch timeline) batches st.

End Animation.

(* ================================================================== *)
(** * The event utilities of the client *)
(* ================================================================== *)

Module EventUtil.

(** [getEventsInWindow]; [windowMs] is 5000 when it is not given. *)
Definition getEventsInWindow (events : list RaceEvent.t)
    (currentTimeMs : num) (windowMs : option num) : list RaceEvent.t :=
  let windowMs :=
    match windowMs with Some w => w | None => of_Z 5000 end in
  filter (fun event =>
            (RaceEvent.timeInMs event >=? currentTimeMs - windowMs)
            && (RaceEvent.timeInMs event <=? currentTimeMs))
         events.

(** The comparator of [getLatestDriverEvent]: the later event first. *)
Definition latest_first (a b : RaceEvent.t) : num :=
  RaceEvent.timeInMs b - RaceEvent.timeInMs a.

(** [getLatestDriverEvent]; [None] is [null]. *)
Definition getLatestDriverEvent (events : list RaceEvent.t)
    (driverId : string) (currentTimeMs : num) : option RaceEvent.t :=
  let driverEvents :=
    array_sort latest_first
      (filter (fun e =>
                 String.eqb (RaceEvent.driverId e) driverId
                 && (RaceEvent.timeInMs e <=? currentTimeMs))
              events) in
  hd_error driverEvents.

End EventUtil.

(* ================================================================== *)
(** * Vocabulary of the specification *)
(* ================================================================== *)

Module Spec.

(** The shape [SS.mmm]: two digits, a dot, three digits. *)
Definition is_seconds_shape (l : list ascii) : bool :=
  match l with
  | [s1; s2; dot; m1; m2; m3] =>
      is_digit s1 && is_digit s2 && Ascii.eqb dot "."
      && is_digit m1 && is_digit m2 && is_digit m3
  | _ => false
  end.

(** The shape [M:SS.mmm]: one or more digits, a colon, then [SS.mmm]. *)
Definition is_minutes_shape (l : list ascii) : bool :=
  match span_digits l with
  | (_ :: _, sep :: r) => Ascii.eqb sep ":" && is_seconds_shape r
  | _ => false
  end.

Definition accepted_shape (s : string) : bool :=
  let l := list_ascii_of_string s in
  is_seconds_shape l || is_minutes_shape l.

(** The milliseconds a string of an accepted shape denotes: [SS.mmm] is
    [SSmmm] milliseconds, and a minute is 60000. *)
Definition seconds_ms (l : list ascii) : Z :=
  match l with
  | [s1; s2; _; m1; m2; m3] => digits_value [s1; s2; m1; m2; m3]
  | _ => 0
  end.

Definition shape_ms (s : string) : Z :=
  let l := list_ascii_of_string s in
  if is_seconds_shape l then seconds_ms l
  else
    match span_digits l with
    | (m, _ :: r) => 60000 * digits_value m + seconds_ms r
    | _ => 0
    end.

(** The place of a category in the documented order of ties. *)
Definition rank (ty : RaceEventType) : nat :=
  match ty with
  | lap_complete => 0
  | pitstop => 1
  | overtake => 2
  | dnf => 3
  | fastest_lap => 4
  end.

(** [a] may stand before [b] in an event log: its time is not later, and
    at equal times its category does not come later. *)
Definition event_order (a b : RaceEvent.t) : Prop :=
  le (RaceEvent.timeInMs a) (RaceEvent.timeInMs b)
  /\ (eqv (RaceEvent.timeInMs a) (RaceEvent.timeInMs b) ->
      (rank (RaceEvent.type a) <= rank (RaceEvent.type b))%nat).

(** Every lap time of the input is a finite number. *)
Definition finite_timings (lapTimings : list LapTiming.t) : Prop :=
  forall lapTiming timing,
    In lapTiming lapTimings -> In timing (LapTiming.timings lapTiming) ->
    is_finite (LapData.timeInMs timing) = true.

(** No lap time of the input is negative, and none is [NaN]. *)
Definition no_negative_time (lapTimings : list LapTiming.t) : Prop :=
  forall lapTiming timing,
    In lapTiming lapTimings -> In timing (LapTiming.timings lapTiming) ->
    le zero (LapData.timeInMs timing).

(** Every lap time and cumulative time of the series is a finite number. *)
Definition finite_series (processedLapData : list ProcessedLapData.t) : Prop :=
  forall driverData l,
    In driverData processedLapData -> In l (ProcessedLapData.laps driverData) ->
    is_finite (ProcessedLap.timeInMs l) = true
    /\ is_finite (ProcessedLap.cumulativeTimeInMs l) = true.

(** Laps are numbered from 1: the timings of the [i]-th element of the
    array (from 0) carry lap [i + 1]. *)
Definition numbered_from_one (lapTimings : list LapTiming.t) : Prop :=
  forall i lapTiming timing,
    nth_error lapTimings i = Some lapTiming ->
    In timing (LapTiming.timings lapTiming) ->
    LapData.lap timing = of_Z (Z.of_nat i + 1).

(** The cumulative times of a series, lap after lap. *)
Definition cumulative_times (d : ProcessedLapData.t) : list num :=
  map ProcessedLap.cumulativeTimeInMs (ProcessedLapData.laps d).

(** The number of frames of a timeline an event is attached to. *)
Definition same_event (a b : RaceEvent.t) : bool :=
  String.eqb (RaceEvent.driverId a) (RaceEvent.driverId b)
  && (RaceEvent.lap a === RaceEvent.lap b)
  && (RaceEvent.timeInMs a === RaceEvent.timeInMs b)
  && (rank (RaceEvent.type a) =? rank (RaceEvent.type b))%nat.

Definition attached_frames (e : RaceEvent.t) (frames : list AnimationFrame.t)
  : list num :=
  map AnimationFrame.timeInMs
    (filter (fun f => existsb (same_event e) (AnimationFrame.events f)) frames).

(** What the playback state is after a sequence of calls when no timeline
    is loaded: the last of [play], [pause], [restart] decides
    [isPlaying]. *)
Fixpoint playing_after (ops : list Animation.operation) (playing : bool)
  : bool :=
  match ops with
  | [] => playing
  | Animation.Play :: r => playing_after r true
  | (Animation.Pause | Animation.Restart) :: r => playing_after r false
  | _ :: r => playing_after r playing
  end.

(** The speed after the calls of one batch, when the last render had the
    speed [rendered]: the last [setSpeed] decides, unless a [restart]
    follows it, which puts the speed of the last render back. *)
Fixpoint speed_in_batch (rendered : num) (ops : list Animation.operation)
    (speed : num) : num :=
  match ops with
  | [] => speed
  | Animation.SetSpeed s :: r => speed_in_batch rendered r s
  | Animation.Restart :: r => speed_in_batch rendered r rendered
  | _ :: r => speed_in_batch rendered r speed
  end.

Definition speed_after_batches (batches : list (list Animation.operation))
    (speed : num) : num :=
  fold_left (fun sp ops => speed_in_batch sp ops sp) batches speed.

End Spec.

(* ================================================================== *)
(** * Sample inputs *)
(* ================================================================== *)

Module Samples.

Import LapProcessor EventManager TimelineGenerator.

Definition metadata : RaceMetadata.t := RaceMetadata.mk "sample" (of_Z 2).

Definition empty_frame (timeInMs : Z) : AnimationFrame.t :=
  AnimationFrame.mk (of_Z timeInMs) [] [].

(** A timeline of 10 seconds sampled every 5 seconds. *)
Definition short_timeline : RaceTimeline.t :=
  RaceTimeline.mk metadata [] (of_Z 10000)
    [empty_frame 0; empty_frame 5000; empty_frame 10000] [].

(** Two drivers, two laps, as the provider sends them; [b] takes the lead
    on lap 2. *)
Definition lead_change_raw : list JolpicaLap.t :=
  [JolpicaLap.mk "1" [JolpicaTiming.mk "a" "1" "1:20.000";
                      JolpicaTiming.mk "b" "2" "1:21.000"];
   JolpicaLap.mk "2" [JolpicaTiming.mk "b" "1" "1:19.000";
                      JolpicaTiming.mk "a" "2" "1:21.000"]].

Definition lead_change : list LapTiming.t := processLapData lead_change_raw.

Definition two_drivers : list Driver.t :=
  [Driver.mk "a" "AAA"; Driver.mk "b" "BBB"].

Definition lead_change_series : list ProcessedLapData.t :=
  calculateDriverLapData lead_change ["a"; "b"].

Definition lead_change_fastest : option FastestLap.t :=
  Some (FastestLap.mk "b" (of_Z 2) "1:19.000" (of_Z 79000)).

(** One driver, one lap of 2.5 seconds, as the provider sends it. *)
Definition one_lap_raw : list JolpicaLap.t :=
  [JolpicaLap.mk "1" [JolpicaTiming.mk "a" "1" "0:02.500"]].

Definition one_lap : list LapTiming.t := processLapData one_lap_raw.

Definition one_lap_series : list ProcessedLapData.t :=
  calculateDriverLapData one_lap ["a"].

Definition one_lap_events : list RaceEvent.t :=
  buildEventTimeline one_lap [] one_lap_series [] None.

Definition one_lap_timeline (frameInterval : Z) : option RaceTimeline.t :=
  generateRaceTimeline 100 metadata [Driver.mk "a" "AAA"] one_lap
    one_lap_series [] one_lap_events [] None (of_Z frameInterval).

(** One driver, one lap of 2.75 seconds. *)
Definition odd_lap : list LapTiming.t :=
  processLapData [JolpicaLap.mk "1" [JolpicaTiming.mk "a" "1" "0:02.750"]].

Definition odd_lap_series : list ProcessedLapData.t :=
  calculateDriverLapData odd_lap ["a"].

Definition odd_lap_events : list RaceEvent.t :=
  buildEventTimeline odd_lap [] odd_lap_series [] None.

Definition odd_lap_timeline : option RaceTimeline.t :=
  generateRaceTimeline 100 metadata [Driver.mk "a" "AAA"] odd_lap
    odd_lap_series [] odd_lap_events [] None DEFAULT_FRAME_INTERVAL.

(** The frame of the lead-change race at 100 seconds. *)
Definition lead_change_frame : AnimationFrame.t :=
  generateFrame (of_Z 100000) two_drivers lead_change_series [] [] [] None
    (calculateLeaderTimes lead_change) (of_Z 2).

(** A lap on which the time of [a] cannot be read. *)
Definition unparsed_raw : list JolpicaLap.t :=
  [JolpicaLap.mk "1" [JolpicaTiming.mk "a" "1" "bad";
                      JolpicaTiming.mk "b" "2" "0:02.500"]].

Definition unparsed : list LapTiming.t := processLapData unparsed_raw.

Definition unparsed_series : list ProcessedLapData.t :=
  calculateDriverLapData unparsed ["a"; "b"].

(** Two laps that come in the order 2, 1; [b] is second in the first
    element of the array and first in the second. *)
Definition reversed_laps_raw : list JolpicaLap.t :=
  [JolpicaLap.mk "2" [JolpicaTiming.mk "a" "1" "1:20.000";
                      JolpicaTiming.mk "b" "2" "1:21.000"];
   JolpicaLap.mk "1" [JolpicaTiming.mk "b" "1" "1:19.000";
                      JolpicaTiming.mk "a" "2" "1:21.000"]].

(** A lap with an empty time string after a lap of 1:30. *)
Definition empty_time_raw : list JolpicaLap.t :=
  [JolpicaLap.mk "1" [JolpicaTiming.mk "a" "1" "1:30.000"];
   JolpicaLap.mk "2" [JolpicaTiming.mk "a" "1" ""]].

End Samples.

(* ================================================================== *)
(** * Invariants and measures used in the proofs *)
(* ================================================================== *)

Module Inv.

Import LapProcessor EventManager.

(** What [accumulate_valid] keeps true of the sum and the count. *)
Definition sum_count_ok (acc : num * Z) : Prop :=
  exists tot cnt,
    (acc = (Fin tot, cnt)
     /\ (0 <= cnt)%Z /\ 0 <= tot /\ ((0 < cnt)%Z -> 0 < tot))%Q.

(** An event is an overtake that carries the lap of [timing]. *)
Definition overtake_of (timing : LapData.t) (e : RaceEvent.t) : Prop :=
  RaceEvent.type e = overtake /\ RaceEvent.lap e = LapData.lap timing.

Definition finite_event (e : RaceEvent.t) : Prop :=
  is_finite (RaceEvent.timeInMs e) = true.

Definition rank_le (a b : RaceEvent.t) : Prop :=
  (Spec.rank (RaceEvent.type a) <= Spec.rank (RaceEvent.type b))%nat.

(** A finite event of category [ty]. *)
Definition finite_of (ty : RaceEventType) (e : RaceEvent.t) : Prop :=
  RaceEvent.type e = ty /\ finite_event e.

Definition finite_map (K : Type) (m : list (K * num)) : Prop :=
  Forall (fun kv => is_finite (snd kv) = true) m.

Definition detect_ok (st : Detect.t) : Prop :=
  Forall (finite_of overtake) (Detect.events st)
  /\ finite_map (Detect.cumulativeTimes st).

(** The frames of a timeline and, for each of its events, the frames the
    event is attached to. *)
Definition attachments (timeline : option RaceTimeline.t)
  : option (list num * list (num * list num)) :=
  match timeline with
  | Some tl =>
      Some (map AnimationFrame.timeInMs (RaceTimeline.frames tl),
            map (fun e => (RaceEvent.timeInMs e,
                           Spec.attached_frames e (RaceTimeline.frames tl)))
                (RaceTimeline.events tl))
  | None => None
  end.

(** What [gapToLeader] would be if the leader time of a lap were the
    cumulative time of the driver in position 1 on that lap. *)
Definition leader_cumulative (series : list ProcessedLapData.t) (lap : num)
  : option num :=
  match
    flat_map (fun d =>
                filter (fun l => (ProcessedLap.lap l === lap)
                                 && (ProcessedLap.position l === of_Z 1))
                       (ProcessedLapData.laps d))
             series
  with
  | l :: _ => Some (ProcessedLap.cumulativeTimeInMs l)
  | [] => None
  end.

End Inv.

(* ================================================================== *)
(** * Vocabulary of the further properties *)
(* ================================================================== *)

Module Props.

Import LapProcessor EventManager TimelineGenerator.

(** From [start], each cumulative time is the one before plus the lap
    time. *)
Fixpoint running_sum (start : num) (laps : list ProcessedLap.t) : Prop :=
  match laps with
  | [] => True
  | l :: r =>
      ProcessedLap.cumulativeTimeInMs l = start + ProcessedLap.timeInMs l
      /\ running_sum (ProcessedLap.cumulativeTimeInMs l) r
  end.

(** No timing of any lap is of driver [driverId]. *)
Definition absent (driverId : string) (lapTimings : list LapTiming.t) : Prop :=
  forall lapTiming timing,
    In lapTiming lapTimings -> In timing (LapTiming.timings lapTiming) ->
    String.eqb (LapData.driverId timing) driverId = false.

(** A lap with a positive time and a finite cumulative time. *)
Definition regular_lap (l : ProcessedLap.t) : Prop :=
  exists q c,
    ProcessedLap.timeInMs l = Fin q /\ (0 < q)%Q
    /\ ProcessedLap.cumulativeTimeInMs l = Fin c.

(** [targetTimeMs] is after the cumulative time of [l]. *)
Definition after_lap (targetTimeMs : num) (l : ProcessedLap.t) : Prop :=
  (targetTimeMs <=? ProcessedLap.cumulativeTimeInMs l) = false.

(** What [interpolatePosition] returns, read off the series. *)
Definition located (laps : list ProcessedLap.t) (targetTimeMs : num)
    (r : Interpolated.t) : Prop :=
  (laps = [] /\ r = Interpolated.mk zero zero zero)
  \/ (exists before l rest,
        laps = before ++ l :: rest
        /\ Forall (after_lap targetTimeMs) before
        /\ (targetTimeMs <=? ProcessedLap.cumulativeTimeInMs l) = true
        /\ Interpolated.lap r = ProcessedLap.lap l
        /\ Interpolated.position r = ProcessedLap.position l)
  \/ (exists l,
        last_opt laps = Some l
        /\ Forall (after_lap targetTimeMs) laps
        /\ r = Interpolated.mk (ProcessedLap.lap l) (of_Z 100)
                 (ProcessedLap.position l)).

(** Every lap time of the input is a finite number that is not negative. *)
Definition nonneg_timings (lapTimings : list LapTiming.t) : Prop :=
  forall lapTiming timing,
    In lapTiming lapTimings -> In timing (LapTiming.timings lapTiming) ->
    exists q, LapData.timeInMs timing = Fin q /\ (0 <= q)%Q.

(** The state of [calculateRaceDuration] covers driver [driverId] up to
    the cumulative time [c]: the running total of the driver is at least
    [c] and the maximum is at least that total. *)
Definition covers (driverId : string) (c : Q)
    (acc : list (string * num) * num) : Prop :=
  Inv.finite_map (fst acc)
  /\ exists v M,
       or_else_opt (map_get String.eqb (fst acc) driverId) = Fin v
       /\ snd acc = Fin M /\ (c <= v)%Q /\ (v <= M)%Q.

(** The competitor and the lap an event or a timing is about. *)
Definition event_key (e : RaceEvent.t) : string * num :=
  (RaceEvent.driverId e, RaceEvent.lap e).

Definition timing_key (t : LapData.t) : string * num :=
  (LapData.driverId t, LapData.lap t).

(** All the timings of the race, lap after lap. *)
Definition all_timings (lapTimings : list LapTiming.t) : list LapData.t :=
  flat_map LapTiming.timings lapTimings.

(** An overtake that records a position gained. *)
Definition gains_position (e : RaceEvent.t) : Prop :=
  RaceEvent.type e = overtake
  /\ exists position previousPosition,
       EventData.position (RaceEvent.data e) = Some position
       /\ EventData.previousPosition (RaceEvent.data e) = Some previousPosition
       /\ lt position previousPosition.

(** A pit stop event of a stop of [pitStops], placed a tenth of the lap
    time before the end of the lap of the first series of its driver; it
    is not after the end of the lap when the lap is regular. *)
Definition pit_event_of (pitStops : list PitStop.t)
    (processedLapData : list ProcessedLapData.t) (e : RaceEvent.t) : Prop :=
  RaceEvent.type e = pitstop
  /\ exists pitStop driverData lapData,
       In pitStop pitStops
       /\ RaceEvent.driverId e = PitStop.driverId pitStop
       /\ RaceEvent.lap e = PitStop.lap pitStop
       /\ find_driver (PitStop.driverId pitStop) processedLapData
          = Some driverData
       /\ find_lap (PitStop.lap pitStop) (ProcessedLapData.laps driverData)
          = Some lapData
       /\ RaceEvent.timeInMs e
          = ProcessedLap.cumulativeTimeInMs lapData
            - ProcessedLap.timeInMs lapData * Fin (1 # 10)
       /\ (regular_lap lapData ->
           le (RaceEvent.timeInMs e) (ProcessedLap.cumulativeTimeInMs lapData)).

(** A retirement event of an entry of [dnfs], at the cumulative time of
    the last lap of the first series of its driver. *)
Definition dnf_event_of (dnfs : list (string * DnfInfo.t))
    (processedLapData : list ProcessedLapData.t) (e : RaceEvent.t) : Prop :=
  RaceEvent.type e = dnf
  /\ exists dnfInfo driverData lastLap,
       In (RaceEvent.driverId e, dnfInfo) dnfs
       /\ RaceEvent.lap e = DnfInfo.lap dnfInfo
       /\ find_driver (RaceEvent.driverId e) processedLapData = Some driverData
       /\ last_opt (ProcessedLapData.laps driverData) = Some lastLap
       /\ RaceEvent.timeInMs e = ProcessedLap.cumulativeTimeInMs lastLap.

(** The number of frames sampled every [q] ms over a race of [T] ms. *)
Definition frame_count (T q : Q) : nat := S (Z.to_nat (Qfloor (T / q))).

(** The [k]-th frame is at [k] times the interval. *)
Definition sampled_at (q : Q) (frames : list AnimationFrame.t) : Prop :=
  forall k f,
    nth_error frames k = Some f ->
    eqv (AnimationFrame.timeInMs f) (Fin (inject_Z (Z.of_nat k) * q)).

(** Some stop of [pitStops] is of driver [driverId] on lap [lap]. *)
Definition pitted (pitStops : list PitStop.t) (driverId : string) (lap : num)
  : Prop :=
  exists pitStop,
    In pitStop pitStops
    /\ PitStop.driverId pitStop = driverId
    /\ same_value_zero (PitStop.lap pitStop) lap = true.

(** The pit stop index of [createPitStopMap] has [lap] for [driverId]. *)
Definition indexed (pitStopMap : list (string * list num))
    (driverId : string) (lap : num) : Prop :=
  exists laps,
    map_get String.eqb pitStopMap driverId = Some laps
    /\ set_has same_value_zero laps lap = true.

(** The state of a driver that has no lap data. *)
Definition placeholder (driverId : string) : DriverState.t :=
  DriverState.mk driverId zero zero zero false false false zero zero.

(** The first series of [driverId] is missing or has no lap. *)
Definition no_laps (processedLapData : list ProcessedLapData.t)
    (driverId : string) : Prop :=
  match find_driver driverId processedLapData with
  | Some driverData => ProcessedLapData.laps driverData = []
  | None => True
  end.

(** Some result of [driverId] has a status that is not a finish. *)
Definition retired (results : list JolpicaResult.t) (driverId : string)
  : Prop :=
  exists result,
    In result results
    /\ JolpicaResult.driverId result = driverId
    /\ did_not_finish (JolpicaResult.status result) = true.

(** Some event of [events] is at time [t]. *)
Definition has_event_at (events : list RaceEvent.t) (t : num) : Prop :=
  exists e,
    In e events /\ same_value_zero (RaceEvent.timeInMs e) t = true.

(** [l] is [l'] with some elements left out. *)
Inductive subsequence (A : Type) : list A -> list A -> Prop :=
| subsequence_nil : subsequence [] []
| subsequence_skip x l l' : subsequence l l' -> subsequence l (x :: l')
| subsequence_keep x l l' : subsequence l l' -> subsequence (x :: l) (x :: l').

(** What happens to the playback state: a call of one of the operations,
    or an [animate] callback [deltaMs] after the previous one. *)
Inductive action : Type :=
| Call (o : Animation.operation)
| Tick (deltaMs : num).

Definition perform (timeline : option RaceTimeline.t) (st : PlaybackState.t)
    (a : action) : PlaybackState.t :=
  match a with
  | Call o => Animation.apply timeline st o
  | Tick deltaMs => Animation.animate timeline deltaMs st
  end.

(** A session: the state after a sequence of actions. *)
Definition session (timeline : option RaceTimeline.t) (actions : list action)
    (st : PlaybackState.t) : PlaybackState.t :=
  fold_left (perform timeline) actions st.

(** A finite number that is not negative. *)
Definition nonneg (a : num) : Prop := exists q, a = Fin q /\ (0 <= q)%Q.

(** Time does not go back between callbacks, no speed is negative, and
    the targets of the seeks are numbers. *)
Definition regular_action (a : action) : Prop :=
  match a with
  | Tick deltaMs => nonneg deltaMs
  | Call (Animation.SetSpeed speed) => nonneg speed
  | Call (Animation.SeekTo timeMs) => is_nan timeMs = false
  | Call (Animation.SeekToPercent percent) => is_finite percent = true
  | Call _ => True
  end.

(** The frame is not after [timeMs]. *)
Definition not_after (timeMs : num) (frame : AnimationFrame.t) : Prop :=
  (AnimationFrame.timeInMs frame >? timeMs) = false.


(** [b] is [a] but for the position, the progress and the lap. *)
Definition same_but_motion (a b : DriverState.t) : Prop :=
  DriverState.driverId b = DriverState.driverId a
  /\ DriverState.isInPit b = DriverState.isInPit a
  /\ DriverState.isDNF b = DriverState.isDNF a
  /\ DriverState.hasFastestLap b = DriverState.hasFastestLap a
  /\ DriverState.gapToLeader b = DriverState.gapToLeader a
  /\ DriverState.lastLapTime b = DriverState.lastLapTime a.

(** The progress of the state is a number of [0, 100]. *)
Definition on_track (st : DriverState.t) : Prop :=
  exists p, DriverState.progress st = Fin p /\ (0 <= p)%Q /\ (p <= 100)%Q.

(** The clock is a number of [0, T] and the speed is not negative. *)
Definition within_race (T : Q) (st : PlaybackState.t) : Prop :=
  (exists c, PlaybackState.currentTimeMs st = Fin c /\ (0 <= c)%Q /\ (c <= T)%Q)
  /\ nonneg (PlaybackState.speed st).

(** An event of [driverId] that is not after [timeMs]. *)
Definition past_event_of (driverId : string) (timeMs : num) (e : RaceEvent.t)
  : Prop :=
  RaceEvent.driverId e = driverId /\ le (RaceEvent.timeInMs e) timeMs.

(** What [processPitStops] makes of the duration of a stop: a duration
    without a colon is read as [lapTimeToMs] reads it; of a duration of
    shape M:SS.mmm only the minutes are read, as seconds (stated for up to
    twelve digits of minutes, whose thousandfold doubles represent); an
    empty duration gives [NaN]. *)
Definition duration_read (duration : string) (durationInMs : num) : Prop :=
  let l := list_ascii_of_string duration in
  (duration <> EmptyString -> includes ":" l = false ->
   durationInMs = lapTimeToMs duration)
  /\ (Spec.is_minutes_shape l = true ->
      (List.length (fst (span_digits l)) <= 12)%nat ->
      exists q,
        durationInMs = Fin q
        /\ (q == inject_Z (1000 * digits_value (fst (span_digits l))))%Q)
  /\ (duration = EmptyString -> durationInMs = NaN).

(** The result has no fastest lap of rank 1. *)
Definition not_fastest (result : JolpicaResult.t) : Prop :=
  match JolpicaResult.FastestLap result with
  | Some fl => String.eqb (JolpicaFastestLap.rank fl) "1" = false
  | None => True
  end.

(** A fastest lap event of the first result of [results] whose fastest lap
    has rank 1, at the cumulative time of that lap in the first series of
    the driver. *)
Definition fastest_event_of (results : list JolpicaResult.t)
    (processedLapData : list ProcessedLapData.t) (e : RaceEvent.t) : Prop :=
  RaceEvent.type e = fastest_lap
  /\ exists before result rest fl driverData lapData,
       results = before ++ result :: rest
       /\ Forall not_fastest before
       /\ JolpicaResult.FastestLap result = Some fl
       /\ JolpicaFastestLap.rank fl = "1"
       /\ RaceEvent.driverId e = JolpicaResult.driverId result
       /\ RaceEvent.lap e
          = parseInt (list_ascii_of_string (JolpicaFastestLap.lap fl))
       /\ find_driver (JolpicaResult.driverId result) processedLapData
          = Some driverData
       /\ find_lap (RaceEvent.lap e) (ProcessedLapData.laps driverData)
          = Some lapData
       /\ RaceEvent.timeInMs e = ProcessedLap.cumulativeTimeInMs lapData
       /\ EventData.lapTime (RaceEvent.data e)
          = Some (lapTimeToMs (JolpicaFastestLap.time fl)).

End Props.

(* ================================================================== *)
(** * Further sample inputs *)
(* ================================================================== *)

Module Samples2.

Import LapProcessor EventManager TimelineGenerator.

(** The series of driver [a] in the lead-change race. *)
Definition series_a : ProcessedLapData.t :=
  ProcessedLapData.mk "a"
    (driver_laps (averageLapTime Samples.lead_change) "a"
       Samples.lead_change zero).

(** One driver, one lap of ten seconds. *)
Definition ten_seconds : list LapTiming.t :=
  processLapData [JolpicaLap.mk "1" [JolpicaTiming.mk "a" "1" "0:10.000"]].

Definition ten_seconds_series : list ProcessedLapData.t :=
  calculateDriverLapData ten_seconds ["a"].

(** The two events of a race of one lap by two drivers. *)
Definition two_events : list RaceEvent.t :=
  createLapCompleteEvents
    (processLapData
       [JolpicaLap.mk "1" [JolpicaTiming.mk "a" "1" "0:10.000";
                           JolpicaTiming.mk "b" "2" "0:11.000"]]).

(** A session on the timeline of ten seconds. *)
Definition a_session : list Props.action :=
  [Props.Call Animation.Play; Props.Tick (of_Z 16);
   Props.Call (Animation.SetSpeed (of_Z 4)); Props.Tick (of_Z 16);
   Props.Call (Animation.SeekTo (of_Z 20000));
   Props.Call (Animation.SeekToPercent (of_Z 50)); Props.Tick (of_Z 16);
   Props.Call Animation.Restart].

(** Two frames, a second apart, of one driver who goes from lap 1 to
    lap 2. *)
Definition two_frames : list AnimationFrame.t :=
  [AnimationFrame.mk zero
     [DriverState.mk "a" (of_Z 1) (of_Z 90) (of_Z 1) false false false
        zero zero] [];
   AnimationFrame.mk (of_Z 1000)
     [DriverState.mk "a" (of_Z 1) (of_Z 30) (of_Z 2) false false false
        zero zero] []].

End Samples2.

(* ================================================================== *)
(** * Properties of numbers *)
(* ================================================================== *)

Section NumFacts.

Local Open Scope Q_scope.

Lemma ltb_fin (x y : Q) : ltb (Fin x) (Fin y) = true <-> x < y.
Proof.
  unfold ltb. rewrite Qlt_alt.
  destruct (x ?= y); split; congruence.
Qed.

Lemma ltb_fin_false (x y : Q) : ltb (Fin x) (Fin y) = false <-> y <= x.
Proof.
  unfold ltb. rewrite Qle_alt, <- (Qcompare_antisym x y).
  destruct (x ?= y); simpl; split; congruence.
Qed.

Lemma leb_fin (x y : Q) : leb (Fin x) (Fin y) = true <-> x <= y.
Proof.
  unfold leb. rewrite Qle_alt.
  destruct (x ?= y); split; congruence.
Qed.

Lemma leb_fin_false (x y : Q) : leb (Fin x) (Fin y) = false <-> y < x.
Proof.
  unfold leb. rewrite Qlt_alt, <- (Qcompare_antisym x y).
  destruct (x ?= y); simpl; split; congruence.
Qed.

Lemma ltb_leb (a b : num) : ltb a b = true -> leb a b = true.
Proof.
  destruct a, b; simpl; try congruence.
  fold (ltb (Fin q) (Fin q0)). fold (leb (Fin q) (Fin q0)).
  rewrite ltb_fin, leb_fin. apply Qlt_le_weak.
Qed.

Lemma leb_ltb_false (a b : num) : leb a b = true -> ltb b a = false.
Proof.
  destruct a, b; simpl; try congruence.
  fold (ltb (Fin q0) (Fin q)). fold (leb (Fin q) (Fin q0)).
  rewrite ltb_fin_false, leb_fin. trivial.
Qed.


Lemma leb_refl (a : num) : is_nan a = false -> leb a a = true.
Proof.
  destruct a; simpl; try congruence.
  intros _. fold (leb (Fin q) (Fin q)). apply leb_fin, Qle_refl.
Qed.

Lemma leb_trans (a b c : num) :
  leb a b = true -> leb b c = true -> leb a c = true.
Proof.
  destruct a, b, c; simpl; try congruence.
  fold (leb (Fin q) (Fin q0)). fold (leb (Fin q0) (Fin q1)).
  fold (leb (Fin q) (Fin q1)).
  rewrite !leb_fin. apply Qle_trans.
Qed.

Lemma ltb_trans (a b c : num) :
  ltb a b = true -> ltb b c = true -> ltb a c = true.
Proof.
  destruct a, b, c; simpl; try congruence.
  fold (ltb (Fin q) (Fin q0)). fold (ltb (Fin q0) (Fin q1)).
  fold (ltb (Fin q) (Fin q1)).
  rewrite !ltb_fin. apply Qlt_trans.
Qed.

Lemma leb_not_nan (a b : num) :
  leb a b = true -> is_nan a = false /\ is_nan b = false.
Proof. destruct a, b; simpl; auto; congruence. Qed.


Lemma eqv_refl (a : num) : eqv a a.
Proof. destruct a; simpl; trivial. apply Qeq_refl. Qed.

Lemma max_not_nan (a b : num) :
  is_nan a = false -> is_nan b = false -> is_nan (max a b) = false.
Proof.
  intros Ha Hb. unfold max.
  destruct a, b; try discriminate; try reflexivity;
    match goal with |- context [if ?c then _ else _] => destruct c end;
    assumption.
Qed.

Lemma min_not_nan (a b : num) :
  is_nan a = false -> is_nan b = false -> is_nan (min a b) = false.
Proof.
  intros Ha Hb. unfold min.
  destruct a, b; try discriminate; try reflexivity;
    match goal with |- context [if ?c then _ else _] => destruct c end;
    assumption.
Qed.

Lemma max_unfold (a b : num) :
  is_nan a = false -> is_nan b = false ->
  max a b = if ltb a b then b else a.
Proof. destruct a, b; simpl; congruence. Qed.

Lemma min_unfold (a b : num) :
  is_nan a = false -> is_nan b = false ->
  min a b = if ltb b a then b else a.
Proof. destruct a, b; simpl; congruence. Qed.

Lemma max_lower (a b : num) :
  is_nan a = false -> is_nan b = false -> leb a (max a b) = true.
Proof.
  intros Ha Hb. rewrite max_unfold by assumption.
  destruct (ltb a b) eqn:E.
  - apply ltb_leb, E.
  - apply leb_refl, Ha.
Qed.


Lemma max_least (a b c : num) :
  leb a c = true -> leb b c = true -> leb (max a b) c = true.
Proof.
  intros Ha Hb.
  destruct (leb_not_nan _ _ Ha) as [Na _], (leb_not_nan _ _ Hb) as [Nb _].
  rewrite max_unfold by assumption. destruct (ltb a b); assumption.
Qed.

Lemma min_upper (a b : num) :
  is_nan a = false -> is_nan b = false -> leb (min a b) a = true.
Proof.
  intros Ha Hb. rewrite min_unfold by assumption.
  destruct (ltb b a) eqn:E.
  - apply ltb_leb, E.
  - apply leb_refl, Ha.
Qed.


Lemma min_greatest (a b c : num) :
  leb c a = true -> leb c b = true -> leb c (min a b) = true.
Proof.
  intros Ha Hb.
  destruct (leb_not_nan _ _ Ha) as [_ Na], (leb_not_nan _ _ Hb) as [_ Nb].
  rewrite min_unfold by assumption. destruct (ltb b a); assumption.
Qed.

End NumFacts.

(* ================================================================== *)
(** * The playback engine *)
(* ================================================================== *)

Module PlaybackFacts.

Import PlaybackState Animation.

Lemma playing_after_app (ops ops' : list operation) (playing : bool) :
  Spec.playing_after (ops ++ ops') playing
  = Spec.playing_after ops' (Spec.playing_after ops playing).
Proof.
  revert playing. induction ops as [|o r IH]; intros playing; trivial.
  destruct o; cbn [app Spec.playing_after]; apply IH.
Qed.

Lemma calls_without_timeline (rendered : PlaybackState.t)
    (ops : list operation) :
  forall st,
    currentTimeMs st = zero -> currentFrameIndex st = 0%Z ->
    fold_left (call None rendered) ops st =
    PlaybackState.mk (Spec.playing_after ops (isPlaying st)) zero
      (Spec.speed_in_batch (speed rendered) ops (speed st)) 0.
Proof.
  induction ops as [|o ops IH]; intros [p t s i] Ht Hi; simpl in *.
  - subst. reflexivity.
  - subst. destruct o; simpl; rewrite IH; reflexivity.
Qed.

Lemma batches_without_timeline (batches : list (list operation)) :
  forall st,
    currentTimeMs st = zero -> currentFrameIndex st = 0%Z ->
    run_batches None batches st =
    PlaybackState.mk (Spec.playing_after (List.concat batches) (isPlaying st)) zero
      (Spec.speed_after_batches batches (speed st)) 0.
Proof.
  unfold run_batches, Spec.speed_after_batches.
  induction batches as [|ops r IH]; intros st Ht Hi; cbn [fold_left List.concat].
  - destruct st; simpl in *; subst; reflexivity.
  - unfold batch at 2. rewrite (calls_without_timeline st ops st Ht Hi).
    rewrite IH by reflexivity.
    cbn [isPlaying speed]. rewrite playing_after_app. reflexivity.
Qed.

(** C4, as the specification states it, fails: without a timeline [play]
    still sets [isPlaying] and [setSpeed] still sets the speed. *)
Lemma operations_without_timeline_counterexample :
  isPlaying (run_batches None [[Play]] initial) = true
  /\ run_batches None [[Play]] initial <> initial
  /\ speed (run_batches None [[SetSpeed (of_Z 2)]] initial) = of_Z 2
  /\ run_batches None [[SetSpeed (of_Z 2)]] initial <> initial.
Proof. repeat split; try reflexivity; discriminate. Qed.

(** C4, amended: with no timeline loaded, [seekTo] and [seekToPercent]
    leave the state as it is, and after any sequence of calls from the
    initial state, however the renders fall between them, the virtual clock
    and the frame index are still 0; [isPlaying] is what the last [play],
    [pause] or [restart] made it; the speed is what the last [setSpeed]
    made it, unless a [restart] came after it, which puts back the speed
    of the last render before it: [setSpeed 4] and [restart] between two
    renders leave the speed at 1, with a render between them at 4. *)
Theorem operations_without_timeline (batches : list (list operation)) :
  run_batches None batches initial =
    PlaybackState.mk (Spec.playing_after (List.concat batches) false) zero
      (Spec.speed_after_batches batches (of_Z 1)) 0
  /\ (forall st timeMs, seekTo None timeMs st = st)
  /\ (forall st percent, seekToPercent None percent st = st)
  /\ speed (run_batches None [[SetSpeed (of_Z 4); Restart]] initial) = of_Z 1
  /\ speed (run_batches None [[SetSpeed (of_Z 4)]; [Restart]] initial)
     = of_Z 4.
Proof.
  split; [|repeat split].
  apply (batches_without_timeline batches initial); reflexivity.
Qed.

(** C10: [setSpeed] changes the speed and nothing else, with or without
    a timeline. *)
Theorem setSpeed_changes_speed_only
    (timeline : option RaceTimeline.t) (s : num) (prev : PlaybackState.t) :
  speed (setSpeed timeline s prev) = s
  /\ isPlaying (setSpeed timeline s prev) = isPlaying prev
  /\ currentTimeMs (setSpeed timeline s prev) = currentTimeMs prev
  /\ currentFrameIndex (setSpeed timeline s prev) = currentFrameIndex prev.
Proof. repeat split. Qed.

(** The duration [calculateRaceDuration] gives a timeline is never
    negative, and never [NaN]. *)
Lemma duration_step_nonneg (acc : list (string * num) * num) (t : LapData.t) :
  le zero (snd acc) -> le zero (snd (LapProcessor.duration_step acc t)).
Proof.
  destruct acc as [driverTimes maxTime]. unfold LapProcessor.duration_step.
  cbn [snd]. intros H.
  match goal with |- context [if ?c then _ else _] => destruct c eqn:E end;
    trivial.
  eapply leb_trans; [exact H|]. apply ltb_leb, E.
Qed.

Lemma calculateRaceDuration_nonneg (lapTimings : list LapTiming.t) :
  le zero (LapProcessor.calculateRaceDuration lapTimings).
Proof.
  unfold LapProcessor.calculateRaceDuration.
  destruct lapTimings as [|lt0 r]; [reflexivity|].
  generalize (lt0 :: r). clear lt0 r. intros l.
  assert (H0 : le zero (snd (@nil (string * num), zero))) by reflexivity.
  revert H0. generalize (@nil (string * num), zero).
  induction l as [|lt1 l IH]; intros acc Hacc; cbn [fold_left]; trivial.
  apply IH. revert acc Hacc.
  induction (LapTiming.timings lt1) as [|t ts IHt]; intros acc Hacc;
    cbn [fold_left]; trivial.
  apply IHt, duration_step_nonneg, Hacc.
Qed.

Lemma generated_duration_nonneg (fuel : nat) (metadata : RaceMetadata.t)
    (drivers : list Driver.t) (lapTimings : list LapTiming.t)
    (processedLapData : list ProcessedLapData.t) (pitStops : list PitStop.t)
    (events : list RaceEvent.t) (dnfs : list (string * DnfInfo.t))
    (fastestLapDriverId : option string) (frameInterval : num)
    (tl : RaceTimeline.t) :
  TimelineGenerator.generateRaceTimeline fuel metadata drivers lapTimings
    processedLapData pitStops events dnfs fastestLapDriverId frameInterval
  = Some tl ->
  le zero (RaceTimeline.totalDurationMs tl).
Proof.
  unfold TimelineGenerator.generateRaceTimeline.
  destruct (TimelineGenerator.frames_from _ _ _ _ _); [|discriminate].
  intros [= <-]. apply calculateRaceDuration_nonneg.
Qed.


End PlaybackFacts.


(* ================================================================== *)
(** * The stable sort *)
(* ================================================================== *)

Section SortFacts.

Variable A : Type.
Variable compareFn : A -> A -> num.

Lemma sort_insert_perm (x : A) (l : list A) :
  Permutation (x :: l) (sort_insert compareFn x l).
Proof.
  induction l as [|y r IH]; simpl.
  - apply Permutation_refl.
  - destruct (comes_after compareFn x y).
    + apply perm_trans with (y :: x :: r); [apply perm_swap|].
      apply perm_skip, IH.
    + apply Permutation_refl.
Qed.

Lemma array_sort_perm (l : list A) : Permutation l (array_sort compareFn l).
Proof.
  induction l as [|x r IH]; simpl.
  - apply perm_nil.
  - apply perm_trans with (x :: array_sort compareFn r).
    + apply perm_skip, IH.
    + apply sort_insert_perm.
Qed.

Lemma array_sort_In (x : A) (l : list A) :
  In x (array_sort compareFn l) <-> In x l.
Proof.
  split; apply Permutation_in.
  - apply Permutation_sym, array_sort_perm.
  - apply array_sort_perm.
Qed.

Lemma array_sort_Forall (P : A -> Prop) (l : list A) :
  Forall P l -> Forall P (array_sort compareFn l).
Proof.
  rewrite !Forall_forall. intros H x Hx. apply H, array_sort_In, Hx.
Qed.

End SortFacts.

(* ================================================================== *)
(** * The lap processor: cumulative times and speed factors *)
(* ================================================================== *)

Module SeriesFacts.

Import Inv LapProcessor.
Local Open Scope Q_scope.

Lemma find_timing_In (driverId : string) (timings : list LapData.t) (t : LapData.t) :
  find_timing driverId timings = Some t -> In t timings.
Proof. intros H. apply find_some in H. tauto. Qed.


Lemma accumulate_valid_ok (acc : num * Z) (timing : LapData.t) :
  is_finite (LapData.timeInMs timing) = true ->
  sum_count_ok acc -> sum_count_ok (accumulate_valid acc timing).
Proof.
  intros Hfin (tot & cnt & -> & Hc & Ht & Hpos).
  unfold accumulate_valid.
  destruct (LapData.timeInMs timing) as [q| | |]; try discriminate.
  unfold gtb. destruct (ltb zero (Fin q)) eqn:E.
  - apply ltb_fin in E. change (inject_Z 0) with 0 in E.
    exists (Qred (tot + q)), (cnt + 1)%Z.
    split; [reflexivity|]. split; [lia|].
    split; [|intros _]; rewrite Qred_correct; lra.
  - exists tot, cnt. auto.
Qed.

Lemma fold_accumulate_ok (timings : list LapData.t) :
  forall acc,
    Forall (fun t => is_finite (LapData.timeInMs t) = true) timings ->
    sum_count_ok acc -> sum_count_ok (fold_left accumulate_valid timings acc).
Proof.
  induction timings as [|t r IH]; intros acc HF Hacc; simpl; trivial.
  inversion HF; subst. apply IH; trivial. apply accumulate_valid_ok; trivial.
Qed.

Lemma total_and_count_ok (lapTimings : list LapTiming.t) :
  Spec.finite_timings lapTimings -> sum_count_ok (total_and_count lapTimings).
Proof.
  unfold total_and_count, Spec.finite_timings.
  assert (H0 : sum_count_ok (zero, 0%Z)).
  { exists 0, 0%Z. repeat split; try lia; try lra. }
  revert H0. generalize (zero, 0%Z).
  induction lapTimings as [|lt r IH]; intros acc Hacc HF; simpl; trivial.
  apply IH.
  - apply fold_accumulate_ok; trivial.
    apply Forall_forall. intros t Ht. apply (HF lt t); simpl; auto.
  - intros lt' t Hlt Ht. apply (HF lt' t); simpl; auto.
Qed.

(** The average lap time is a positive finite number. *)
Lemma averageLapTime_positive (lapTimings : list LapTiming.t) :
  Spec.finite_timings lapTimings ->
  exists a, averageLapTime lapTimings = Fin a /\ 0 < a.
Proof.
  intros HF. unfold averageLapTime.
  destruct (total_and_count_ok HF) as (tot & cnt & -> & Hc & Ht & Hpos).
  destruct (0 <? cnt)%Z eqn:E.
  - apply Z.ltb_lt in E. specialize (Hpos E).
    assert (Hq : 0 < inject_Z cnt).
    { change 0 with (inject_Z 0). rewrite <- Zlt_Qlt. exact E. }
    unfold div, of_Z, Qsign.
    assert (Hs : (inject_Z cnt ?= 0) = Gt) by (apply Qgt_alt; exact Hq).
    rewrite Hs. eexists. split; [reflexivity|].
    rewrite Qred_correct. apply Qlt_shift_div_l; lra.
  - exists (inject_Z 90000). split; [reflexivity|].
    change 0 with (inject_Z 0). rewrite <- Zlt_Qlt. lia.
Qed.

Lemma div_positive_not_nan (a : Q) (t : num) :
  0 < a -> is_finite t = true -> is_nan (Fin a / t) = false.
Proof.
  intros Ha Ht. destruct t as [q| | |]; try discriminate.
  unfold div, Qsign.
  destruct (q ?= 0); try reflexivity.
  apply Qgt_alt in Ha. rewrite Ha. reflexivity.
Qed.

Lemma clamp_speed_range (x : num) :
  is_nan x = false ->
  le (Fin (1 # 2)) (clamp_speed x) /\ le (clamp_speed x) (Fin (3 # 2)).
Proof.
  intros Hx. unfold clamp_speed, le.
  assert (Hm : is_nan (min (Fin (3 # 2)) x) = false)
    by (apply min_not_nan; trivial).
  split.
  - apply max_lower; trivial.
  - apply max_least; [reflexivity|]. apply min_upper; trivial.
Qed.

Lemma driver_laps_speed (a : Q) (driverId : string)
    (lapTimings : list LapTiming.t) :
  0 < a -> Spec.finite_timings lapTimings ->
  forall cumulativeTime l,
    In l (driver_laps (Fin a) driverId lapTimings cumulativeTime) ->
    le (Fin (1 # 2)) (ProcessedLap.speedFactor l)
    /\ le (ProcessedLap.speedFactor l) (Fin (3 # 2)).
Proof.
  intros Ha. induction lapTimings as [|lt r IH]; intros HF c l Hl; simpl in Hl.
  - contradiction.
  - assert (HFr : Spec.finite_timings r).
    { intros lt' t Hlt Ht. apply (HF lt' t); simpl; auto. }
    destruct (find_timing driverId (LapTiming.timings lt)) as [t|] eqn:E.
    + destruct Hl as [<- | Hl]; [|eapply IH; eauto].
      simpl. apply clamp_speed_range, div_positive_not_nan; trivial.
      apply (HF lt t); simpl; auto. eapply find_timing_In; eauto.
    + eapply IH; eauto.
Qed.

(** C7, as the specification states it, fails: a lap whose time string
    cannot be read has time [NaN], and so has its speed factor. *)
Lemma speedFactor_counterexample :
  map (fun d => map ProcessedLap.speedFactor (ProcessedLapData.laps d))
      Samples.unparsed_series
  = [[NaN]; [of_Z 1]]
  /\ ~ le (Fin (1 # 2)) NaN
  /\ ~ le NaN (Fin (3 # 2)).
Proof. repeat split; discriminate. Qed.

(** C7, amended: when every lap time of the input is a finite number, the
    speed factor of every lap of every driver in the output of
    [calculateDriverLapData] lies in [0.5, 1.5]. *)
Theorem speedFactor_within_bounds
    (lapTimings : list LapTiming.t) (driverIds : list string)
    (d : ProcessedLapData.t) (l : ProcessedLap.t) :
  Spec.finite_timings lapTimings ->
  In d (calculateDriverLapData lapTimings driverIds) ->
  In l (ProcessedLapData.laps d) ->
  le (Fin (1 # 2)) (ProcessedLap.speedFactor l)
  /\ le (ProcessedLap.speedFactor l) (Fin (3 # 2)).
Proof.
  intros HF Hd Hl. unfold calculateDriverLapData in Hd.
  apply in_map_iff in Hd. destruct Hd as (id & <- & _). simpl in Hl.
  destruct (averageLapTime_positive HF) as (a & Ea & Ha).
  rewrite Ea in Hl. eapply driver_laps_speed; eauto.
Qed.

Lemma speedFactor_within_bounds_witness :
  Spec.finite_timings Samples.lead_change
  /\ le (Fin (1 # 2)) (Fin (321 # 320)) /\ le (Fin (321 # 320)) (Fin (3 # 2)).
Proof.
  assert (HF : Spec.finite_timings Samples.lead_change).
  { intros lt0 t Hlt Ht. vm_compute in Hlt.
    destruct Hlt as [<- | [<- | []]]; vm_compute in Ht;
      destruct Ht as [<- | [<- | []]]; reflexivity. }
  split; [exact HF|].
  apply (@speedFactor_within_bounds Samples.lead_change
           ["a"%string; "b"%string]
           (ProcessedLapData.mk "a"
              (driver_laps (averageLapTime Samples.lead_change) "a"
                 Samples.lead_change zero))
           (ProcessedLap.mk (of_Z 1) (of_Z 1) (of_Z 80000) (of_Z 80000)
              (of_Z 100) (Fin (321 # 320))) HF).
  - left. reflexivity.
  - left. reflexivity.
Defined.

End SeriesFacts.

Module CumulativeFacts.

Import Inv LapProcessor.
Local Open Scope Q_scope.

Lemma add_not_negative (a t : num) :
  le zero a -> le zero t -> le a (a + t) /\ le zero (a + t).
Proof.
  unfold le.
  destruct a as [x| | |], t as [y| | |]; intros Ha Ht; try discriminate;
    try (split; reflexivity).
  apply leb_fin in Ha, Ht. change (inject_Z 0) with 0 in Ha, Ht.
  cbn [add]. split; apply leb_fin; rewrite Qred_correct;
    change (inject_Z 0) with 0; lra.
Qed.

Lemma driver_laps_not_decreasing (average : num) (driverId : string)
    (lapTimings : list LapTiming.t) :
  Spec.no_negative_time lapTimings ->
  forall start : num,
    le zero start ->
    Forall (le start)
      (map ProcessedLap.cumulativeTimeInMs
         (driver_laps average driverId lapTimings start))
    /\ StronglySorted le
         (map ProcessedLap.cumulativeTimeInMs
            (driver_laps average driverId lapTimings start)).
Proof.
  induction lapTimings as [|lt0 r IH]; intros HP start Hs; cbn [driver_laps].
  - split; constructor.
  - assert (HPr : Spec.no_negative_time r).
    { intros lt' t Hlt Ht. apply (HP lt' t); simpl; auto. }
    destruct (find_timing driverId (LapTiming.timings lt0)) as [t|] eqn:E.
    + assert (Ht : le zero (LapData.timeInMs t)).
      { apply (HP lt0 t); [simpl; auto|].
        eapply SeriesFacts.find_timing_In; eauto. }
      destruct (add_not_negative Hs Ht) as [Hc H0].
      destruct (IH HPr _ H0) as [HF HS].
      cbn [map ProcessedLap.cumulativeTimeInMs]. split.
      * constructor; [exact Hc|].
        eapply Forall_impl; [|exact HF].
        intros x Hx. unfold le in *. eapply leb_trans; eauto.
      * constructor; assumption.
    + apply IH; assumption.
Qed.

(** C6, as the specification states it, fails: a lap whose time string is
    empty has time 0 and repeats the cumulative time of the lap before. *)
Lemma cumulative_time_counterexample :
  map Spec.cumulative_times
    (calculateDriverLapData (processLapData Samples.empty_time_raw) ["a"%string])
  = [[of_Z 90000; of_Z 90000]]
  /\ ~ Sorted lt [of_Z 90000; of_Z 90000].
Proof.
  split; [reflexivity|].
  intros H. inversion H as [|x l _ Hd]; subst.
  inversion Hd as [|y l' Hlt]; subst. discriminate Hlt.
Qed.

(** C6, amended: when no lap time of the input is negative or NaN, the
    cumulative times of every driver in the output of
    [calculateDriverLapData] never decrease: the cumulative time of a lap
    is not below that of any earlier lap.  A lap time of 0 repeats the
    cumulative time of the lap before. *)
Theorem cumulative_time_not_decreasing
    (lapTimings : list LapTiming.t) (driverIds : list string)
    (d : ProcessedLapData.t) :
  Spec.no_negative_time lapTimings ->
  In d (calculateDriverLapData lapTimings driverIds) ->
  StronglySorted le (Spec.cumulative_times d).
Proof.
  intros HP Hd. unfold calculateDriverLapData in Hd.
  apply in_map_iff in Hd. destruct Hd as (id & <- & _).
  unfold Spec.cumulative_times. cbn [ProcessedLapData.laps].
  apply (driver_laps_not_decreasing _ id HP). reflexivity.
Qed.

Lemma cumulative_time_not_decreasing_witness :
  Spec.no_negative_time (processLapData Samples.empty_time_raw)
  /\ StronglySorted le [of_Z 90000; of_Z 90000].
Proof.
  assert (HP : Spec.no_negative_time (processLapData Samples.empty_time_raw)).
  { intros lt0 t Hlt Ht. vm_compute in Hlt.
    destruct Hlt as [<- | [<- | []]]; vm_compute in Ht;
      destruct Ht as [<- | []]; reflexivity. }
  split; [exact HP|].
  apply (@cumulative_time_not_decreasing
           (processLapData Samples.empty_time_raw) ["a"%string]
           (ProcessedLapData.mk "a"
              (driver_laps
                 (averageLapTime (processLapData Samples.empty_time_raw)) "a"
                 (processLapData Samples.empty_time_raw) zero)) HP).
  left. reflexivity.
Defined.

End CumulativeFacts.

(* ================================================================== *)
(** * The event manager: overtakes *)
(* ================================================================== *)

Module OvertakeFacts.

Import Inv EventManager.


Lemma overtake_step_events (st : Detect.t) (timing : LapData.t) (e : RaceEvent.t) :
  In e (Detect.events (overtake_step st timing)) ->
  In e (Detect.events st) \/ overtake_of timing e.
Proof.
  unfold overtake_step. simpl.
  destruct (map_get String.eqb (Detect.previousPositions st)
              (LapData.driverId timing)) as [prevPos|]; auto.
  destruct (LapData.position timing <? prevPos); auto.
  intros H. apply in_app_or in H. destruct H as [H | [<- | []]]; auto.
  right. split; reflexivity.
Qed.

Lemma fold_overtake_step_events (timings : list LapData.t) :
  forall st e,
    In e (Detect.events (fold_left overtake_step timings st)) ->
    In e (Detect.events st) \/ exists t, In t timings /\ overtake_of t e.
Proof.
  induction timings as [|t r IH]; intros st e H; simpl in H; auto.
  apply IH in H. destruct H as [H | (t' & Ht' & H)].
  - apply overtake_step_events in H. destruct H as [H | H]; auto.
    right. exists t. simpl. auto.
  - right. exists t'. simpl. auto.
Qed.

Lemma fold_laps_events (laps : list LapTiming.t) :
  forall st e,
    In e (Detect.events
            (fold_left (fun st lapTiming =>
                          fold_left overtake_step (LapTiming.timings lapTiming) st)
                       laps st)) ->
    In e (Detect.events st)
    \/ exists lapTiming t,
         In lapTiming laps /\ In t (LapTiming.timings lapTiming)
         /\ overtake_of t e.
Proof.
  induction laps as [|lt0 r IH]; intros st e H; simpl in H; auto.
  apply IH in H. destruct H as [H | (lt' & t & Hlt & Ht & H)].
  - apply fold_overtake_step_events in H. destruct H as [H | (t & Ht & H)]; auto.
    right. exists lt0, t. simpl. auto.
  - right. exists lt', t. simpl. auto.
Qed.

Lemma store_initial_events (timings : list LapData.t) :
  forall st,
    Detect.events (fold_left store_initial timings st) = Detect.events st.
Proof.
  induction timings as [|t r IH]; intros st; simpl; trivial.
  rewrite IH. reflexivity.
Qed.

(** Every overtake comes from a timing of a lap after the first element
    of the array. *)
Lemma overtakes_after_first (first : LapTiming.t) (rest : list LapTiming.t)
    (e : RaceEvent.t) :
  In e (detectOvertakes (first :: rest)) ->
  exists lapTiming t,
    In lapTiming rest /\ In t (LapTiming.timings lapTiming) /\ overtake_of t e.
Proof.
  unfold detectOvertakes, sort_events. rewrite array_sort_In. simpl.
  intros H. apply fold_laps_events in H. destruct H as [H | H]; trivial.
  rewrite store_initial_events in H. contradiction.
Qed.

(** C8, as the specification states it, fails: [detectOvertakes] skips
    the first element of the array, whatever its lap number, and copies
    the lap number of the timing; when the laps come in the order 2, 1 the
    overtake it detects carries lap 1. *)
Lemma no_overtake_on_first_lap_counterexample :
  map (fun e => (RaceEvent.type e, RaceEvent.lap e, RaceEvent.driverId e))
      (detectOvertakes (LapProcessor.processLapData Samples.reversed_laps_raw))
  = [(overtake, of_Z 1, "b"%string)]
  /\ ~ lt (of_Z 1) (of_Z 1).
Proof. split; [reflexivity | discriminate]. Qed.

(** C8, amended: every event of [detectOvertakes] is an overtake that
    carries the lap number of a timing of an element of the array after
    the first; so when the laps are numbered from 1 in the order of the
    array, every overtake is on a lap after lap 1. *)
Theorem no_overtake_on_first_lap
    (lapTimings : list LapTiming.t) (e : RaceEvent.t) :
  In e (detectOvertakes lapTimings) ->
  RaceEvent.type e = overtake
  /\ (exists i lapTiming timing,
        nth_error lapTimings (S i) = Some lapTiming
        /\ In timing (LapTiming.timings lapTiming)
        /\ RaceEvent.lap e = LapData.lap timing)
  /\ (Spec.numbered_from_one lapTimings -> lt (of_Z 1) (RaceEvent.lap e)).
Proof.
  intros He. destruct lapTimings as [|first rest]; [contradiction|].
  apply overtakes_after_first in He.
  destruct He as (lt0 & t & Hlt & Ht & Hty & Hlap).
  apply In_nth_error in Hlt. destruct Hlt as [i Hi].
  split; [exact Hty|]. split.
  - exists i, lt0, t. repeat split; trivial.
  - intros HN. rewrite Hlap, (HN (S i) lt0 t Hi Ht).
    apply ltb_fin. rewrite <- Zlt_Qlt. lia.
Qed.

Lemma no_overtake_on_first_lap_witness :
  In (RaceEvent.mk overtake (of_Z 2) (of_Z 120500) "b"
        (EventData.mk (Some (of_Z 1)) (Some (of_Z 2))
           (Some "a"%string) None None None))
     (detectOvertakes Samples.lead_change)
  /\ Spec.numbered_from_one Samples.lead_change
  /\ lt (of_Z 1) (of_Z 2).
Proof.
  assert (HN : Spec.numbered_from_one Samples.lead_change).
  { intros i lt0 t Hi Ht.
    destruct i as [|[|i]]; vm_compute in Hi.
    - injection Hi as <-. vm_compute in Ht.
      destruct Ht as [<- | [<- | []]]; reflexivity.
    - injection Hi as <-. vm_compute in Ht.
      destruct Ht as [<- | [<- | []]]; reflexivity.
    - destruct i; discriminate. }
  assert (He : In (RaceEvent.mk overtake (of_Z 2) (of_Z 120500) "b"
                     (EventData.mk (Some (of_Z 1)) (Some (of_Z 2))
                        (Some "a"%string) None None None))
                  (detectOvertakes Samples.lead_change))
    by (left; reflexivity).
  split; [exact He|]. split; [exact HN|].
  destruct (@no_overtake_on_first_lap Samples.lead_change _ He)
    as (_ & _ & H).
  exact (H HN).
Defined.

End OvertakeFacts.

(* ================================================================== *)
(** * The event manager: the order of the event log *)
(* ================================================================== *)

Module EventLogFacts.

Import Inv EventManager.
Local Open Scope Q_scope.


(** ** Finite numbers stay finite *)

Lemma add_finite (a b : num) :
  is_finite a = true -> is_finite b = true -> is_finite (a + b) = true.
Proof. destruct a, b; simpl; congruence. Qed.

Lemma sub_finite (a b : num) :
  is_finite a = true -> is_finite b = true -> is_finite (a - b) = true.
Proof. destruct a, b; simpl; congruence. Qed.

Lemma mul_finite (a b : num) :
  is_finite a = true -> is_finite b = true -> is_finite (a * b) = true.
Proof. destruct a, b; simpl; congruence. Qed.

Lemma map_get_finite (m : list (string * num)) (k : string) :
  finite_map m -> is_finite (or_else_opt (map_get String.eqb m k)) = true.
Proof.
  induction 1 as [|[k' v] r Hv _ IH]; simpl; trivial.
  destruct (String.eqb k' k); trivial.
  simpl. unfold or_else. destruct (truthy v); trivial.
Qed.

Lemma map_set_finite (m : list (string * num)) (k : string) (v : num) :
  finite_map m -> is_finite v = true -> finite_map (map_set String.eqb m k v).
Proof.
  intros Hm Hv. induction Hm as [|[k' v'] r Hv' Hr IH]; simpl.
  - repeat constructor. exact Hv.
  - destruct (String.eqb k' k); constructor; trivial.
Qed.

Lemma Forall_snoc (A : Type) (P : A -> Prop) (l : list A) (x : A) :
  Forall P l -> P x -> Forall P (l ++ [x]).
Proof. intros Hl Hx. apply Forall_app. split; [exact Hl | repeat constructor; exact Hx]. Qed.

Lemma last_opt_In (A : Type) (l : list A) (x : A) :
  last_opt l = Some x -> In x l.
Proof.
  induction l as [|y r IH]; simpl; [discriminate|].
  destruct r as [|z r'].
  - intros [= ->]. auto.
  - intros H. right. apply IH, H.
Qed.

(** ** The categories and times of the events of each kind *)

Lemma lap_complete_step_ok (acc : list RaceEvent.t * list (string * num))
    (timing : LapData.t) :
  is_finite (LapData.timeInMs timing) = true ->
  Forall (finite_of lap_complete) (fst acc) /\ finite_map (snd acc) ->
  Forall (finite_of lap_complete) (fst (lap_complete_step acc timing))
  /\ finite_map (snd (lap_complete_step acc timing)).
Proof.
  destruct acc as [events times]. simpl. intros Ht [He Hm].
  assert (Hc : is_finite
                 (or_else_opt (map_get String.eqb times (LapData.driverId timing))
                  + LapData.timeInMs timing) = true).
  { apply add_finite; trivial. apply map_get_finite, Hm. }
  split.
  - apply Forall_snoc; trivial. split; [reflexivity | exact Hc].
  - apply map_set_finite; trivial.
Qed.

Lemma lap_complete_unsorted_ok (lapTimings : list LapTiming.t) :
  Spec.finite_timings lapTimings ->
  Forall (finite_of lap_complete) (lap_complete_unsorted lapTimings).
Proof.
  unfold lap_complete_unsorted.
  set (inv := fun acc : list RaceEvent.t * list (string * num) =>
                Forall (finite_of lap_complete) (fst acc) /\ finite_map (snd acc)).
  assert (H0 : inv ([], [])) by (split; constructor).
  revert H0. generalize (@nil RaceEvent.t, @nil (string * num)).
  induction lapTimings as [|lt0 r IH]; intros acc Hacc HF; simpl.
  - apply Hacc.
  - apply IH.
    + assert (Ht : Forall (fun t => is_finite (LapData.timeInMs t) = true)
                     (LapTiming.timings lt0)).
      { apply Forall_forall. intros t Ht. apply (HF lt0 t); simpl; auto. }
      clear - Hacc Ht. revert acc Hacc.
      induction Ht as [|t ts Ht _ IHt]; intros acc Hacc; simpl; trivial.
      apply IHt. apply lap_complete_step_ok; trivial.
    + intros lt' t Hlt Ht. apply (HF lt' t); simpl; auto.
Qed.

Lemma find_driver_In (driverId : string)
    (processedLapData : list ProcessedLapData.t) (d : ProcessedLapData.t) :
  find_driver driverId processedLapData = Some d -> In d processedLapData.
Proof. intros H. apply find_some in H. tauto. Qed.

Lemma find_lap_In (lap : num) (laps : list ProcessedLap.t) (l : ProcessedLap.t) :
  find_lap lap laps = Some l -> In l laps.
Proof. intros H. apply find_some in H. tauto. Qed.

Lemma pit_stop_unsorted_ok (pitStops : list PitStop.t)
    (processedLapData : list ProcessedLapData.t) :
  Spec.finite_series processedLapData ->
  Forall (finite_of pitstop) (pit_stop_unsorted pitStops processedLapData).
Proof.
  intros HS. unfold pit_stop_unsorted.
  assert (H0 : Forall (finite_of pitstop) []) by constructor.
  revert H0. generalize (@nil RaceEvent.t).
  induction pitStops as [|p r IH]; intros events He; simpl; trivial.
  apply IH. unfold pit_stop_step.
  destruct (find_driver (PitStop.driverId p) processedLapData) as [d|] eqn:Ed;
    trivial.
  destruct (find_lap (PitStop.lap p) (ProcessedLapData.laps d)) as [l|] eqn:El;
    trivial.
  destruct (HS d l (find_driver_In _ _ Ed) (find_lap_In _ _ El)) as [Ht Hc].
  apply Forall_snoc; trivial. split; [reflexivity|].
  apply sub_finite; trivial. apply mul_finite; trivial.
Qed.


Lemma store_initial_ok (st : Detect.t) (timing : LapData.t) :
  is_finite (LapData.timeInMs timing) = true ->
  detect_ok st -> detect_ok (store_initial st timing).
Proof.
  intros Ht [He Hm]. split; simpl; trivial. apply map_set_finite; trivial.
Qed.

Lemma overtake_step_ok (st : Detect.t) (timing : LapData.t) :
  is_finite (LapData.timeInMs timing) = true ->
  detect_ok st -> detect_ok (overtake_step st timing).
Proof.
  intros Ht [He Hm].
  assert (Hc : is_finite
                 (or_else_opt (map_get String.eqb (Detect.cumulativeTimes st)
                                 (LapData.driverId timing))
                  + LapData.timeInMs timing) = true).
  { apply add_finite; trivial. apply map_get_finite, Hm. }
  split; unfold overtake_step; simpl.
  - destruct (map_get String.eqb (Detect.previousPositions st)
                (LapData.driverId timing)) as [prevPos|]; trivial.
    destruct (LapData.position timing <? prevPos); trivial.
    apply Forall_snoc; trivial. split; [reflexivity|].
    apply sub_finite; trivial. apply mul_finite; trivial.
  - apply map_set_finite; trivial.
Qed.

Lemma fold_detect_ok (step : Detect.t -> LapData.t -> Detect.t)
    (timings : list LapData.t) :
  (forall st t, is_finite (LapData.timeInMs t) = true ->
                detect_ok st -> detect_ok (step st t)) ->
  Forall (fun t => is_finite (LapData.timeInMs t) = true) timings ->
  forall st, detect_ok st -> detect_ok (fold_left step timings st).
Proof.
  intros Hstep Ht. induction Ht as [|t ts Ht _ IH]; intros st Hst; simpl; auto.
Qed.

Lemma finite_timings_head (lt0 : LapTiming.t) (r : list LapTiming.t) :
  Spec.finite_timings (lt0 :: r) ->
  Forall (fun t => is_finite (LapData.timeInMs t) = true) (LapTiming.timings lt0)
  /\ Spec.finite_timings r.
Proof.
  intros HF. split.
  - apply Forall_forall. intros t Ht. apply (HF lt0 t); simpl; auto.
  - intros lt' t Hlt Ht. apply (HF lt' t); simpl; auto.
Qed.

Lemma overtakes_unsorted_ok (lapTimings : list LapTiming.t) :
  Spec.finite_timings lapTimings ->
  Forall (finite_of overtake) (overtakes_unsorted lapTimings).
Proof.
  destruct lapTimings as [|first rest]; intros HF; simpl; [constructor|].
  apply finite_timings_head in HF. destruct HF as [Hfirst Hrest].
  assert (H0 : detect_ok
                 (fold_left store_initial (LapTiming.timings first)
                    (Detect.mk [] [] []))).
  { apply fold_detect_ok; trivial; [apply store_initial_ok|].
    split; constructor. }
  revert H0. generalize (fold_left store_initial (LapTiming.timings first)
                           (Detect.mk [] [] [])).
  induction rest as [|lt0 r IH]; intros st Hst; simpl.
  - apply Hst.
  - apply finite_timings_head in Hrest. destruct Hrest as [Hlt Hr].
    apply IH; trivial.
    apply fold_detect_ok; trivial. apply overtake_step_ok.
Qed.

Lemma dnf_unsorted_ok (dnfs : list (string * DnfInfo.t))
    (processedLapData : list ProcessedLapData.t) :
  Spec.finite_series processedLapData ->
  Forall (finite_of dnf) (dnf_unsorted dnfs processedLapData).
Proof.
  intros HS. unfold dnf_unsorted.
  assert (H0 : Forall (finite_of dnf) []) by constructor.
  revert H0. generalize (@nil RaceEvent.t).
  induction dnfs as [|[id info] r IH]; intros events He; simpl; trivial.
  apply IH.
  destruct (find_driver id processedLapData) as [d|] eqn:Ed; trivial.
  destruct (last_opt (ProcessedLapData.laps d)) as [l|] eqn:El; trivial.
  destruct (HS d l (find_driver_In _ _ Ed) (last_opt_In _ El)) as [Ht Hc].
  apply Forall_snoc; trivial. split; [reflexivity | exact Hc].
Qed.

Lemma fastest_lap_ok (fastestLap : option FastestLap.t)
    (processedLapData : list ProcessedLapData.t) :
  Spec.finite_series processedLapData ->
  Forall (finite_of fastest_lap)
    match createFastestLapEvent fastestLap processedLapData with
    | Some fastestLapEvent => [fastestLapEvent]
    | None => []
    end.
Proof.
  intros HS. unfold createFastestLapEvent.
  destruct fastestLap as [fl|]; [|constructor].
  destruct (find_driver (FastestLap.driverId fl) processedLapData) as [d|] eqn:Ed;
    [|constructor].
  destruct (find_lap (FastestLap.lap fl) (ProcessedLapData.laps d)) as [l|] eqn:El;
    [|constructor].
  destruct (HS d l (find_driver_In _ _ Ed) (find_lap_In _ _ El)) as [Ht Hc].
  repeat constructor. exact Hc.
Qed.

(** The series [calculateDriverLapData] builds from finite lap times has
    finite times. *)
Lemma driver_laps_finite (average : num) (driverId : string)
    (lapTimings : list LapTiming.t) :
  Spec.finite_timings lapTimings ->
  forall cumulativeTime l,
    is_finite cumulativeTime = true ->
    In l (LapProcessor.driver_laps average driverId lapTimings cumulativeTime) ->
    is_finite (ProcessedLap.timeInMs l) = true
    /\ is_finite (ProcessedLap.cumulativeTimeInMs l) = true.
Proof.
  induction lapTimings as [|lt0 r IH]; intros HF c l Hc Hl; simpl in Hl.
  - contradiction.
  - apply finite_timings_head in HF. destruct HF as [Hlt Hr].
    destruct (LapProcessor.find_timing driverId (LapTiming.timings lt0))
      as [t|] eqn:E.
    + assert (Ht : is_finite (LapData.timeInMs t) = true).
      { rewrite Forall_forall in Hlt. apply Hlt.
        apply find_some in E. tauto. }
      destruct Hl as [<- | Hl].
      * split; [exact Ht | apply add_finite; assumption].
      * apply (IH Hr _ l (add_finite _ _ Hc Ht) Hl).
    + apply (IH Hr _ l Hc Hl).
Qed.

Lemma calculateDriverLapData_finite (lapTimings : list LapTiming.t)
    (driverIds : list string) :
  Spec.finite_timings lapTimings ->
  Spec.finite_series (LapProcessor.calculateDriverLapData lapTimings driverIds).
Proof.
  intros HF d l Hd Hl. unfold LapProcessor.calculateDriverLapData in Hd.
  apply in_map_iff in Hd. destruct Hd as (id & <- & _).
  cbn [ProcessedLapData.laps] in Hl.
  apply (driver_laps_finite _ _ HF zero l eq_refl Hl).
Qed.

End EventLogFacts.

Module EventOrderFacts.

Import Inv EventManager EventLogFacts.
Local Open Scope Q_scope.

(** On finite times the comparator puts [a] after [b] exactly when the
    time of [a] is later. *)
Lemma comes_after_later (a b : RaceEvent.t) (ta tb : Q) :
  RaceEvent.timeInMs a = Fin ta -> RaceEvent.timeInMs b = Fin tb ->
  (comes_after by_time a b = true <-> tb < ta).
Proof.
  intros Ea Eb. unfold comes_after, by_time, gtb. rewrite Ea, Eb.
  change (Fin ta - Fin tb)%num with (Fin (Qred (ta - tb))).
  unfold zero, of_Z. rewrite ltb_fin, Qred_correct. change (inject_Z 0) with 0.
  split; intros H; lra.
Qed.

Lemma finite_event_time (e : RaceEvent.t) :
  finite_event e -> exists t, RaceEvent.timeInMs e = Fin t.
Proof.
  unfold finite_event. destruct (RaceEvent.timeInMs e); try discriminate.
  eauto.
Qed.

Lemma sort_insert_ordered (x : RaceEvent.t) (l : list RaceEvent.t) :
  finite_event x -> Forall finite_event l ->
  Forall (rank_le x) l ->
  StronglySorted Spec.event_order l ->
  StronglySorted Spec.event_order (sort_insert by_time x l).
Proof.
  intros Hx Hl Hr Hs. destruct (finite_event_time Hx) as [tx Ex].
  induction Hs as [|y r Hs IH Hy]; simpl.
  - repeat constructor.
  - inversion Hl as [|? ? Hfy Hfr]; subst.
    inversion Hr as [|? ? Hry Hrr]; subst.
    destruct (finite_event_time Hfy) as [ty Ey].
    destruct (comes_after by_time x y) eqn:E.
    + apply (comes_after_later x y Ex Ey) in E.
      constructor; [apply IH; assumption|].
      apply Forall_forall. intros z Hz.
      apply (Permutation_in _ (Permutation_sym (sort_insert_perm by_time x r)))
        in Hz.
      destruct Hz as [<- | Hz].
      * unfold Spec.event_order, le. rewrite Ex, Ey. split.
        -- apply leb_fin. lra.
        -- simpl. intros Heq. lra.
      * rewrite Forall_forall in Hy. apply Hy, Hz.
    + assert (Hle : tx <= ty).
      { destruct (Qlt_le_dec ty tx) as [Hlt | Hle]; trivial.
        apply (comes_after_later x y Ex Ey) in Hlt. congruence. }
      constructor; [constructor; assumption|].
      assert (Hxy : Spec.event_order x y).
      { unfold Spec.event_order, le. rewrite Ex, Ey. split.
        - apply leb_fin, Hle.
        - intros _. exact Hry. }
      constructor; trivial.
      apply Forall_forall. intros z Hz.
      rewrite Forall_forall in Hy, Hrr.
      destruct (Hy z Hz) as [Hyz _]. split.
      * eapply leb_trans; [apply Hxy | exact Hyz].
      * intros _. apply Hrr, Hz.
Qed.

(** The stable sort orders by time and keeps, among equal times, an order
    of categories the input already has. *)
Lemma sort_events_ordered (l : list RaceEvent.t) :
  Forall finite_event l ->
  StronglySorted rank_le l ->
  StronglySorted Spec.event_order (sort_events l).
Proof.
  intros Hl Hs. unfold sort_events.
  induction Hs as [|x r Hs IH Hx]; simpl.
  - constructor.
  - inversion Hl; subst.
    apply sort_insert_ordered; trivial.
    + apply array_sort_Forall; trivial.
    + apply array_sort_Forall; trivial.
    + apply IH; trivial.
Qed.

Lemma block_ranked (ty : RaceEventType) (l : list RaceEvent.t) :
  Forall (finite_of ty) l -> StronglySorted rank_le l.
Proof.
  induction 1 as [|x r [Hx _] Hr IH]; constructor; trivial.
  eapply Forall_impl; [|exact Hr].
  intros y [Hy _]. unfold rank_le. rewrite Hx, Hy. apply le_n.
Qed.

Lemma blocks_ranked (ty : RaceEventType) (l1 l2 : list RaceEvent.t) :
  Forall (finite_of ty) l1 ->
  StronglySorted rank_le l2 ->
  Forall (fun e => (Spec.rank ty <= Spec.rank (RaceEvent.type e))%nat) l2 ->
  StronglySorted rank_le (l1 ++ l2).
Proof.
  intros H1 H2 H12.
  induction H1 as [|x r [Hx _] Hr IH]; simpl; trivial.
  constructor; trivial.
  apply Forall_app. split.
  - eapply Forall_impl; [|exact Hr].
    intros y [Hy _]. unfold rank_le. rewrite Hx, Hy. apply le_n.
  - eapply Forall_impl; [|exact H12].
    intros y Hy. unfold rank_le. rewrite Hx. exact Hy.
Qed.

Lemma finite_of_rank (ty ty' : RaceEventType) (l : list RaceEvent.t) :
  (Spec.rank ty' <= Spec.rank ty)%nat ->
  Forall (finite_of ty) l ->
  Forall (fun e => (Spec.rank ty' <= Spec.rank (RaceEvent.type e))%nat) l.
Proof.
  intros Hle. apply Forall_impl. intros e [-> _]. exact Hle.
Qed.

Lemma finite_of_finite (ty : RaceEventType) (l : list RaceEvent.t) :
  Forall (finite_of ty) l -> Forall finite_event l.
Proof. apply Forall_impl. intros e [_ H]. exact H. Qed.

(** C5, as the specification states it, fails: the event of a lap whose
    time cannot be read has time [NaN], which no order relates to the
    time of another event. *)
Lemma event_log_counterexample :
  map RaceEvent.timeInMs
    (buildEventTimeline Samples.unparsed [] Samples.unparsed_series [] None)
  = [NaN; of_Z 2500]
  /\ ~ le NaN (of_Z 2500)
  /\ ~ StronglySorted Spec.event_order
        (buildEventTimeline Samples.unparsed [] Samples.unparsed_series
           [] None).
Proof.
  split; [reflexivity|]. split; [discriminate|].
  intros H. vm_compute in H. inversion H as [|e l _ Hall]; subst.
  inversion Hall as [|e' l' [Hle _] _]; subst. discriminate Hle.
Qed.

(** C5, amended: when the lap times of the input and the times of the
    series are finite numbers, the log [buildEventTimeline] returns is in
    non-decreasing order of time, and any two of its events with equal
    times stand in the order lap_complete, pitstop, overtake, dnf,
    fastest_lap of their categories. *)
Theorem event_log_ordered
    (lapTimings : list LapTiming.t) (pitStops : list PitStop.t)
    (processedLapData : list ProcessedLapData.t)
    (dnfs : list (string * DnfInfo.t)) (fastestLap : option FastestLap.t) :
  Spec.finite_timings lapTimings ->
  Spec.finite_series processedLapData ->
  StronglySorted Spec.event_order
    (buildEventTimeline lapTimings pitStops processedLapData dnfs fastestLap).
Proof.
  intros HF HS.
  assert (H1 : Forall (finite_of lap_complete) (createLapCompleteEvents lapTimings))
    by (apply array_sort_Forall, lap_complete_unsorted_ok, HF).
  assert (H2 : Forall (finite_of pitstop)
                 (createPitStopEvents pitStops processedLapData))
    by (apply array_sort_Forall, pit_stop_unsorted_ok, HS).
  assert (H3 : Forall (finite_of overtake) (detectOvertakes lapTimings))
    by (apply array_sort_Forall, overtakes_unsorted_ok, HF).
  assert (H4 : Forall (finite_of dnf) (createDNFEvents dnfs processedLapData))
    by (apply array_sort_Forall, dnf_unsorted_ok, HS).
  pose proof (fastest_lap_ok fastestLap HS) as H5.
  unfold buildEventTimeline, all_events.
  apply sort_events_ordered.
  - repeat (apply Forall_app; split); eapply finite_of_finite; eassumption.
  - apply blocks_ranked with lap_complete; trivial.
    + apply blocks_ranked with pitstop; trivial.
      * apply blocks_ranked with overtake; trivial.
        -- apply blocks_ranked with dnf; trivial.
           ++ eapply block_ranked; eassumption.
           ++ eapply finite_of_rank; [|eassumption]. simpl. lia.
        -- apply Forall_app. split;
             (eapply finite_of_rank; [|eassumption]); simpl; lia.
      * repeat (apply Forall_app; split);
          (eapply finite_of_rank; [|eassumption]); simpl; lia.
    + repeat (apply Forall_app; split);
        (eapply finite_of_rank; [|eassumption]); simpl; lia.
Qed.

Lemma event_log_ordered_witness :
  Spec.finite_timings Samples.lead_change
  /\ Spec.finite_series Samples.lead_change_series
  /\ StronglySorted Spec.event_order
       (buildEventTimeline Samples.lead_change [] Samples.lead_change_series
          [] Samples.lead_change_fastest).
Proof.
  assert (HF : Spec.finite_timings Samples.lead_change).
  { intros lt0 t Hlt Ht. vm_compute in Hlt.
    destruct Hlt as [<- | [<- | []]]; vm_compute in Ht;
      destruct Ht as [<- | [<- | []]]; reflexivity. }
  assert (HS : Spec.finite_series Samples.lead_change_series).
  { intros d l Hd Hl. vm_compute in Hd.
    destruct Hd as [<- | [<- | []]]; simpl in Hl;
      destruct Hl as [<- | [<- | []]]; split; reflexivity. }
  split; [exact HF | split; [exact HS|]].
  apply (event_log_ordered [] [] Samples.lead_change_fastest HF HS).
Defined.

End EventOrderFacts.

(* ================================================================== *)
(** * The lap processor: [lapTimeToMs] *)
(* ================================================================== *)

Module ParseFacts.

Import LapProcessor.
Local Open Scope Q_scope.

(** Splits the conjunctions of boolean tests among the hypotheses. *)
Ltac split_tests :=
  cbn [forallb] in *;
  repeat match goal with
         | H : (_ && _)%bool = true |- _ => apply andb_prop in H; destruct H
         | H : true = true |- _ => clear H
         end.

(** Rewrites the goal with the [is_digit] tests that hold. *)
Ltac use_digits :=
  repeat match goal with
         | D : is_digit ?c = true |- context [is_digit ?c] => rewrite D
         end.

(** What the parsers see in a first character that is a digit. *)
Lemma digit_head (c : ascii) (r : list ascii) :
  is_digit c = true ->
  trim_start (c :: r) = c :: r
  /\ take_sign (c :: r) = (false, c :: r)
  /\ starts_with (list_ascii_of_string "Infinity") (c :: r) = false
  /\ Ascii.eqb c ":" = false
  /\ (0 <= digit_value c)%Z.
Proof.
  destruct c as [[] [] [] [] [] [] [] []]; intros H;
    try discriminate H; repeat split; discriminate.
Qed.

Lemma span_digits_all (ds : list ascii) :
  forallb is_digit ds = true -> span_digits ds = (ds, []).
Proof.
  induction ds as [|c r IH]; simpl; trivial.
  intros H. apply andb_prop in H. destruct H as [Hc Hr].
  rewrite Hc, (IH Hr). reflexivity.
Qed.

(** [span_digits] cuts its argument in two, and the first part is made of
    digits. *)
Lemma span_digits_split (l : list ascii) :
  forall ds rest,
    span_digits l = (ds, rest) ->
    l = ds ++ rest /\ forallb is_digit ds = true.
Proof.
  induction l as [|c r IH]; simpl; intros ds rest H.
  - injection H as <- <-. split; reflexivity.
  - destruct (is_digit c) eqn:E.
    + destruct (span_digits r) as [d rest'].
      injection H as <- <-.
      destruct (IH d rest' eq_refl) as [-> Hd].
      split; [reflexivity|]. simpl. rewrite E. exact Hd.
    + injection H as <- <-. split; reflexivity.
Qed.

Lemma digits_value_acc (ds : list ascii) :
  forallb is_digit ds = true ->
  forall acc : Z,
    (0 <= acc)%Z ->
    (0 <= fold_left (fun a c => 10 * a + digit_value c) ds acc)%Z.
Proof.
  induction ds as [|c r IH]; intros H acc Hacc; cbn [fold_left forallb] in *;
    trivial.
  apply andb_prop in H. destruct H as [Hc Hr].
  apply IH; trivial.
  destruct (digit_head c [] Hc) as (_ & _ & _ & _ & Hv). lia.
Qed.

Lemma digits_value_nonneg (ds : list ascii) :
  forallb is_digit ds = true -> (0 <= digits_value ds)%Z.
Proof. intros H. apply digits_value_acc; trivial. lia. Qed.

(** [parseInt] on a run of digits. *)
Lemma parseInt_digits (c : ascii) (r : list ascii) :
  forallb is_digit (c :: r) = true ->
  parseInt (c :: r) = of_Z (digits_value (c :: r)).
Proof.
  intros H. unfold parseInt.
  pose proof H as H'. simpl in H'. apply andb_prop in H'. destruct H' as [Hc _].
  destruct (digit_head c r Hc) as (-> & -> & _).
  rewrite (span_digits_all _ H). reflexivity.
Qed.

(** The strings of shape [SS.mmm]. *)
Lemma seconds_shape_inv (l : list ascii) :
  Spec.is_seconds_shape l = true ->
  exists s1 s2 m1 m2 m3,
    l = [s1; s2; "."%char; m1; m2; m3]
    /\ forallb is_digit [s1; s2; m1; m2; m3] = true.
Proof.
  destruct l as [|s1 [|s2 [|dot [|m1 [|m2 [|m3 [|x r]]]]]]];
    try discriminate.
  unfold Spec.is_seconds_shape. intros H. split_tests.
  match goal with E : Ascii.eqb dot _ = true |- _ =>
    apply Ascii.eqb_eq in E; subst dot end.
  exists s1, s2, m1, m2, m3. split; [reflexivity|].
  cbn [forallb]. use_digits. reflexivity.
Qed.

Lemma parseFloat_seconds (s1 s2 m1 m2 m3 : ascii) :
  forallb is_digit [s1; s2; m1; m2; m3] = true ->
  parseFloat [s1; s2; "."%char; m1; m2; m3]
  = Fin (Qred (inject_Z (digits_value [s1; s2; m1; m2; m3]) * (1 # 1000))).
Proof.
  intros H. split_tests.
  unfold parseFloat.
  destruct (digit_head s1 [s2; "."%char; m1; m2; m3]) as (-> & -> & -> & _);
    trivial.
  repeat (cbn [span_digits]; use_digits;
          try change (is_digit ".") with false).
  reflexivity.
Qed.

Lemma split_on_digits (m r : list ascii) :
  forallb is_digit m = true ->
  split_on ":" (m ++ ":"%char :: r) = m :: split_on ":" r.
Proof.
  induction m as [|c m' IH]; simpl; intros H; trivial.
  apply andb_prop in H. destruct H as [Hc Hm].
  destruct (digit_head c [] Hc) as (_ & _ & _ & -> & _).
  rewrite (IH Hm). reflexivity.
Qed.

Lemma split_on_seconds (s1 s2 m1 m2 m3 : ascii) :
  forallb is_digit [s1; s2; m1; m2; m3] = true ->
  split_on ":" [s1; s2; "."%char; m1; m2; m3]
  = [[s1; s2; "."%char; m1; m2; m3]].
Proof.
  intros H. split_tests.
  cbn [split_on].
  repeat match goal with
         | E : is_digit ?c = true |- _ =>
             let E' := fresh in
             destruct (digit_head c [] E) as (_ & _ & _ & E' & _);
             rewrite E'; clear E E'
         end.
  reflexivity.
Qed.

(** The value of [(minutes * 60 + seconds) * 1000] and of
    [seconds * 1000] on an accepted shape. *)
Lemma minutes_value (m s : Z) :
  (0 <= m)%Z -> (0 <= s)%Z ->
  exists q,
    ((of_Z m * of_Z 60 + Fin (Qred (inject_Z s * (1 # 1000)))) * of_Z 1000)%num
    = Fin q
    /\ q == inject_Z (60000 * m + s) /\ 0 <= q.
Proof.
  intros Hm Hs. eexists. split; [reflexivity|].
  assert (E : Qred (Qred (Qred (inject_Z m * inject_Z 60)
                          + Qred (inject_Z s * (1 # 1000))) * inject_Z 1000)
              == inject_Z (60000 * m + s)).
  { rewrite Qred_correct.
    setoid_rewrite Qred_correct. rewrite !Qred_correct.
    rewrite inject_Z_plus, inject_Z_mult.
    change (inject_Z 60000) with 60000. change (inject_Z 60) with 60.
    change (inject_Z 1000) with 1000. field. }
  split; [exact E|].
  rewrite E. change 0 with (inject_Z 0). rewrite <- Zle_Qle. lia.
Qed.

Lemma seconds_value (s : Z) :
  (0 <= s)%Z ->
  exists q,
    (Fin (Qred (inject_Z s * (1 # 1000))) * of_Z 1000)%num = Fin q
    /\ q == inject_Z s /\ 0 <= q.
Proof.
  intros Hs. eexists. split; [reflexivity|].
  assert (E : Qred (Qred (inject_Z s * (1 # 1000)) * inject_Z 1000)
              == inject_Z s).
  { rewrite Qred_correct. rewrite Qred_correct.
    change (inject_Z 1000) with 1000. field. }
  split; [exact E|].
  rewrite E. change 0 with (inject_Z 0). rewrite <- Zle_Qle. lia.
Qed.

Lemma lapTimeToMs_nonempty (s : string) :
  s <> EmptyString ->
  lapTimeToMs s =
  match split_on ":" (list_ascii_of_string s) with
  | [p0; p1] => ((parseInt p0 * of_Z 60 + parseFloat p1) * of_Z 1000)%num
  | _ => (parseFloat (list_ascii_of_string s) * of_Z 1000)%num
  end.
Proof. destruct s; [congruence | reflexivity]. Qed.

Lemma shape_nonempty (s : string) :
  Spec.accepted_shape s = true -> s <> EmptyString.
Proof. intros H ->. discriminate H. Qed.

Lemma lapTimeToMs_seconds_shape (s : string) :
  Spec.is_seconds_shape (list_ascii_of_string s) = true ->
  exists q,
    lapTimeToMs s = Fin q /\ q == inject_Z (Spec.shape_ms s) /\ 0 <= q.
Proof.
  intros H.
  assert (Hne : s <> EmptyString).
  { apply shape_nonempty. unfold Spec.accepted_shape. rewrite H. reflexivity. }
  rewrite (lapTimeToMs_nonempty Hne). unfold Spec.shape_ms. rewrite H.
  destruct (seconds_shape_inv _ H) as (s1 & s2 & m1 & m2 & m3 & -> & Hd).
  rewrite (split_on_seconds _ _ _ _ _ Hd), (parseFloat_seconds _ _ _ _ _ Hd).
  apply seconds_value, digits_value_nonneg, Hd.
Qed.

Lemma lapTimeToMs_minutes_shape (s : string) :
  Spec.is_seconds_shape (list_ascii_of_string s) = false ->
  Spec.is_minutes_shape (list_ascii_of_string s) = true ->
  exists q,
    lapTimeToMs s = Fin q /\ q == inject_Z (Spec.shape_ms s) /\ 0 <= q.
Proof.
  intros Hs H.
  assert (Hne : s <> EmptyString).
  { apply shape_nonempty. unfold Spec.accepted_shape. rewrite H.
    apply orb_true_r. }
  rewrite (lapTimeToMs_nonempty Hne). unfold Spec.shape_ms. rewrite Hs.
  unfold Spec.is_minutes_shape in H.
  destruct (span_digits (list_ascii_of_string s)) as [m rest] eqn:E.
  destruct m as [|c m']; [discriminate H|].
  destruct rest as [|sep r]; [discriminate H|].
  apply andb_prop in H. destruct H as [Hsep Hr].
  apply Ascii.eqb_eq in Hsep. subst sep.
  destruct (span_digits_split _ E) as [-> Hm].
  destruct (seconds_shape_inv _ Hr) as (s1 & s2 & m1 & m2 & m3 & -> & Hd).
  rewrite (split_on_digits _ _ Hm), (split_on_seconds _ _ _ _ _ Hd).
  rewrite (parseInt_digits _ _ Hm), (parseFloat_seconds _ _ _ _ _ Hd).
  apply minutes_value; apply digits_value_nonneg; assumption.
Qed.

Lemma lapTimeToMs_shape (s : string) :
  Spec.accepted_shape s = true ->
  exists q,
    lapTimeToMs s = Fin q /\ q == inject_Z (Spec.shape_ms s) /\ 0 <= q.
Proof.
  intros H. unfold Spec.accepted_shape in H.
  destruct (Spec.is_seconds_shape (list_ascii_of_string s)) eqn:Hs.
  - apply lapTimeToMs_seconds_shape, Hs.
  - apply lapTimeToMs_minutes_shape; trivial.
Qed.

(** Provider records whose time strings have an accepted shape give
    finite lap times. *)
Lemma processLapData_finite (jolpicaLaps : list JolpicaLap.t) :
  (forall lap timing,
      In lap jolpicaLaps -> In timing (JolpicaLap.Timings lap) ->
      Spec.accepted_shape (JolpicaTiming.time timing) = true) ->
  Spec.finite_timings (processLapData jolpicaLaps).
Proof.
  intros H lt0 t Hlt Ht. unfold processLapData in Hlt.
  apply in_map_iff in Hlt. destruct Hlt as (lap & <- & Hlap).
  cbn [LapTiming.timings] in Ht.
  apply in_map_iff in Ht. destruct Ht as (timing & <- & Htiming).
  cbn [LapData.timeInMs].
  destruct (lapTimeToMs_shape _ (H lap timing Hlap Htiming)) as (q & -> & _).
  reflexivity.
Qed.

(** C1, as the specification states it, fails: a string of another shape
    does not make the parser fail, and the result can be negative. *)
Lemma lapTimeToMs_counterexample :
  Spec.accepted_shape "bad" = false
  /\ lapTimeToMs_completion "bad" = Normal NaN
  /\ Spec.accepted_shape "-1.5" = false
  /\ lapTimeToMs_completion "-1.5" = Normal (of_Z (-1500))
  /\ lt (of_Z (-1500)) zero
  /\ Spec.accepted_shape "1:2:3" = false
  /\ lapTimeToMs_completion "1:2:3" = Normal (of_Z 1000).
Proof. repeat split. Qed.

(** C1, amended: [lapTimeToMs] always returns and never fails with a
    FormatError; the empty string gives 0; for a string of shape M:SS.mmm
    or SS.mmm it returns a number that is not negative, and never NaN:
    83456 for 1:23.456 and 23456 for 23.456.  (In general the value is
    the milliseconds of the string only up to the rounding of doubles,
    which is why it is not stated.) *)
Theorem lapTimeToMs_accepted_shapes (s : string) :
  (exists v, lapTimeToMs_completion s = Normal v)
  /\ lapTimeToMs_completion "" = Normal zero
  /\ lapTimeToMs_completion "1:23.456" = Normal (of_Z 83456)
  /\ lapTimeToMs_completion "23.456" = Normal (of_Z 23456)
  /\ (Spec.accepted_shape s = true ->
      exists v, lapTimeToMs_completion s = Normal v /\ le zero v).
Proof.
  split; [eexists; reflexivity|].
  repeat (split; [reflexivity|]).
  intros H. unfold lapTimeToMs_completion.
  destruct (lapTimeToMs_shape s H) as (q & -> & _ & Hq).
  exists (Fin q). split; [reflexivity|].
  apply leb_fin. exact Hq.
Qed.

Lemma lapTimeToMs_accepted_shapes_witness :
  Spec.accepted_shape "12:03.250" = true
  /\ exists v,
       lapTimeToMs_completion "12:03.250" = Normal v /\ le zero v.
Proof.
  split; [reflexivity|].
  apply (lapTimeToMs_accepted_shapes "12:03.250"). reflexivity.
Defined.

End ParseFacts.

(* ================================================================== *)
(** * The timeline generator *)
(* ================================================================== *)

Module TimelineFacts.

Import Inv LapProcessor EventManager TimelineGenerator.


(** C2 on the code: [generateFrame] keeps the events within 250 ms of the
    frame, whatever the sampling interval.  A lap completed at 2500 ms is
    attached to no frame when frames are 1000 ms apart (the interval the
    timeline route passes by default) and to three frames when they are
    100 ms apart; at the default interval of 500 ms a lap completed at
    2750 ms, exactly half an interval after the last frame, is attached to
    no frame. *)
Theorem events_dropped_and_duplicated :
  attachments (Samples.one_lap_timeline 1000)
  = Some ([of_Z 0; of_Z 1000; of_Z 2000], [(of_Z 2500, [])])
  /\ option_map snd (attachments (Samples.one_lap_timeline 100))
     = Some [(of_Z 2500, [of_Z 2300; of_Z 2400; of_Z 2500])]
  /\ attachments Samples.odd_lap_timeline
     = Some ([of_Z 0; of_Z 500; of_Z 1000; of_Z 1500; of_Z 2000; of_Z 2500],
             [(of_Z 2750, [])]).
Proof. repeat split; vm_compute; reflexivity. Qed.


(** C3 on the code: [calculateLeaderTimes] adds up the lap times of
    whoever leads each lap.  After [b] has taken the lead from [a] on lap 2
    the leader time of lap 2 is 80000 + 79000 = 159000, not the 160000 ms
    [b] has driven, and the gap of [a] is 2000 ms where the cumulative
    times of [a] and of the leader differ by 1000 ms. *)
Theorem gap_to_leader_after_lead_change :
  map (fun d => (DriverState.driverId d, DriverState.position d,
                 DriverState.lap d, DriverState.gapToLeader d))
      (AnimationFrame.drivers Samples.lead_change_frame)
  = [("b"%string, of_Z 1, of_Z 2, zero); ("a"%string, of_Z 2, of_Z 2, of_Z 2000)]
  /\ calculateLeaderTimes Samples.lead_change
     = [(of_Z 1, of_Z 80000); (of_Z 2, of_Z 159000)]
  /\ leader_cumulative Samples.lead_change_series (of_Z 2) = Some (of_Z 160000)
  /\ max zero (of_Z 161000 - of_Z 160000) = of_Z 1000.
Proof. repeat split; vm_compute; reflexivity. Qed.

End TimelineFacts.

(* ================================================================== *)
(** * The lap processor: series and interpolation *)
(* ================================================================== *)

Module LapProcessorFacts.

Import Props LapProcessor.
Local Open Scope Q_scope.

Lemma driver_laps_running_sum (average : num) (driverId : string)
    (lapTimings : list LapTiming.t) :
  forall cumulativeTime,
    running_sum cumulativeTime
      (driver_laps average driverId lapTimings cumulativeTime).
Proof.
  induction lapTimings as [|lt0 r IH]; intros c; simpl; trivial.
  destruct (find_timing driverId (LapTiming.timings lt0)) as [t|]; [|apply IH].
  simpl. split; [reflexivity | apply IH].
Qed.

(** X1: in every series [calculateDriverLapData] builds, the cumulative
    time of the first lap is 0 plus its lap time and the cumulative time of
    every later lap is that of the lap before plus its own lap time. *)
Theorem cumulative_time_is_running_sum
    (lapTimings : list LapTiming.t) (driverIds : list string) :
  Forall (fun d => running_sum zero (ProcessedLapData.laps d))
         (calculateDriverLapData lapTimings driverIds).
Proof.
  unfold calculateDriverLapData. apply Forall_forall. intros d Hd.
  apply in_map_iff in Hd. destruct Hd as (id & <- & _).
  apply driver_laps_running_sum.
Qed.

Lemma find_timing_none (driverId : string) (timings : list LapData.t) :
  find_timing driverId timings = None <->
  (forall t, In t timings -> String.eqb (LapData.driverId t) driverId = false).
Proof.
  unfold find_timing. split.
  - intros H t Ht. apply (find_none _ _ H t Ht).
  - intros H. induction timings as [|t r IH]; simpl; trivial.
    rewrite (H t) by (simpl; auto). apply IH.
    intros t' Ht'. apply H. simpl. auto.
Qed.

Lemma driver_laps_empty (average : num) (driverId : string)
    (lapTimings : list LapTiming.t) :
  forall cumulativeTime,
    driver_laps average driverId lapTimings cumulativeTime = [] <->
    absent driverId lapTimings.
Proof.
  induction lapTimings as [|lt0 r IH]; intros c; simpl.
  - split; trivial. intros _ lt t [].
  - destruct (find_timing driverId (LapTiming.timings lt0)) as [t|] eqn:E.
    + split; [discriminate|]. intros H.
      apply find_some in E. destruct E as [Hin Heq].
      rewrite (H lt0 t) in Heq; simpl; auto. discriminate.
    + rewrite IH. split.
      * intros H lt t [<- | Hlt] Ht.
        -- apply (proj1 (find_timing_none _ _) E t Ht).
        -- apply (H lt t Hlt Ht).
      * intros H lt t Hlt Ht. apply (H lt t); simpl; auto.
Qed.

(** X2: [calculateDriverLapData] returns one series for each requested
    driver, in the order of the request, and the series of a driver is
    empty exactly when no timing of any lap is his. *)
Theorem one_series_per_driver
    (lapTimings : list LapTiming.t) (driverIds : list string) :
  map ProcessedLapData.driverId (calculateDriverLapData lapTimings driverIds)
  = driverIds
  /\ Forall (fun d =>
               ProcessedLapData.laps d = [] <->
               absent (ProcessedLapData.driverId d) lapTimings)
            (calculateDriverLapData lapTimings driverIds).
Proof.
  unfold calculateDriverLapData. split.
  - rewrite map_map. simpl. apply map_id.
  - apply Forall_forall. intros d Hd.
    apply in_map_iff in Hd. destruct Hd as (id & <- & _). simpl.
    apply driver_laps_empty.
Qed.

(** ** [interpolatePosition] *)

Lemma interpolate_loop_located (laps : list ProcessedLap.t) (target : num) :
  forall prev,
    match interpolate_loop laps prev target with
    | Some r =>
        exists before l rest,
          laps = before ++ l :: rest
          /\ Forall (after_lap target) before
          /\ (target <=? ProcessedLap.cumulativeTimeInMs l)%num = true
          /\ Interpolated.lap r = ProcessedLap.lap l
          /\ Interpolated.position r = ProcessedLap.position l
    | None => Forall (after_lap target) laps
    end.
Proof.
  induction laps as [|l r IH]; intros prev; simpl.
  - constructor.
  - destruct (target <=? ProcessedLap.cumulativeTimeInMs l)%num eqn:E.
    + exists [], l, r. repeat split; trivial.
    + specialize (IH (ProcessedLap.cumulativeTimeInMs l)).
      destruct (interpolate_loop r (ProcessedLap.cumulativeTimeInMs l) target).
      * destruct IH as (before & l' & rest & -> & HF & Hle & Hlap & Hpos).
        exists (l :: before), l', rest. repeat split; trivial.
        constructor; trivial.
      * constructor; trivial.
Qed.

(** X3: [interpolatePosition] returns the lap and position of the first
    lap whose cumulative time is not before the target; when the target is
    after every lap it returns the last lap at progress 100, and on an
    empty series it returns lap 0, progress 0 and position 0. *)
Theorem interpolatePosition_located
    (processedData : ProcessedLapData.t) (targetTimeMs totalLaps : num) :
  located (ProcessedLapData.laps processedData) targetTimeMs
    (interpolatePosition processedData targetTimeMs totalLaps).
Proof.
  unfold interpolatePosition, located.
  destruct (ProcessedLapData.laps processedData) as [|l0 r] eqn:El.
  - left. split; reflexivity.
  - right. pose proof (interpolate_loop_located (l0 :: r) targetTimeMs zero) as H.
    destruct (interpolate_loop (l0 :: r) zero targetTimeMs) as [res|].
    + left. exact H.
    + right. destruct (last_opt (l0 :: r)) as [lastLap|] eqn:E.
      * exists lastLap. repeat split; trivial.
      * exfalso. clear - E. revert l0 E. induction r as [|x r IH]; intros l0 E.
        -- discriminate.
        -- apply (IH x). exact E.
Qed.

Lemma clamp_progress (x : num) :
  is_nan x = false ->
  le zero (min (of_Z 100) (max zero x))
  /\ le (min (of_Z 100) (max zero x)) (of_Z 100).
Proof.
  intros Hx. unfold le.
  assert (Hm : is_nan (max zero x) = false) by (apply max_not_nan; trivial).
  split.
  - apply min_greatest; [reflexivity|]. apply max_lower; trivial.
  - apply min_upper; trivial.
Qed.

Lemma lap_fraction_not_nan (a : num) (q : Q) :
  is_nan a = false -> 0 < q -> is_nan ((a / Fin q) * of_Z 100)%num = false.
Proof.
  intros Ha Hq. apply Qgt_alt in Hq.
  destruct a as [x| | |]; try discriminate; unfold div, Qsign; rewrite Hq;
    reflexivity.
Qed.

Lemma sub_finite_not_nan (a : num) (c : Q) :
  is_nan a = false -> is_nan (a - Fin c)%num = false.
Proof. destruct a; simpl; congruence. Qed.

Lemma interpolate_loop_progress (laps : list ProcessedLap.t) (target : num) :
  is_nan target = false ->
  Forall regular_lap laps ->
  forall (prev : Q) r,
    interpolate_loop laps (Fin prev) target = Some r ->
    le zero (Interpolated.progress r) /\ le (Interpolated.progress r) (of_Z 100).
Proof.
  intros Ht HF. induction HF as [|l rest (q & c & Eq & Hq & Ec) _ IH];
    intros prev r; simpl; [discriminate|].
  destruct (target <=? ProcessedLap.cumulativeTimeInMs l)%num.
  - intros [= <-]. simpl. rewrite Eq.
    apply clamp_progress, lap_fraction_not_nan; trivial.
    apply sub_finite_not_nan, Ht.
  - rewrite Ec. apply IH.
Qed.

(** X4: on a series whose laps have positive times and finite cumulative
    times, and for a target that is not NaN, the progress
    [interpolatePosition] returns lies in [0, 100]. *)
Theorem interpolatePosition_progress_bounds
    (processedData : ProcessedLapData.t) (targetTimeMs totalLaps : num) :
  is_nan targetTimeMs = false ->
  Forall regular_lap (ProcessedLapData.laps processedData) ->
  le zero
     (Interpolated.progress
        (interpolatePosition processedData targetTimeMs totalLaps))
  /\ le (Interpolated.progress
           (interpolatePosition processedData targetTimeMs totalLaps))
        (of_Z 100).
Proof.
  intros Ht HF. unfold interpolatePosition.
  destruct (ProcessedLapData.laps processedData) as [|l0 r] eqn:El.
  - split; reflexivity.
  - destruct (interpolate_loop (l0 :: r) zero targetTimeMs) as [res|] eqn:E.
    + eapply interpolate_loop_progress with (prev := inject_Z 0); eauto.
    + destruct (last_opt (l0 :: r)); split; reflexivity.
Qed.

Lemma interpolatePosition_progress_bounds_witness :
  is_nan (of_Z 100000) = false
  /\ Forall regular_lap (ProcessedLapData.laps Samples2.series_a)
  /\ le (Interpolated.progress
           (interpolatePosition Samples2.series_a (of_Z 100000) (of_Z 2)))
        (of_Z 100).
Proof.
  assert (HF : Forall regular_lap (ProcessedLapData.laps Samples2.series_a)).
  { vm_compute ProcessedLapData.laps.
    repeat constructor; eexists; eexists;
      (split; [reflexivity | split; reflexivity]). }
  split; [reflexivity | split; [exact HF|]].
  apply (@interpolatePosition_progress_bounds Samples2.series_a (of_Z 100000)
           (of_Z 2) eq_refl HF).
Defined.

End LapProcessorFacts.

(* ================================================================== *)
(** * The lap processor: the duration of the race *)
(* ================================================================== *)

Module DurationFacts.

Import Inv Props LapProcessor.
Local Open Scope Q_scope.

Lemma map_get_set_same (V : Type) (m : list (string * V)) (k : string) (v : V) :
  map_get String.eqb (map_set String.eqb m k v) k = Some v.
Proof.
  induction m as [|[k0 v0] r IH]; simpl.
  - rewrite String.eqb_refl. reflexivity.
  - destruct (String.eqb k0 k) eqn:E; simpl; rewrite E; trivial.
Qed.

Lemma map_get_set_other (V : Type) (m : list (string * V)) (k k' : string)
    (v : V) :
  String.eqb k k' = false ->
  map_get String.eqb (map_set String.eqb m k v) k' = map_get String.eqb m k'.
Proof.
  intros Hk. induction m as [|[k0 v0] r IH]; simpl.
  - rewrite Hk. reflexivity.
  - destruct (String.eqb k0 k) eqn:E; simpl.
    + apply String.eqb_eq in E. subst k0. rewrite Hk. reflexivity.
    + rewrite IH. reflexivity.
Qed.

Lemma or_else_fin (x : Q) : exists v, or_else (Fin x) zero = Fin v /\ v == x.
Proof.
  unfold or_else, truthy. destruct (Qeq_bool x 0) eqn:E; simpl.
  - exists (inject_Z 0). split; trivial.
    apply Qeq_bool_eq in E. rewrite E. reflexivity.
  - exists x. split; reflexivity.
Qed.

Lemma finite_map_get (m : list (string * num)) (k : string) :
  finite_map m -> exists v, or_else_opt (map_get String.eqb m k) = Fin v.
Proof.
  intros H. pose proof (EventLogFacts.map_get_finite k H) as F.
  destruct (or_else_opt (map_get String.eqb m k)); try discriminate. eauto.
Qed.

(** One timing keeps the state covering the driver; a timing of the
    driver himself raises what is covered by its time. *)
Lemma duration_step_covers (driverId : string) (c : Q)
    (acc : list (string * num) * num) (t : LapData.t) (q : Q) :
  LapData.timeInMs t = Fin q -> 0 <= q ->
  covers driverId c acc ->
  covers driverId
    (if String.eqb (LapData.driverId t) driverId then c + q else c)
    (duration_step acc t).
Proof.
  intros Et Hq (Hm & v & M & Ev & EM & Hcv & HvM).
  destruct acc as [m mx]. simpl in *. subst mx.
  unfold duration_step.
  destruct (finite_map_get (LapData.driverId t) Hm) as [u Eu].
  rewrite Eu, Et. change (Fin u + Fin q)%num with (Fin (Qred (u + q))).
  assert (Hfm : finite_map
                  (map_set String.eqb m (LapData.driverId t) (Fin (Qred (u + q)))))
    by (apply EventLogFacts.map_set_finite; trivial).
  assert (HM : exists M',
             (if Fin (Qred (u + q)) >? Fin M then Fin (Qred (u + q)) else Fin M)%num
             = Fin M' /\ M <= M' /\ u + q <= M').
  { unfold gtb. destruct (ltb (Fin M) (Fin (Qred (u + q)))) eqn:E.
    - apply ltb_fin in E. rewrite Qred_correct in E.
      exists (Qred (u + q)).
      split; [reflexivity | split; rewrite Qred_correct; lra].
    - apply ltb_fin_false in E. rewrite Qred_correct in E.
      exists M. split; [reflexivity | split; lra]. }
  destruct HM as (M' & EM' & HMM' & HuM').
  split; [exact Hfm|]. cbn [fst snd].
  destruct (String.eqb (LapData.driverId t) driverId) eqn:Eid.
  - apply String.eqb_eq in Eid. subst driverId.
    rewrite map_get_set_same. cbn [or_else_opt].
    destruct (or_else_fin (Qred (u + q))) as (v' & Ev' & Hv').
    rewrite Qred_correct in Hv'.
    assert (u = v) by congruence. subst u.
    exists v', M'. repeat split; trivial; lra.
  - rewrite map_get_set_other by exact Eid.
    exists v, M'. repeat split; trivial; lra.
Qed.

Lemma covers_weaken (driverId : string) (c c' : Q)
    (acc : list (string * num) * num) :
  c' <= c -> covers driverId c acc -> covers driverId c' acc.
Proof.
  intros Hc (Hm & v & M & Ev & EM & Hcv & HvM).
  split; trivial. exists v, M. repeat split; trivial. lra.
Qed.

Lemma covers_timings (driverId : string) (timings : list LapData.t) :
  (forall t, In t timings ->
             exists q, LapData.timeInMs t = Fin q /\ 0 <= q) ->
  forall c acc,
    covers driverId c acc ->
    covers driverId c (fold_left duration_step timings acc).
Proof.
  induction timings as [|t r IH]; intros HT c acc Hacc; simpl; trivial.
  destruct (HT t) as (q & Et & Hq); [simpl; auto|].
  apply IH; [intros; apply HT; simpl; auto|].
  pose proof (@duration_step_covers driverId c acc t q Et Hq Hacc) as H.
  destruct (String.eqb (LapData.driverId t) driverId); trivial.
  apply covers_weaken with (c + q); trivial. lra.
Qed.

Lemma covers_laps (driverId : string) (lapTimings : list LapTiming.t) :
  nonneg_timings lapTimings ->
  forall c acc,
    covers driverId c acc ->
    covers driverId c
      (fold_left (fun acc lapTiming =>
                    fold_left duration_step (LapTiming.timings lapTiming) acc)
                 lapTimings acc).
Proof.
  induction lapTimings as [|lt0 r IH]; intros HN c acc Hacc; simpl; trivial.
  apply IH.
  - intros lt t Hlt Ht. apply (HN lt t); simpl; auto.
  - apply covers_timings; trivial.
    intros t Ht. apply (HN lt0 t); simpl; auto.
Qed.

(** The timings of one lap raise what is covered by the time of the first
    timing of the driver, if there is one. *)
Lemma covers_first_timing (driverId : string) (timings : list LapData.t) :
  (forall t, In t timings ->
             exists q, LapData.timeInMs t = Fin q /\ 0 <= q) ->
  forall c acc t q,
    find_timing driverId timings = Some t ->
    LapData.timeInMs t = Fin q ->
    covers driverId c acc ->
    covers driverId (c + q) (fold_left duration_step timings acc).
Proof.
  induction timings as [|t0 r IH]; intros HT c acc t q Hfind Et Hacc;
    [discriminate|].
  destruct (HT t0) as (q0 & Et0 & Hq0); [simpl; auto|].
  assert (HTr : forall t', In t' r ->
                           exists q', LapData.timeInMs t' = Fin q' /\ 0 <= q')
    by (intros t' Ht'; apply HT; simpl; auto).
  pose proof (@duration_step_covers driverId c acc t0 q0 Et0 Hq0 Hacc)
    as Hstep.
  unfold find_timing in Hfind. cbn [find] in Hfind. cbn [fold_left].
  destruct (String.eqb (LapData.driverId t0) driverId).
  - injection Hfind as <-. assert (q0 = q) by congruence. subst q0.
    apply covers_timings; trivial.
  - apply (IH HTr c _ t q Hfind Et Hstep).
Qed.

Lemma laps_covered (average : num) (driverId : string)
    (lapTimings : list LapTiming.t) :
  nonneg_timings lapTimings ->
  forall c acc,
    covers driverId c acc ->
    Forall (fun l =>
              le (ProcessedLap.cumulativeTimeInMs l)
                 (snd (fold_left
                         (fun acc lapTiming =>
                            fold_left duration_step
                              (LapTiming.timings lapTiming) acc)
                         lapTimings acc)))
           (driver_laps average driverId lapTimings (Fin c)).
Proof.
  induction lapTimings as [|lt0 r IH]; intros HN c acc Hacc;
    cbn [driver_laps fold_left]; [constructor|].
  assert (HNr : nonneg_timings r)
    by (intros lt t Hlt Ht; apply (HN lt t); simpl; auto).
  assert (HT : forall t, In t (LapTiming.timings lt0) ->
                         exists q, LapData.timeInMs t = Fin q /\ 0 <= q)
    by (intros t Ht; apply (HN lt0 t); simpl; auto).
  destruct (find_timing driverId (LapTiming.timings lt0)) as [t|] eqn:E.
  - destruct (HT t) as (q & Et & Hq);
      [apply find_some in E; tauto|].
    pose proof (@covers_first_timing driverId _ HT c acc t q E Et Hacc)
      as Hcov.
    apply covers_weaken with (c' := Qred (c + q)) in Hcov;
      [|rewrite Qred_correct; lra].
    cbv beta iota zeta. rewrite Et.
    change (Fin c + Fin q)%num with (Fin (Qred (c + q))).
    constructor.
    + lazy beta iota delta [ProcessedLap.cumulativeTimeInMs].
      destruct (@covers_laps driverId r HNr _ _ Hcov)
        as (_ & v & M & _ & EM & Hcv & HvM).
      rewrite EM. apply leb_fin. lra.
    + apply (IH HNr _ _ Hcov).
  - apply (IH HNr). apply covers_timings; trivial.
Qed.

(** X5: when no lap time is negative, no cumulative time of any series
    [calculateDriverLapData] builds is greater than the duration
    [calculateRaceDuration] gives for the same lap timings. *)
Theorem cumulative_time_within_duration
    (lapTimings : list LapTiming.t) (driverIds : list string) :
  nonneg_timings lapTimings ->
  Forall (fun d =>
            Forall (fun l => le (ProcessedLap.cumulativeTimeInMs l)
                                (calculateRaceDuration lapTimings))
                   (ProcessedLapData.laps d))
         (calculateDriverLapData lapTimings driverIds).
Proof.
  intros HN. unfold calculateDriverLapData. apply Forall_forall. intros d Hd.
  apply in_map_iff in Hd. destruct Hd as (id & <- & _).
  cbn [ProcessedLapData.laps].
  destruct lapTimings as [|lt0 r]; [constructor|].
  unfold calculateRaceDuration.
  apply (@laps_covered (averageLapTime (lt0 :: r)) id (lt0 :: r) HN
           (inject_Z 0)).
  split; [constructor|]. exists (inject_Z 0), (inject_Z 0).
  repeat split; apply Qle_refl.
Qed.

Lemma cumulative_time_within_duration_witness :
  nonneg_timings Samples.lead_change
  /\ Forall (fun d =>
               Forall (fun l => le (ProcessedLap.cumulativeTimeInMs l)
                                   (of_Z 161000))
                      (ProcessedLapData.laps d))
            Samples.lead_change_series.
Proof.
  assert (HN : nonneg_timings Samples.lead_change).
  { intros lt0 t Hlt Ht. vm_compute in Hlt.
    destruct Hlt as [<- | [<- | []]]; vm_compute in Ht;
      destruct Ht as [<- | [<- | []]]; eexists; (split; [reflexivity|]);
      discriminate. }
  split; [exact HN|].
  apply (cumulative_time_within_duration ["a"%string; "b"%string] HN).
Defined.

End DurationFacts.

(* ================================================================== *)
(** * The event manager: what each kind of event records *)
(* ================================================================== *)

Module EventFacts.

Import Inv Props EventManager.
Local Open Scope Q_scope.

Lemma fold_left_flat_map (A B C : Type) (f : A -> C -> A) (g : B -> list C)
    (l : list B) :
  forall acc,
    fold_left (fun acc x => fold_left f (g x) acc) l acc
    = fold_left f (flat_map g l) acc.
Proof.
  induction l as [|x r IH]; intros acc; simpl; trivial.
  rewrite fold_left_app. apply IH.
Qed.

Lemma lap_complete_keys (timings : list LapData.t) :
  forall acc,
    map event_key (fst (fold_left lap_complete_step timings acc))
    = map event_key (fst acc) ++ map timing_key timings.
Proof.
  induction timings as [|t r IH]; intros [events times]; simpl.
  - rewrite app_nil_r. reflexivity.
  - rewrite IH. simpl. rewrite map_app, <- app_assoc. reflexivity.
Qed.

(** X6: [createLapCompleteEvents] returns one event for each timing of
    each lap: the (competitor, lap) pairs of its events are, up to order,
    those of the timings. *)
Theorem lap_complete_event_per_timing (lapTimings : list LapTiming.t) :
  Permutation
    (map event_key (createLapCompleteEvents lapTimings))
    (map timing_key (all_timings lapTimings))
  /\ List.length (createLapCompleteEvents lapTimings)
     = List.length (all_timings lapTimings).
Proof.
  assert (H : Permutation
                (map event_key (createLapCompleteEvents lapTimings))
                (map timing_key (all_timings lapTimings))).
  { unfold createLapCompleteEvents, sort_events.
    eapply perm_trans.
    - apply Permutation_map, Permutation_sym, array_sort_perm.
    - unfold lap_complete_unsorted, all_timings.
      rewrite fold_left_flat_map, lap_complete_keys. apply Permutation_refl. }
  split; [exact H|].
  apply Permutation_length in H. rewrite !length_map in H. exact H.
Qed.

Lemma overtake_step_gains (st : Detect.t) (timing : LapData.t) :
  Forall gains_position (Detect.events st) ->
  Forall gains_position (Detect.events (overtake_step st timing)).
Proof.
  intros H. unfold overtake_step. cbn [Detect.events].
  destruct (map_get String.eqb (Detect.previousPositions st)
              (LapData.driverId timing)) as [prevPos|]; trivial.
  destruct (LapData.position timing <? prevPos)%num eqn:E; trivial.
  apply EventLogFacts.Forall_snoc; trivial.
  split; [reflexivity|]. eexists. eexists.
  split; [reflexivity | split; [reflexivity | exact E]].
Qed.

(** X7: every event [detectOvertakes] returns is an overtake that records
    the new position and the previous position of its driver, and the new
    position is the lower number. *)
Theorem overtake_gains_position (lapTimings : list LapTiming.t) :
  Forall gains_position (detectOvertakes lapTimings).
Proof.
  unfold detectOvertakes, sort_events. apply array_sort_Forall.
  destruct lapTimings as [|first rest]; [constructor|].
  cbn [overtakes_unsorted].
  assert (H0 : Forall gains_position
                 (Detect.events
                    (fold_left store_initial (LapTiming.timings first)
                       (Detect.mk [] [] [])))).
  { rewrite OvertakeFacts.store_initial_events. constructor. }
  revert H0. generalize (fold_left store_initial (LapTiming.timings first)
                           (Detect.mk [] [] [])).
  induction rest as [|lt0 r IH]; intros st Hst; cbn [fold_left]; trivial.
  apply IH. revert st Hst.
  induction (LapTiming.timings lt0) as [|t ts IHt]; intros st Hst;
    cbn [fold_left]; trivial.
  apply IHt, overtake_step_gains, Hst.
Qed.

Lemma pit_time_before_end (l : ProcessedLap.t) :
  regular_lap l ->
  le (ProcessedLap.cumulativeTimeInMs l
      - ProcessedLap.timeInMs l * Fin (1 # 10))%num
     (ProcessedLap.cumulativeTimeInMs l).
Proof.
  intros (q & c & -> & Hq & ->).
  change (Fin c - Fin q * Fin (1 # 10))%num
    with (Fin (Qred (c - Qred (q * (1 # 10))))).
  apply leb_fin. rewrite !Qred_correct. lra.
Qed.

Lemma pit_stop_step_events (pitStops : list PitStop.t)
    (processedLapData : list ProcessedLapData.t)
    (events : list RaceEvent.t) (pitStop : PitStop.t) :
  In pitStop pitStops ->
  Forall (pit_event_of pitStops processedLapData) events ->
  Forall (pit_event_of pitStops processedLapData)
         (pit_stop_step processedLapData events pitStop)
  /\ (List.length (pit_stop_step processedLapData events pitStop)
      <= S (List.length events))%nat.
Proof.
  intros Hin He. unfold pit_stop_step.
  destruct (find_driver (PitStop.driverId pitStop) processedLapData)
    as [d|] eqn:Ed; [|split; [trivial | lia]].
  destruct (find_lap (PitStop.lap pitStop) (ProcessedLapData.laps d))
    as [l|] eqn:El; [|split; [trivial | lia]].
  split.
  - apply EventLogFacts.Forall_snoc; trivial.
    split; [reflexivity|]. exists pitStop, d, l.
    repeat split; trivial. apply pit_time_before_end.
  - rewrite length_app. simpl. lia.
Qed.

(** X8: every event of [createPitStopEvents] belongs to a stop of the
    input whose driver has a series with that lap; its time is the
    cumulative time of the lap minus a tenth of the lap time, which is
    not after the end of the lap when the lap time is positive.  Stops of
    a driver or a lap that is not in the series give no event. *)
Theorem pit_stop_events (pitStops : list PitStop.t)
    (processedLapData : list ProcessedLapData.t) :
  Forall (pit_event_of pitStops processedLapData)
         (createPitStopEvents pitStops processedLapData)
  /\ (List.length (createPitStopEvents pitStops processedLapData)
      <= List.length pitStops)%nat.
Proof.
  assert (H : forall stops events,
             incl stops pitStops ->
             Forall (pit_event_of pitStops processedLapData) events ->
             Forall (pit_event_of pitStops processedLapData)
                    (fold_left (pit_stop_step processedLapData) stops events)
             /\ (List.length
                   (fold_left (pit_stop_step processedLapData) stops events)
                 <= List.length stops + List.length events)%nat).
  { induction stops as [|p r IH]; intros events Hincl He; cbn [fold_left].
    - split; [trivial | simpl; lia].
    - destruct (@pit_stop_step_events pitStops processedLapData events p)
        as [H1 H2]; trivial; [apply Hincl; simpl; auto|].
      destruct (IH (pit_stop_step processedLapData events p)) as [H3 H4];
        trivial; [intros x Hx; apply Hincl; simpl; auto|].
      split; trivial. simpl. lia. }
  destruct (H pitStops [] (incl_refl _) (Forall_nil _)) as [H1 H2].
  unfold createPitStopEvents, sort_events, pit_stop_unsorted. split.
  - apply array_sort_Forall, H1.
  - rewrite <- (Permutation_length (array_sort_perm by_time _)).
    simpl in H2. lia.
Qed.

(** X9: every event of [createDNFEvents] belongs to an entry of [dnfs]
    whose driver has a series with at least one lap, and its time is the
    cumulative time of the last lap of that series.  Entries of a driver
    without a series or without laps give no event. *)
Theorem dnf_events (dnfs : list (string * DnfInfo.t))
    (processedLapData : list ProcessedLapData.t) :
  Forall (dnf_event_of dnfs processedLapData)
         (createDNFEvents dnfs processedLapData)
  /\ (List.length (createDNFEvents dnfs processedLapData)
      <= List.length dnfs)%nat.
Proof.
  assert (H : forall entries events,
             incl entries dnfs ->
             Forall (dnf_event_of dnfs processedLapData) events ->
             Forall (dnf_event_of dnfs processedLapData)
                    (fold_left (dnf_step processedLapData) entries events)
             /\ (List.length
                   (fold_left (dnf_step processedLapData) entries events)
                 <= List.length entries + List.length events)%nat).
  { induction entries as [|[id info] r IH]; intros events Hincl He;
      cbn [fold_left].
    - split; [trivial | simpl; lia].
    - assert (Hr : incl r dnfs) by (intros x Hx; apply Hincl; simpl; auto).
      unfold dnf_step at 2 4.
      destruct (find_driver id processedLapData) as [d|] eqn:Ed;
        [|destruct (IH events Hr He); split; trivial; simpl; lia].
      destruct (last_opt (ProcessedLapData.laps d)) as [l|] eqn:El;
        [|destruct (IH events Hr He); split; trivial; simpl; lia].
      match goal with
      | |- Forall _ (fold_left _ _ ?ev) /\ _ =>
          destruct (IH ev Hr) as [H1 H2]
      end.
      + apply EventLogFacts.Forall_snoc; trivial.
        split; [reflexivity|]. exists info, d, l.
        repeat split; trivial. apply Hincl. simpl. auto.
      + split; trivial. rewrite length_app in H2. simpl in *. lia. }
  destruct (H dnfs [] (incl_refl _) (Forall_nil _)) as [H1 H2].
  unfold createDNFEvents, sort_events, dnf_unsorted. split.
  - apply array_sort_Forall, H1.
  - rewrite <- (Permutation_length (array_sort_perm by_time _)).
    simpl in H2. lia.
Qed.

Lemma StronglySorted_filter (A : Type) (R : A -> A -> Prop) (f : A -> bool)
    (l : list A) :
  StronglySorted R l -> StronglySorted R (filter f l).
Proof.
  induction 1 as [|x r Hs IH Hx]; simpl; [constructor|].
  destruct (f x); trivial. constructor; trivial.
  rewrite Forall_forall in *. intros y Hy.
  apply filter_In in Hy. apply Hx. tauto.
Qed.

(** X10: the three filters of the event manager keep the order of a log:
    a log in which times do not decrease, and in which ties follow the
    order of the categories, is still so after [filterEventsByType],
    [getEventsInTimeRange] or [getDriverEvents]; and the events
    [getEventsInTimeRange] returns lie between the two bounds. *)
Theorem filters_keep_order (events : list RaceEvent.t)
    (type : RaceEventType) (startTimeMs endTimeMs : num) (driverId : string) :
  StronglySorted Spec.event_order events ->
  StronglySorted Spec.event_order (filterEventsByType events type)
  /\ StronglySorted Spec.event_order
       (getEventsInTimeRange events startTimeMs endTimeMs)
  /\ StronglySorted Spec.event_order (getDriverEvents events driverId)
  /\ Forall (fun e => le startTimeMs (RaceEvent.timeInMs e)
                      /\ le (RaceEvent.timeInMs e) endTimeMs)
            (getEventsInTimeRange events startTimeMs endTimeMs).
Proof.
  intros H. repeat split; try (apply StronglySorted_filter, H).
  apply Forall_forall. intros e He.
  apply filter_In in He. destruct He as [_ He].
  apply andb_prop in He. exact He.
Qed.

Lemma filters_keep_order_witness :
  StronglySorted Spec.event_order Samples2.two_events
  /\ StronglySorted Spec.event_order
       (getDriverEvents Samples2.two_events "b").
Proof.
  assert (H : StronglySorted Spec.event_order Samples2.two_events).
  { vm_compute Samples2.two_events.
    repeat constructor; try reflexivity; intros _; apply le_n. }
  split; [exact H|].
  apply (@filters_keep_order Samples2.two_events lap_complete zero zero "b" H).
Defined.

End EventFacts.

(* ================================================================== *)
(** * The timeline generator: sampling *)
(* ================================================================== *)

Module SamplingFacts.

Import Inv Props LapProcessor EventManager TimelineGenerator.
Local Open Scope Q_scope.

(** The loop from [t] makes [n] frames when [t + n q] is the first sample
    time after [T]. *)
Lemma frames_from_count (T q : Q) (mk_frame : num -> AnimationFrame.t) :
  0 < q ->
  forall (n fuel : nat) (t : Q),
    (n < fuel)%nat ->
    T < t + inject_Z (Z.of_nat n) * q ->
    (forall k, (k < n)%nat -> t + inject_Z (Z.of_nat k) * q <= T) ->
    exists frames,
      frames_from fuel (Fin t) (Fin T) (Fin q) mk_frame = Some frames
      /\ List.length frames = n
      /\ forall k f,
           nth_error frames k = Some f ->
           exists tk, f = mk_frame (Fin tk)
                      /\ tk == t + inject_Z (Z.of_nat k) * q.
Proof.
  intros Hq. induction n as [|n IH]; intros fuel t Hfuel Hafter Hbefore.
  - destruct fuel as [|fuel]; [lia|]. cbn [frames_from].
    assert (E : (Fin t <=? Fin T)%num = false).
    { apply leb_fin_false.
      change (inject_Z (Z.of_nat 0)) with 0 in Hafter. lra. }
    rewrite E. exists []. repeat split. intros [|k] f; discriminate.
  - destruct fuel as [|fuel]; [lia|]. cbn [frames_from].
    assert (E : (Fin t <=? Fin T)%num = true).
    { apply leb_fin. specialize (Hbefore 0%nat).
      change (inject_Z (Z.of_nat 0)) with 0 in Hbefore.
      assert (t + 0 * q <= T) by (apply Hbefore; lia). lra. }
    rewrite E.
    change (Fin t + Fin q)%num with (Fin (Qred (t + q))).
    assert (Hstep : forall k : nat,
               inject_Z (Z.of_nat (S k)) == inject_Z (Z.of_nat k) + 1).
    { intros k. rewrite Nat2Z.inj_succ. unfold Z.succ.
      rewrite inject_Z_plus. reflexivity. }
    destruct (IH fuel (Qred (t + q))) as (frames & Ef & Hlen & Hnth).
    + lia.
    + rewrite Qred_correct. rewrite Hstep in Hafter. lra.
    + intros k Hk. rewrite Qred_correct.
      specialize (Hbefore (S k)). rewrite Hstep in Hbefore.
      assert (t + (inject_Z (Z.of_nat k) + 1) * q <= T)
        by (apply Hbefore; lia).
      lra.
    + rewrite Ef. exists (mk_frame (Fin t) :: frames).
      split; [reflexivity|]. split; [simpl; lia|].
      intros [|k] f Hf.
      * injection Hf as <-. exists t. split; [reflexivity|].
        change (inject_Z (Z.of_nat 0)) with 0. lra.
      * destruct (Hnth k f Hf) as (tk & -> & Htk).
        exists tk. split; [reflexivity|].
        rewrite Htk, Qred_correct, Hstep. lra.
Qed.

Lemma floor_bounds (T q : Q) :
  0 < q -> 0 <= T ->
  (0 <= Qfloor (T / q))%Z
  /\ inject_Z (Qfloor (T / q)) * q <= T
  /\ T < (inject_Z (Qfloor (T / q)) + 1) * q.
Proof.
  intros Hq HT.
  assert (Hx : 0 <= T / q).
  { apply Qle_shift_div_l; trivial. lra. }
  pose proof (Qfloor_le (T / q)) as Hlo.
  pose proof (Qlt_floor (T / q)) as Hhi.
  rewrite inject_Z_plus in Hhi. change (inject_Z 1) with 1 in Hhi.
  assert (Eq : T == (T / q) * q) by (field; lra).
  split; [|split].
  - change 0%Z with (Qfloor 0). apply Qfloor_resp_le, Hx.
  - rewrite Eq at 2. apply Qmult_le_compat_r; lra.
  - rewrite Eq at 1. apply Qmult_lt_compat_r; lra.
Qed.

(** X11: for a sampling interval that is a whole number [n] of
    milliseconds, from 1 to 2^52, and a race whose duration [T] is at most
    2^52 ms, [generateRaceTimeline] ends: with enough iterations it returns
    a timeline of floor(T / n) + 1 frames, the k-th of them at time k * n,
    with the duration and the events it was given.  (Within these bounds
    every sample time is a whole number that doubles represent.) *)
Theorem timeline_frames_sampled
    (fuel : nat) (metadata : RaceMetadata.t) (drivers : list Driver.t)
    (lapTimings : list LapTiming.t)
    (processedLapData : list ProcessedLapData.t) (pitStops : list PitStop.t)
    (events : list RaceEvent.t) (dnfs : list (string * DnfInfo.t))
    (fastestLapDriverId : option string) (T : Q) (n : Z) :
  calculateRaceDuration lapTimings = Fin T ->
  T <= inject_Z (2 ^ 52) ->
  (1 <= n <= 2 ^ 52)%Z ->
  (frame_count T (inject_Z n) < fuel)%nat ->
  exists tl,
    generateRaceTimeline fuel metadata drivers lapTimings processedLapData
      pitStops events dnfs fastestLapDriverId (of_Z n) = Some tl
    /\ List.length (RaceTimeline.frames tl) = frame_count T (inject_Z n)
    /\ sampled_at (inject_Z n) (RaceTimeline.frames tl)
    /\ RaceTimeline.totalDurationMs tl = Fin T
    /\ RaceTimeline.events tl = events.
Proof.
  intros ET _ Hn Hfuel.
  set (q := inject_Z n) in *.
  assert (Hq : 0 < q).
  { unfold q. change 0 with (inject_Z 0). rewrite <- Zlt_Qlt. lia. }
  change (of_Z n) with (Fin q).
  assert (HT : 0 <= T).
  { pose proof (PlaybackFacts.calculateRaceDuration_nonneg lapTimings) as H.
    rewrite ET in H. apply leb_fin in H. exact H. }
  destruct (floor_bounds Hq HT) as (Hf0 & Hlo & Hhi).
  unfold generateRaceTimeline. rewrite ET.
  set (mk := fun timeMs => generateFrame timeMs drivers processedLapData
                             (createPitStopMap pitStops) events dnfs
                             fastestLapDriverId
                             (calculateLeaderTimes lapTimings)
                             (RaceMetadata.totalLaps metadata)).
  assert (En : inject_Z (Z.of_nat (frame_count T q))
               == inject_Z (Qfloor (T / q)) + 1).
  { unfold frame_count. rewrite Nat2Z.inj_succ, Z2Nat.id by exact Hf0.
    unfold Z.succ. rewrite inject_Z_plus. reflexivity. }
  destruct (@frames_from_count T q mk Hq (frame_count T q) fuel 0)
    as (frames & Ef & Hlen & Hnth); trivial.
  - rewrite En. lra.
  - intros k Hk.
    assert (Hk' : inject_Z (Z.of_nat k) <= inject_Z (Qfloor (T / q))).
    { rewrite <- Zle_Qle. unfold frame_count in Hk. lia. }
    assert (inject_Z (Z.of_nat k) * q <= inject_Z (Qfloor (T / q)) * q)
      by (apply Qmult_le_compat_r; lra).
    lra.
  - unfold zero, of_Z. change (inject_Z 0) with 0. rewrite Ef.
    eexists. split; [reflexivity|]. cbn [RaceTimeline.frames
      RaceTimeline.totalDurationMs RaceTimeline.events].
    repeat split; trivial.
    intros k f Hf. destruct (Hnth k f Hf) as (tk & -> & Htk).
    unfold mk, generateFrame. cbn [AnimationFrame.timeInMs eqv].
    rewrite Htk. lra.
Qed.

Lemma timeline_frames_sampled_witness :
  calculateRaceDuration Samples2.ten_seconds = Fin (inject_Z 10000)
  /\ inject_Z 10000 <= inject_Z (2 ^ 52)
  /\ (1 <= 500 <= 2 ^ 52)%Z
  /\ (frame_count (inject_Z 10000) (inject_Z 500) < 30)%nat
  /\ frame_count (inject_Z 10000) (inject_Z 500) = 21%nat
  /\ exists tl,
       generateRaceTimeline 30 Samples.metadata [Driver.mk "a" "AAA"]
         Samples2.ten_seconds Samples2.ten_seconds_series [] [] [] None
         (of_Z 500) = Some tl
       /\ List.length (RaceTimeline.frames tl)
          = frame_count (inject_Z 10000) (inject_Z 500).
Proof.
  assert (H1 : calculateRaceDuration Samples2.ten_seconds
               = Fin (inject_Z 10000)) by reflexivity.
  assert (H2 : inject_Z 10000 <= inject_Z (2 ^ 52))
    by (rewrite <- Zle_Qle; lia).
  assert (H3 : (1 <= 500 <= 2 ^ 52)%Z) by lia.
  assert (H4 : (frame_count (inject_Z 10000) (inject_Z 500) < 30)%nat)
    by (vm_compute; lia).
  repeat (split; trivial).
  destruct (@timeline_frames_sampled 30 Samples.metadata [Driver.mk "a" "AAA"]
              Samples2.ten_seconds Samples2.ten_seconds_series [] [] [] None
              (inject_Z 10000) 500 H1 H2 H3 H4)
    as (tl & E & Hlen & _).
  exists tl. split; assumption.
Defined.

(** The loop does not end for an interval that is not positive. *)
Lemma frames_from_diverges (T interval : num)
    (mk_frame : num -> AnimationFrame.t) :
  le interval zero ->
  forall fuel t,
    le t T -> t <> PInf ->
    frames_from fuel t T interval mk_frame = None.
Proof.
  intros Hi. induction fuel as [|fuel IH]; intros t Ht Hp; cbn [frames_from];
    trivial.
  unfold le in Ht. rewrite Ht. rewrite IH; trivial.
  - unfold le in *. destruct t as [x| | |], interval as [y| | |];
      try discriminate; try congruence; try exact Ht.
    + change (Fin x + Fin y)%num with (Fin (Qred (x + y))).
      destruct T as [z| | |]; try discriminate; trivial.
      apply leb_fin. apply leb_fin in Ht, Hi.
      change (inject_Z 0) with 0 in Hi. rewrite Qred_correct. lra.
    + destruct T; try discriminate; reflexivity.
  - destruct t as [x| | |], interval as [y| | |];
      try discriminate; congruence.
Qed.

(** X12: for a sampling interval that is zero or negative,
    [generateRaceTimeline] never returns: whatever the number of
    iterations allowed, the loop has not ended. *)
Theorem timeline_never_ends
    (metadata : RaceMetadata.t) (drivers : list Driver.t)
    (lapTimings : list LapTiming.t)
    (processedLapData : list ProcessedLapData.t) (pitStops : list PitStop.t)
    (events : list RaceEvent.t) (dnfs : list (string * DnfInfo.t))
    (fastestLapDriverId : option string) (frameInterval : num) :
  le frameInterval zero ->
  forall fuel,
    generateRaceTimeline fuel metadata drivers lapTimings processedLapData
      pitStops events dnfs fastestLapDriverId frameInterval = None.
Proof.
  intros Hi fuel. unfold generateRaceTimeline.
  rewrite (@frames_from_diverges (calculateRaceDuration lapTimings)
             frameInterval _ Hi fuel zero); trivial.
  - apply PlaybackFacts.calculateRaceDuration_nonneg.
  - discriminate.
Qed.

Lemma timeline_never_ends_witness :
  le (of_Z (-5)) zero
  /\ generateRaceTimeline 1000 Samples.metadata [Driver.mk "a" "AAA"]
       Samples2.ten_seconds Samples2.ten_seconds_series [] [] [] None
       (of_Z (-5)) = None.
Proof.
  split; [reflexivity|].
  apply (@timeline_never_ends Samples.metadata [Driver.mk "a" "AAA"]
           Samples2.ten_seconds Samples2.ten_seconds_series [] [] [] None
           (of_Z (-5)) eq_refl 1000%nat).
Defined.

End SamplingFacts.

(* ================================================================== *)
(** * The timeline generator: the states of a frame *)
(* ================================================================== *)

Module FrameFacts.

Import Inv Props LapProcessor EventManager TimelineGenerator.
Local Open Scope Q_scope.

Lemma same_value_zero_refl (a : num) : same_value_zero a a = true.
Proof. destruct a; simpl; trivial. apply Qeq_bool_iff, Qeq_refl. Qed.

Lemma same_value_zero_trans (a b c : num) :
  same_value_zero a b = true -> same_value_zero b c = true ->
  same_value_zero a c = true.
Proof.
  destruct a, b, c; simpl; try congruence.
  rewrite !Qeq_bool_iff. apply Qeq_trans.
Qed.

Lemma set_has_add (s : list num) (x y : num) :
  set_has same_value_zero (set_add same_value_zero s x) y = true <->
  set_has same_value_zero s y = true \/ same_value_zero x y = true.
Proof.
  unfold set_add. destruct (set_has same_value_zero s x) eqn:E.
  - split; [auto|]. intros [H | H]; trivial.
    unfold set_has in *. apply existsb_exists in E.
    destruct E as (k & Hk & Hkx). apply existsb_exists. exists k.
    split; trivial. eapply same_value_zero_trans; eauto.
  - unfold set_has. rewrite existsb_app. simpl.
    rewrite orb_false_r, orb_true_iff. reflexivity.
Qed.

Lemma pit_map_step_get (m : list (string * list num)) (p : PitStop.t)
    (id : string) :
  map_get String.eqb (pit_map_step m p) id
  = if String.eqb (PitStop.driverId p) id then
      Some (set_add same_value_zero
              match map_get String.eqb m (PitStop.driverId p) with
              | Some laps => laps
              | None => []
              end
              (PitStop.lap p))
    else map_get String.eqb m id.
Proof.
  unfold pit_map_step.
  destruct (map_get String.eqb m (PitStop.driverId p)) as [laps|] eqn:E.
  - rewrite E. destruct (String.eqb (PitStop.driverId p) id) eqn:Eid.
    + apply String.eqb_eq in Eid. subst id.
      apply DurationFacts.map_get_set_same.
    + apply DurationFacts.map_get_set_other, Eid.
  - rewrite DurationFacts.map_get_set_same.
    destruct (String.eqb (PitStop.driverId p) id) eqn:Eid.
    + apply String.eqb_eq in Eid. subst id.
      apply DurationFacts.map_get_set_same.
    + rewrite !DurationFacts.map_get_set_other by exact Eid. reflexivity.
Qed.

Lemma pitted_snoc (stops : list PitStop.t) (p : PitStop.t) (id : string)
    (lap : num) :
  pitted (stops ++ [p]) id lap <->
  pitted stops id lap
  \/ (PitStop.driverId p = id /\ same_value_zero (PitStop.lap p) lap = true).
Proof.
  unfold pitted. split.
  - intros (x & Hx & Hid & Hlap). apply in_app_or in Hx.
    destruct Hx as [Hx | [<- | []]]; [left; eauto | right; auto].
  - intros [(x & Hx & Hid & Hlap) | [Hid Hlap]].
    + exists x. split; [apply in_or_app; auto | auto].
    + exists p. split; [apply in_or_app; simpl; auto | auto].
Qed.

Lemma pit_map_step_indexed (m : list (string * list num))
    (stops : list PitStop.t) (p : PitStop.t) :
  (forall id lap, indexed m id lap <-> pitted stops id lap) ->
  forall id lap,
    indexed (pit_map_step m p) id lap <-> pitted (stops ++ [p]) id lap.
Proof.
  intros Hinv id lap. rewrite pitted_snoc. unfold indexed.
  rewrite pit_map_step_get.
  destruct (String.eqb (PitStop.driverId p) id) eqn:Eid.
  - apply String.eqb_eq in Eid. subst id.
    rewrite <- Hinv. unfold indexed. split.
    + intros (laps & [= <-] & Hhas). apply set_has_add in Hhas.
      destruct Hhas as [Hhas | Hsame]; [left | right; auto].
      destruct (map_get String.eqb m (PitStop.driverId p)) as [l0|];
        [eauto | discriminate].
    + intros H. eexists. split; [reflexivity|]. apply set_has_add.
      destruct H as [(laps & -> & Hhas) | [_ Hsame]]; auto.
  - rewrite <- Hinv. unfold indexed. split; [auto|].
    intros [H | [Hid _]]; trivial.
    subst id. rewrite String.eqb_refl in Eid. discriminate.
Qed.

Lemma pit_map_fold (rest : list PitStop.t) :
  forall m stops,
    (forall id l, indexed m id l <-> pitted stops id l) ->
    forall id l,
      indexed (fold_left pit_map_step rest m) id l
      <-> pitted (stops ++ rest) id l.
Proof.
  induction rest as [|p r IH]; intros m stops Hinv id l; cbn [fold_left].
  - rewrite app_nil_r. apply Hinv.
  - change (p :: r) with ([p] ++ r). rewrite app_assoc.
    apply IH. apply pit_map_step_indexed, Hinv.
Qed.

Lemma pit_map_empty (id : string) (l : num) :
  indexed [] id l <-> pitted [] id l.
Proof.
  unfold indexed, pitted. simpl. split.
  - intros (laps & E & _). discriminate.
  - intros (x & [] & _).
Qed.

(** X13: the index [createPitStopMap] builds has a lap for a driver
    exactly when some stop of the input is of that driver on that lap. *)
Theorem pit_stop_map_indexes_stops (pitStops : list PitStop.t)
    (driverId : string) (lap : num) :
  indexed (createPitStopMap pitStops) driverId lap
  <-> pitted pitStops driverId lap.
Proof.
  unfold createPitStopMap.
  apply (@pit_map_fold pitStops [] [] pit_map_empty).
Qed.

Lemma driver_state_id (timeMs : num)
    (processedLapData : list ProcessedLapData.t)
    (pitStopMap : list (string * list num))
    (dnfs : list (string * DnfInfo.t)) (fastestLapDriverId : option string)
    (leaderTimes : list (num * num)) (totalLaps : num) (driver : Driver.t) :
  DriverState.driverId
    (driver_state timeMs processedLapData pitStopMap dnfs fastestLapDriverId
       leaderTimes totalLaps driver)
  = Driver.driverId driver.
Proof.
  unfold driver_state.
  destruct (find_driver (Driver.driverId driver) processedLapData) as [d|];
    trivial.
  destruct (ProcessedLapData.laps d); reflexivity.
Qed.

Lemma driver_state_placeholder (timeMs : num)
    (processedLapData : list ProcessedLapData.t)
    (pitStopMap : list (string * list num))
    (dnfs : list (string * DnfInfo.t)) (fastestLapDriverId : option string)
    (leaderTimes : list (num * num)) (totalLaps : num) (driver : Driver.t) :
  no_laps processedLapData (Driver.driverId driver) ->
  driver_state timeMs processedLapData pitStopMap dnfs fastestLapDriverId
    leaderTimes totalLaps driver
  = placeholder (Driver.driverId driver).
Proof.
  unfold no_laps, driver_state.
  destruct (find_driver (Driver.driverId driver) processedLapData) as [d|];
    trivial.
  intros ->. reflexivity.
Qed.

(** X14: every frame [generateFrame] builds has one state for each driver
    of the roster: the driver identifiers of its states are those of the
    roster up to order; and a driver whose series is missing or empty has
    the state with position 0, progress 0, lap 0 and no flag. *)
Theorem frame_has_every_driver
    (timeMs : num) (drivers : list Driver.t)
    (processedLapData : list ProcessedLapData.t)
    (pitStopMap : list (string * list num)) (events : list RaceEvent.t)
    (dnfs : list (string * DnfInfo.t)) (fastestLapDriverId : option string)
    (leaderTimes : list (num * num)) (totalLaps : num) :
  Permutation
    (map DriverState.driverId
       (AnimationFrame.drivers
          (generateFrame timeMs drivers processedLapData pitStopMap events
             dnfs fastestLapDriverId leaderTimes totalLaps)))
    (map Driver.driverId drivers)
  /\ Forall (fun driver =>
               no_laps processedLapData (Driver.driverId driver) ->
               In (placeholder (Driver.driverId driver))
                  (AnimationFrame.drivers
                     (generateFrame timeMs drivers processedLapData
                        pitStopMap events dnfs fastestLapDriverId
                        leaderTimes totalLaps)))
            drivers.
Proof.
  unfold generateFrame. cbn [AnimationFrame.drivers]. split.
  - eapply perm_trans.
    + apply Permutation_map, Permutation_sym, array_sort_perm.
    + rewrite map_map.
      erewrite map_ext; [apply Permutation_refl|].
      intros d. apply driver_state_id.
  - apply Forall_forall. intros driver Hd Hno.
    apply array_sort_In. apply in_map_iff. exists driver.
    split; trivial. apply driver_state_placeholder, Hno.
Qed.

(** The states of a frame are the states of the drivers of the roster. *)
Lemma frame_state_inv (P : DriverState.t -> Prop)
    (timeMs : num) (drivers : list Driver.t)
    (processedLapData : list ProcessedLapData.t)
    (pitStopMap : list (string * list num)) (events : list RaceEvent.t)
    (dnfs : list (string * DnfInfo.t)) (fastestLapDriverId : option string)
    (leaderTimes : list (num * num)) (totalLaps : num) :
  (forall driver,
      P (driver_state timeMs processedLapData pitStopMap dnfs
           fastestLapDriverId leaderTimes totalLaps driver)) ->
  Forall P
    (AnimationFrame.drivers
       (generateFrame timeMs drivers processedLapData pitStopMap events
          dnfs fastestLapDriverId leaderTimes totalLaps)).
Proof.
  intros H. unfold generateFrame. cbn [AnimationFrame.drivers].
  apply array_sort_Forall. apply Forall_forall. intros st Hst.
  apply in_map_iff in Hst. destruct Hst as (d & <- & _). apply H.
Qed.

(** X15: in every frame, a driver is in the pit only if a stop of the
    input is his on the lap he is on, and his progress on that lap is
    after 85 and before 100. *)
Theorem in_pit_only_near_lap_end
    (timeMs : num) (drivers : list Driver.t)
    (processedLapData : list ProcessedLapData.t)
    (pitStops : list PitStop.t) (events : list RaceEvent.t)
    (dnfs : list (string * DnfInfo.t)) (fastestLapDriverId : option string)
    (leaderTimes : list (num * num)) (totalLaps : num) :
  Forall (fun st =>
            DriverState.isInPit st = true ->
            pitted pitStops (DriverState.driverId st) (DriverState.lap st)
            /\ lt (of_Z 85) (DriverState.progress st)
            /\ lt (DriverState.progress st) (of_Z 100))
    (AnimationFrame.drivers
       (generateFrame timeMs drivers processedLapData
          (createPitStopMap pitStops) events dnfs fastestLapDriverId
          leaderTimes totalLaps)).
Proof.
  apply frame_state_inv. intros driver. unfold driver_state.
  destruct (find_driver (Driver.driverId driver) processedLapData) as [d|];
    [|discriminate].
  destruct (ProcessedLapData.laps d) as [|l0 r]; [discriminate|].
  cbn [DriverState.isInPit DriverState.driverId DriverState.lap
       DriverState.progress].
  destruct (map_get String.eqb (createPitStopMap pitStops)
              (Driver.driverId driver)) as [laps|] eqn:E; [|discriminate].
  intros H. apply andb_prop in H. destruct H as [H H100].
  apply andb_prop in H. destruct H as [Hhas H85].
  split; [|split; assumption].
  apply (@pit_map_fold pitStops [] [] pit_map_empty).
  exists laps. split; assumption.
Qed.

Lemma identifyDNFs_get (results : list JolpicaResult.t) (id : string) :
  forall dnfs info,
    map_get String.eqb
      (fold_left
         (fun dnfs result =>
            if did_not_finish (JolpicaResult.status result) then
              map_set String.eqb dnfs (JolpicaResult.driverId result)
                (DnfInfo.mk
                   (parseInt (list_ascii_of_string (JolpicaResult.laps result)))
                   (JolpicaResult.status result))
            else dnfs)
         results dnfs) id = Some info ->
    map_get String.eqb dnfs id = Some info \/ retired results id.
Proof.
  induction results as [|r rest IH]; intros dnfs info H; cbn [fold_left] in H;
    [auto|].
  apply IH in H. destruct H as [H | (x & Hx & Hid & Hs)].
  - destruct (did_not_finish (JolpicaResult.status r)) eqn:E; [|auto].
    destruct (String.eqb (JolpicaResult.driverId r) id) eqn:Eid.
    + right. exists r. apply String.eqb_eq in Eid. simpl. auto.
    + rewrite DurationFacts.map_get_set_other in H by exact Eid. auto.
  - right. exists x. simpl. auto.
Qed.

(** X16: with the retirements [identifyDNFs] reads from the results, a
    driver is shown retired in a frame only if one of his results has a
    status that is neither "finished" (in any case) nor a status with a
    plus sign (a finish some laps down). *)
Theorem retired_only_if_not_finished
    (results : list JolpicaResult.t)
    (timeMs : num) (drivers : list Driver.t)
    (processedLapData : list ProcessedLapData.t)
    (pitStopMap : list (string * list num)) (events : list RaceEvent.t)
    (fastestLapDriverId : option string)
    (leaderTimes : list (num * num)) (totalLaps : num) :
  Forall (fun st =>
            DriverState.isDNF st = true ->
            retired results (DriverState.driverId st))
    (AnimationFrame.drivers
       (generateFrame timeMs drivers processedLapData pitStopMap events
          (identifyDNFs results) fastestLapDriverId leaderTimes totalLaps)).
Proof.
  apply frame_state_inv. intros driver. unfold driver_state.
  destruct (find_driver (Driver.driverId driver) processedLapData) as [d|];
    [|discriminate].
  destruct (ProcessedLapData.laps d) as [|l0 r]; [discriminate|].
  cbn [DriverState.isDNF DriverState.driverId].
  destruct (map_get String.eqb (identifyDNFs results)
              (Driver.driverId driver)) as [info|] eqn:E; [|discriminate].
  intros _. unfold identifyDNFs in E. apply identifyDNFs_get in E.
  destruct E as [E | E]; [discriminate | exact E].
Qed.

End FrameFacts.

(* ================================================================== *)
(** * The timeline generator: the events and the gaps of a frame *)
(* ================================================================== *)

Module WindowFacts.

Import Inv Props LapProcessor EventManager TimelineGenerator.
Local Open Scope Q_scope.

(** The events a frame keeps are less than 250 ms from it. *)
Lemma frame_window (a : num) (t : Q) :
  (abs (a - Fin t) <? DEFAULT_FRAME_INTERVAL / of_Z 2)%num = true ->
  exists x, a = Fin x /\ Qabs (x - t) < 250.
Proof.
  assert (E : (DEFAULT_FRAME_INTERVAL / of_Z 2)%num = Fin 250) by reflexivity.
  rewrite E. destruct a as [x| | |]; try (simpl; discriminate).
  change (Fin x - Fin t)%num with (Fin (Qred (x - t))).
  unfold abs. intros H. apply ltb_fin in H.
  rewrite !Qred_correct in H.
  exists x. split; [reflexivity | exact H].
Qed.

(** The frames of the timeline, each built by [generateFrame] at its
    sample time. *)
Lemma timeline_frames
    (fuel : nat) (metadata : RaceMetadata.t) (drivers : list Driver.t)
    (lapTimings : list LapTiming.t)
    (processedLapData : list ProcessedLapData.t) (pitStops : list PitStop.t)
    (events : list RaceEvent.t) (dnfs : list (string * DnfInfo.t))
    (fastestLapDriverId : option string) (T q : Q) :
  calculateRaceDuration lapTimings = Fin T ->
  0 < q ->
  (frame_count T q < fuel)%nat ->
  exists frames,
    generateRaceTimeline fuel metadata drivers lapTimings processedLapData
      pitStops events dnfs fastestLapDriverId (Fin q)
    = Some (RaceTimeline.mk metadata drivers (Fin T) frames events)
    /\ forall k f,
         nth_error frames k = Some f ->
         exists tk,
           f = generateFrame (Fin tk) drivers processedLapData
                 (createPitStopMap pitStops) events dnfs fastestLapDriverId
                 (calculateLeaderTimes lapTimings)
                 (RaceMetadata.totalLaps metadata)
           /\ tk == inject_Z (Z.of_nat k) * q.
Proof.
  intros ET Hq Hfuel.
  assert (HT : 0 <= T).
  { pose proof (PlaybackFacts.calculateRaceDuration_nonneg lapTimings) as H.
    rewrite ET in H. apply leb_fin in H. exact H. }
  destruct (SamplingFacts.floor_bounds Hq HT) as (Hf0 & Hlo & Hhi).
  unfold generateRaceTimeline. rewrite ET.
  set (mk := fun timeMs => generateFrame timeMs drivers processedLapData
                             (createPitStopMap pitStops) events dnfs
                             fastestLapDriverId
                             (calculateLeaderTimes lapTimings)
                             (RaceMetadata.totalLaps metadata)).
  assert (En : inject_Z (Z.of_nat (frame_count T q))
               == inject_Z (Qfloor (T / q)) + 1).
  { unfold frame_count. rewrite Nat2Z.inj_succ, Z2Nat.id by exact Hf0.
    unfold Z.succ. rewrite inject_Z_plus. reflexivity. }
  destruct (@SamplingFacts.frames_from_count T q mk Hq (frame_count T q) fuel 0)
    as (frames & Ef & Hlen & Hnth); trivial.
  - rewrite En. lra.
  - intros k Hk.
    assert (Hk' : inject_Z (Z.of_nat k) <= inject_Z (Qfloor (T / q))).
    { rewrite <- Zle_Qle. unfold frame_count in Hk. lia. }
    assert (inject_Z (Z.of_nat k) * q <= inject_Z (Qfloor (T / q)) * q)
      by (apply Qmult_le_compat_r; lra).
    lra.
  - unfold zero, of_Z. change (inject_Z 0) with 0. rewrite Ef.
    exists frames. split; [reflexivity|].
    intros k f Hf. destruct (Hnth k f Hf) as (tk & -> & Htk).
    exists tk. split; [reflexivity|]. rewrite Htk. lra.
Qed.

(** X17: when the sampling interval is 500 ms or more, no event is
    attached to two frames of the timeline [generateRaceTimeline]
    returns. *)
Theorem event_on_one_frame_at_most
    (fuel : nat) (metadata : RaceMetadata.t) (drivers : list Driver.t)
    (lapTimings : list LapTiming.t)
    (processedLapData : list ProcessedLapData.t) (pitStops : list PitStop.t)
    (events : list RaceEvent.t) (dnfs : list (string * DnfInfo.t))
    (fastestLapDriverId : option string) (T q : Q) :
  calculateRaceDuration lapTimings = Fin T ->
  500 <= q ->
  (frame_count T q < fuel)%nat ->
  exists tl,
    generateRaceTimeline fuel metadata drivers lapTimings processedLapData
      pitStops events dnfs fastestLapDriverId (Fin q) = Some tl
    /\ forall j k fj fk e,
         (j < k)%nat ->
         nth_error (RaceTimeline.frames tl) j = Some fj ->
         nth_error (RaceTimeline.frames tl) k = Some fk ->
         In e (AnimationFrame.events fj) ->
         ~ In e (AnimationFrame.events fk).
Proof.
  intros ET Hq Hfuel.
  assert (Hq0 : 0 < q) by lra.
  destruct (@timeline_frames fuel metadata drivers lapTimings processedLapData
              pitStops events dnfs fastestLapDriverId T q ET Hq0 Hfuel)
    as (frames & E & Hnth).
  rewrite E. eexists. split; [reflexivity|].
  cbn [RaceTimeline.frames].
  intros j k fj fk e Hjk Hj Hk Hej Hek.
  destruct (Hnth j fj Hj) as (tj & -> & Htj).
  destruct (Hnth k fk Hk) as (tk & -> & Htk).
  unfold generateFrame in Hej, Hek. cbn [AnimationFrame.events] in Hej, Hek.
  unfold frame_events in Hej, Hek.
  apply filter_In in Hej. destruct Hej as [_ Hej].
  apply filter_In in Hek. destruct Hek as [_ Hek].
  apply frame_window in Hej. destruct Hej as (x & Ex & Hx).
  apply frame_window in Hek. destruct Hek as (x' & Ex' & Hx').
  rewrite Ex in Ex'. injection Ex' as <-.
  apply Qabs_Qlt_condition in Hx, Hx'.
  assert (Hn : inject_Z (Z.of_nat j) + 1 <= inject_Z (Z.of_nat k)).
  { change 1 with (inject_Z 1). rewrite <- inject_Z_plus, <- Zle_Qle. lia. }
  assert (Hm : (inject_Z (Z.of_nat j) + 1) * q <= inject_Z (Z.of_nat k) * q)
    by (apply Qmult_le_compat_r; lra).
  lra.
Qed.

Lemma event_on_one_frame_at_most_witness :
  calculateRaceDuration Samples2.ten_seconds = Fin (inject_Z 10000)
  /\ 500 <= inject_Z 500
  /\ (frame_count (inject_Z 10000) (inject_Z 500) < 30)%nat
  /\ exists tl,
       generateRaceTimeline 30 Samples.metadata [Driver.mk "a" "AAA"]
         Samples2.ten_seconds Samples2.ten_seconds_series []
         Samples2.two_events [] None (of_Z 500) = Some tl
       /\ forall j k fj fk e,
            (j < k)%nat ->
            nth_error (RaceTimeline.frames tl) j = Some fj ->
            nth_error (RaceTimeline.frames tl) k = Some fk ->
            In e (AnimationFrame.events fj) ->
            ~ In e (AnimationFrame.events fk).
Proof.
  assert (H1 : calculateRaceDuration Samples2.ten_seconds
               = Fin (inject_Z 10000)) by reflexivity.
  assert (H2 : 500 <= inject_Z 500) by (unfold Qle; simpl; lia).
  assert (H3 : (frame_count (inject_Z 10000) (inject_Z 500) < 30)%nat)
    by (vm_compute; lia).
  repeat (split; trivial).
  exact (@event_on_one_frame_at_most 30 Samples.metadata [Driver.mk "a" "AAA"]
           Samples2.ten_seconds Samples2.ten_seconds_series []
           Samples2.two_events [] None
           (inject_Z 10000) (inject_Z 500) H1 H2 H3).
Defined.

Lemma map_get_finite_any (K : Type) (key_eq : K -> K -> bool)
    (m : list (K * num)) (k : K) :
  finite_map m -> is_finite (or_else_opt (map_get key_eq m k)) = true.
Proof.
  induction 1 as [|[k' v] r Hv _ IH]; simpl; trivial.
  destruct (key_eq k' k); trivial.
  simpl. unfold or_else. destruct (truthy v); trivial.
Qed.

Lemma map_set_finite_any (K : Type) (key_eq : K -> K -> bool)
    (m : list (K * num)) (k : K) (v : num) :
  finite_map m -> is_finite v = true -> finite_map (map_set key_eq m k v).
Proof.
  intros Hm Hv. induction Hm as [|[k' v'] r Hv' Hr IH]; simpl.
  - repeat constructor. exact Hv.
  - destruct (key_eq k' k); constructor; trivial.
Qed.

Lemma leader_times_finite (lapTimings : list LapTiming.t) :
  Spec.finite_timings lapTimings ->
  forall acc,
    finite_map (fst acc) -> is_finite (snd acc) = true ->
    finite_map (fst (fold_left leader_step lapTimings acc)).
Proof.
  induction lapTimings as [|lt0 r IH]; intros HF [m c] Hm Hc;
    cbn [fold_left]; trivial.
  apply IH.
  - intros lt' t Hlt Ht. apply (HF lt' t); simpl; auto.
  - unfold leader_step.
    destruct (find (fun t => (LapData.position t === of_Z 1)%num)
                (LapTiming.timings lt0)) as [leader|] eqn:E; trivial.
    apply find_some in E. destruct E as [E _].
    cbn [fst]. apply map_set_finite_any; trivial.
    apply EventLogFacts.add_finite; trivial.
    apply (HF lt0 leader); simpl; auto.
  - unfold leader_step.
    destruct (find (fun t => (LapData.position t === of_Z 1)%num)
                (LapTiming.timings lt0)) as [leader|] eqn:E; trivial.
    apply find_some in E. destruct E as [E _].
    cbn [snd]. apply EventLogFacts.add_finite; trivial.
    apply (HF lt0 leader); simpl; auto.
Qed.

Lemma series_time_finite (processedLapData : list ProcessedLapData.t)
    (driverId : string) (d : ProcessedLapData.t) (lap : num) :
  Spec.finite_series processedLapData ->
  find_driver driverId processedLapData = Some d ->
  is_finite
    (or_else_opt (option_map ProcessedLap.cumulativeTimeInMs
                    (find_lap lap (ProcessedLapData.laps d)))) = true.
Proof.
  intros HS Ed. apply EventLogFacts.find_driver_In in Ed.
  destruct (find_lap lap (ProcessedLapData.laps d)) as [l|] eqn:El;
    [|reflexivity].
  apply EventLogFacts.find_lap_In in El.
  destruct (HS d l Ed El) as [_ Hc]. cbn [option_map or_else_opt].
  unfold or_else. destruct (truthy (ProcessedLap.cumulativeTimeInMs l));
    trivial.
Qed.

(** X18: when the lap times of the input and the times of the series are
    finite numbers, the gap to the leader of every driver of a frame is a
    number that is not negative, and never NaN, with the leader times
    [calculateLeaderTimes] computes. *)
Theorem gap_to_leader_not_negative
    (timeMs : num) (drivers : list Driver.t) (lapTimings : list LapTiming.t)
    (processedLapData : list ProcessedLapData.t)
    (pitStopMap : list (string * list num)) (events : list RaceEvent.t)
    (dnfs : list (string * DnfInfo.t)) (fastestLapDriverId : option string)
    (totalLaps : num) :
  Spec.finite_timings lapTimings ->
  Spec.finite_series processedLapData ->
  Forall (fun st => le zero (DriverState.gapToLeader st))
    (AnimationFrame.drivers
       (generateFrame timeMs drivers processedLapData pitStopMap events dnfs
          fastestLapDriverId (calculateLeaderTimes lapTimings) totalLaps)).
Proof.
  intros HF HS. apply FrameFacts.frame_state_inv. intros driver.
  unfold driver_state.
  destruct (find_driver (Driver.driverId driver) processedLapData) as [d|]
    eqn:Ed; [|reflexivity].
  destruct (ProcessedLapData.laps d) as [|l0 r] eqn:El; [reflexivity|].
  cbn [DriverState.gapToLeader]. rewrite <- El.
  set (ip := interpolatePosition d timeMs totalLaps).
  destruct (Interpolated.position ip === of_Z 1)%num; [reflexivity|].
  pose proof (@series_time_finite processedLapData (Driver.driverId driver) d
                (Interpolated.lap ip) HS Ed) as Hd.
  assert (Hl : is_finite
                 (or_else_opt (map_get same_value_zero
                                 (calculateLeaderTimes lapTimings)
                                 (Interpolated.lap ip))) = true).
  { apply map_get_finite_any. unfold calculateLeaderTimes.
    apply leader_times_finite; trivial. constructor. }
  pose proof (EventLogFacts.sub_finite _ _ Hd Hl) as Hg.
  destruct (sub _ _) as [g| | |]; try discriminate.
  apply max_lower; reflexivity.
Qed.

Lemma gap_to_leader_not_negative_witness :
  Spec.finite_timings Samples2.ten_seconds
  /\ Spec.finite_series Samples2.ten_seconds_series
  /\ Forall (fun st => le zero (DriverState.gapToLeader st))
       (AnimationFrame.drivers
          (generateFrame (of_Z 5000) [Driver.mk "a" "AAA"]
             Samples2.ten_seconds_series [] [] [] None
             (calculateLeaderTimes Samples2.ten_seconds) (of_Z 1))).
Proof.
  assert (H1 : Spec.finite_timings Samples2.ten_seconds).
  { intros lt0 t [<- | []] [<- | []]. reflexivity. }
  assert (H2 : Spec.finite_series Samples2.ten_seconds_series).
  { intros d l [<- | []] [<- | []]. split; reflexivity. }
  repeat (split; trivial).
  exact (@gap_to_leader_not_negative (of_Z 5000) [Driver.mk "a" "AAA"]
           Samples2.ten_seconds Samples2.ten_seconds_series [] [] [] None
           (of_Z 1) H1 H2).
Defined.

End WindowFacts.

(* ================================================================== *)
(** * The timeline generator: compression *)
(* ================================================================== *)

Module CompressFacts.

Import Inv Props LapProcessor EventManager TimelineGenerator.

Lemma last_opt_snoc (A : Type) (l : list A) (x : A) :
  last_opt (l ++ [x]) = Some x.
Proof.
  induction l as [|y r IH]; trivial.
  cbn [app last_opt]. rewrite <- IH.
  destruct (r ++ [x]) eqn:E; trivial.
  destruct r; discriminate.
Qed.

Lemma last_opt_cons (A : Type) (x : A) (l : list A) :
  exists y, last_opt (x :: l) = Some y.
Proof.
  revert x. induction l as [|z r IH]; intros x; [exists x; trivial|].
  destruct (IH z) as (y & E). exists y. exact E.
Qed.

Lemma subsequence_refl (A : Type) (l : list A) : subsequence l l.
Proof.
  induction l as [|x r IH]; [apply subsequence_nil|].
  apply subsequence_keep, IH.
Qed.

Lemma event_times_has (times : list num) (t : num) :
  forall s,
    set_has same_value_zero s t = true
    \/ (exists x, In x times /\ same_value_zero x t = true) ->
    set_has same_value_zero
      (fold_left (set_add same_value_zero) times s) t = true.
Proof.
  induction times as [|x r IH]; intros s H; cbn [fold_left].
  - destruct H as [H | (x & [] & _)]. exact H.
  - apply IH. destruct H as [H | (y & [<- | Hy] & Hs)].
    + left. apply FrameFacts.set_has_add. auto.
    + left. apply FrameFacts.set_has_add. auto.
    + right. eauto.
Qed.

Lemma has_event_in_times (events : list RaceEvent.t) (t : num) :
  has_event_at events t ->
  set_has same_value_zero (event_times events) t = true.
Proof.
  intros (e & He & Hs). unfold event_times. apply event_times_has.
  right. exists (RaceEvent.timeInMs e). split; trivial.
  apply in_map, He.
Qed.

Lemma compress_loop_subsequence (interval : num) (eventTimes : list num)
    (frames : list AnimationFrame.t) :
  forall i lastFrame,
    last_opt frames = Some lastFrame ->
    subsequence (compress_loop interval eventTimes i frames ++ [lastFrame])
      frames.
Proof.
  induction frames as [|f r IH]; intros i lastFrame Hl; [discriminate|].
  destruct r as [|g r'].
  - injection Hl as <-. cbn [compress_loop app].
    apply subsequence_keep, subsequence_nil.
  - change (last_opt (g :: r') = Some lastFrame) in Hl.
    change (compress_loop interval eventTimes i (f :: g :: r'))
      with ((if (modulo (of_Z i) interval === zero)%num
                || set_has same_value_zero eventTimes
                     (AnimationFrame.timeInMs f)
             then [f] else [])
              ++ compress_loop interval eventTimes (i + 1) (g :: r')).
    destruct ((modulo (of_Z i) interval === zero)%num
              || set_has same_value_zero eventTimes
                   (AnimationFrame.timeInMs f)).
    + cbn [app]. apply subsequence_keep, IH, Hl.
    + cbn [app]. apply subsequence_skip, IH, Hl.
Qed.

Lemma compress_loop_keeps (interval : num) (eventTimes : list num)
    (frame : AnimationFrame.t) (frames : list AnimationFrame.t) :
  set_has same_value_zero eventTimes (AnimationFrame.timeInMs frame) = true ->
  forall i lastFrame,
    In frame frames ->
    last_opt frames = Some lastFrame ->
    In frame (compress_loop interval eventTimes i frames ++ [lastFrame]).
Proof.
  intros Hev. induction frames as [|f r IH]; intros i lastFrame Hin Hl;
    [destruct Hin|].
  destruct r as [|g r'].
  - injection Hl as <-. destruct Hin as [<- | []]. simpl. auto.
  - change (last_opt (g :: r') = Some lastFrame) in Hl.
    change (compress_loop interval eventTimes i (f :: g :: r'))
      with ((if (modulo (of_Z i) interval === zero)%num
                || set_has same_value_zero eventTimes
                     (AnimationFrame.timeInMs f)
             then [f] else [])
              ++ compress_loop interval eventTimes (i + 1) (g :: r')).
    rewrite <- app_assoc. apply in_or_app.
    destruct Hin as [<- | Hin].
    + left. rewrite Hev, orb_true_r. simpl. auto.
    + right. apply IH; trivial.
Qed.

(** X19: on a timeline with at least one frame, [compressTimeline] returns
    the timeline with other frames and nothing else changed; the frames
    begin with the first frame of the input and end with its last frame;
    they are frames of the input in their order, except that a timeline of
    one frame that is above the target comes back with that frame twice;
    and every frame at the time of an event is kept. *)
Theorem compressTimeline_keeps
    (metadata : RaceMetadata.t) (drivers : list Driver.t)
    (totalDurationMs : num) (first : AnimationFrame.t)
    (rest : list AnimationFrame.t) (events : list RaceEvent.t)
    (targetFrameCount : num) :
  exists frames,
    compressTimeline
      (RaceTimeline.mk metadata drivers totalDurationMs (first :: rest) events)
      targetFrameCount
    = Some (RaceTimeline.mk metadata drivers totalDurationMs frames events)
    /\ hd_error frames = Some first
    /\ last_opt frames = last_opt (first :: rest)
    /\ (subsequence frames (first :: rest)
        \/ (rest = [] /\ frames = [first; first]))
    /\ Forall (fun frame =>
                 has_event_at events (AnimationFrame.timeInMs frame) ->
                 In frame frames)
              (first :: rest).
Proof.
  unfold compressTimeline.
  cbn [RaceTimeline.frames RaceTimeline.events RaceTimeline.metadata
       RaceTimeline.drivers RaceTimeline.totalDurationMs].
  destruct (of_Z (Z.of_nat (List.length (first :: rest))) <=? targetFrameCount)%num.
  - exists (first :: rest). repeat split.
    + left. apply subsequence_refl.
    + apply Forall_forall. auto.
  - destruct (last_opt_cons first rest) as (lastFrame & El). rewrite El.
    set (interval := ceil _). set (eventTimes := event_times events).
    eexists. split; [reflexivity|]. split; [reflexivity|]. split; [|split].
    + change (first :: compress_loop interval eventTimes 1 rest ++ [lastFrame])
        with ((first :: compress_loop interval eventTimes 1 rest)
                ++ [lastFrame]).
      apply last_opt_snoc.
    + destruct rest as [|g r'].
      * right. injection El as <-. split; reflexivity.
      * left. apply subsequence_keep, compress_loop_subsequence, El.
    + apply Forall_forall. intros frame [<- | Hin] Hev; [simpl; auto|].
      right. destruct rest as [|g r']; [destruct Hin|].
      apply compress_loop_keeps; trivial.
      apply has_event_in_times, Hev.
Qed.

End CompressFacts.

(* ================================================================== *)
(** * The playback engine: frames and sessions *)
(* ================================================================== *)

Module SessionFacts.

Import Props PlaybackState Animation.

Lemma find_frame_loop_range (timeMs : num) (frames : list AnimationFrame.t) :
  forall i r,
    find_frame_loop frames i timeMs = Some r ->
    (0 <= i)%Z ->
    (0 <= r <= Z.max 0 (i + Z.of_nat (List.length frames) - 2))%Z.
Proof.
  induction frames as [|f rest IH]; intros i r H Hi; [discriminate|].
  cbn [find_frame_loop] in H. cbn [List.length].
  destruct (AnimationFrame.timeInMs f >? timeMs)%num.
  - injection H as <-. lia.
  - apply IH in H; lia.
Qed.

Lemma findFrameIndex_range (metadata : RaceMetadata.t)
    (drivers : list Driver.t) (totalDurationMs : num)
    (first : AnimationFrame.t) (rest : list AnimationFrame.t)
    (events : list RaceEvent.t) (timeMs : num) :
  (0 <= findFrameIndex
          (Some (RaceTimeline.mk metadata drivers totalDurationMs
                   (first :: rest) events)) timeMs
   < Z.of_nat (List.length (first :: rest)))%Z.
Proof.
  unfold findFrameIndex. cbn [RaceTimeline.frames].
  destruct (find_frame_loop (first :: rest) 0 timeMs) as [r|] eqn:E.
  - apply find_frame_loop_range in E; [|lia]. cbn [List.length] in *. lia.
  - cbn [List.length]. lia.
Qed.

Lemma perform_index (metadata : RaceMetadata.t)
    (drivers : list Driver.t) (totalDurationMs : num)
    (first : AnimationFrame.t) (rest : list AnimationFrame.t)
    (events : list RaceEvent.t) (st : PlaybackState.t) (a : action) :
  let tl := Some (RaceTimeline.mk metadata drivers totalDurationMs
                    (first :: rest) events) in
  (0 <= currentFrameIndex st < Z.of_nat (List.length (first :: rest)))%Z ->
  (0 <= currentFrameIndex (perform tl st a)
   < Z.of_nat (List.length (first :: rest)))%Z.
Proof.
  intros tl H.
  pose proof (findFrameIndex_range metadata drivers totalDurationMs first
                rest events) as HF.
  destruct a as [[| | |s|t|p]|d]; cbn [perform apply]; trivial.
  - cbn [restart currentFrameIndex List.length]. lia.
  - apply HF.
  - apply HF.
  - unfold tl, animate. cbn [RaceTimeline.totalDurationMs RaceTimeline.frames].
    destruct (_ >=? _)%num; cbn [currentFrameIndex].
    + cbn [List.length]. lia.
    + apply HF.
Qed.

(** X20: with a timeline of at least one frame loaded, after any sequence
    of calls of the operations and of [animate] callbacks from the initial
    state, the current frame index designates a frame: [getFrame] of it is
    a frame of the timeline, never null. *)
Theorem current_frame_available
    (metadata : RaceMetadata.t) (drivers : list Driver.t)
    (totalDurationMs : num) (first : AnimationFrame.t)
    (rest : list AnimationFrame.t) (events : list RaceEvent.t)
    (actions : list action) :
  let tl := Some (RaceTimeline.mk metadata drivers totalDurationMs
                    (first :: rest) events) in
  exists frame,
    getFrame tl (currentFrameIndex (session tl actions initial)) = Some frame
    /\ In frame (first :: rest).
Proof.
  intros tl.
  assert (H : (0 <= currentFrameIndex (session tl actions initial)
               < Z.of_nat (List.length (first :: rest)))%Z).
  { unfold session.
    assert (H0 : (0 <= currentFrameIndex initial
                  < Z.of_nat (List.length (first :: rest)))%Z)
      by (cbn [initial currentFrameIndex List.length]; lia).
    revert H0. generalize initial.
    induction actions as [|a r IH]; intros st Hst; cbn [fold_left]; trivial.
    apply IH. apply perform_index, Hst. }
  set (i := currentFrameIndex (session tl actions initial)) in *.
  unfold getFrame, tl. cbn [RaceTimeline.frames].
  assert (E1 : (i <? 0)%Z = false) by (apply Z.ltb_ge; lia).
  assert (E2 : (Z.of_nat (List.length (first :: rest)) <=? i)%Z = false)
    by (apply Z.leb_gt; lia).
  rewrite E1, E2. cbn [orb].
  destruct (nth_error (first :: rest) (Z.to_nat i)) as [frame|] eqn:E.
  - exists frame. split; trivial. eapply nth_error_In, E.
  - apply nth_error_None in E. lia.
Qed.

Lemma find_frame_loop_spec (timeMs : num) (frames : list AnimationFrame.t) :
  forall i,
    match find_frame_loop frames i timeMs with
    | Some r =>
        exists n f,
          r = Z.max 0 (i + Z.of_nat n - 1)
          /\ Forall (not_after timeMs) (firstn n frames)
          /\ nth_error frames n = Some f
          /\ (AnimationFrame.timeInMs f >? timeMs)%num = true
    | None => Forall (not_after timeMs) frames
    end.
Proof.
  induction frames as [|f rest IH]; intros i; cbn [find_frame_loop];
    [constructor|].
  destruct (AnimationFrame.timeInMs f >? timeMs)%num eqn:E.
  - exists 0%nat, f. split; [f_equal; lia|].
    split; [constructor|]. split; [reflexivity | exact E].
  - specialize (IH (i + 1)%Z).
    destruct (find_frame_loop rest (i + 1) timeMs) as [r|].
    + destruct IH as (n & g & -> & Hb & Hn & Hg).
      exists (S n), g. split; [f_equal; lia|].
      split; [cbn [firstn]; constructor; trivial|].
      split; [exact Hn | exact Hg].
    + constructor; trivial.
Qed.

(** When the first frame is not after the time, no frame up to the index
    is, and the frame that follows the index is. *)
Lemma frames_up_to_index
    (metadata : RaceMetadata.t) (drivers : list Driver.t)
    (totalDurationMs : num) (first : AnimationFrame.t)
    (rest : list AnimationFrame.t) (events : list RaceEvent.t)
    (timeMs : num) :
  let frames := first :: rest in
  let index :=
    Z.to_nat (findFrameIndex
                (Some (RaceTimeline.mk metadata drivers totalDurationMs
                         frames events)) timeMs) in
  (AnimationFrame.timeInMs first >? timeMs)%num = false ->
  Forall (not_after timeMs) (firstn (S index) frames)
  /\ match nth_error frames (S index) with
     | Some next => (AnimationFrame.timeInMs next >? timeMs)%num = true
     | None => True
     end.
Proof.
  intros frames index E. subst index frames.
  unfold findFrameIndex. cbn [RaceTimeline.frames find_frame_loop].
  rewrite E. change (0 + 1)%Z with 1%Z.
  pose proof (find_frame_loop_spec timeMs rest 1) as H.
  destruct (find_frame_loop rest 1 timeMs) as [r|].
  - destruct H as (n & f & -> & Hb & Hn & Hf).
    replace (Z.to_nat (Z.max 0 (1 + Z.of_nat n - 1))) with n by lia.
    cbn [firstn nth_error]. rewrite Hn. split; trivial.
    constructor; trivial.
  - replace (Z.to_nat (Z.of_nat (List.length (first :: rest)) - 1))
      with (List.length rest) by (cbn [List.length]; lia).
    cbn [firstn nth_error]. rewrite firstn_all.
    split; [constructor; trivial|].
    destruct (nth_error rest (List.length rest)) eqn:En; trivial.
    assert (Hn : nth_error rest (List.length rest) <> None) by congruence.
    apply nth_error_Some in Hn. lia.
Qed.

(** X21: on a timeline of at least one frame, [findFrameIndex] is 0 when
    the first frame is after the time; otherwise no frame up to the index
    it returns is after the time, and the frame that follows, if there is
    one, is after the time. *)
Theorem findFrameIndex_brackets
    (metadata : RaceMetadata.t) (drivers : list Driver.t)
    (totalDurationMs : num) (first : AnimationFrame.t)
    (rest : list AnimationFrame.t) (events : list RaceEvent.t)
    (timeMs : num) :
  let frames := first :: rest in
  let index :=
    Z.to_nat (findFrameIndex
                (Some (RaceTimeline.mk metadata drivers totalDurationMs
                         frames events)) timeMs) in
  if (AnimationFrame.timeInMs first >? timeMs)%num then index = 0%nat
  else
    Forall (not_after timeMs) (firstn (S index) frames)
    /\ match nth_error frames (S index) with
       | Some next => (AnimationFrame.timeInMs next >? timeMs)%num = true
       | None => True
       end.
Proof.
  intros frames index.
  destruct (AnimationFrame.timeInMs first >? timeMs)%num eqn:E.
  - subst index frames. unfold findFrameIndex.
    cbn [RaceTimeline.frames find_frame_loop]. rewrite E. reflexivity.
  - apply frames_up_to_index, E.
Qed.

End SessionFacts.

(* ================================================================== *)
(** * The playback engine: seeking and the end of playback *)
(* ================================================================== *)

Module SeekFacts.

Import Props PlaybackState Animation.
Local Open Scope Q_scope.







End SeekFacts.

(* ================================================================== *)
(** * The playback engine: the clock and the interpolated states *)
(* ================================================================== *)

Module ClockFacts.

Import Props PlaybackState Animation.
Local Open Scope Q_scope.

Lemma clamp_within (t : num) (T : Q) :
  0 <= T -> is_nan t = false ->
  exists c, max zero (min t (Fin T)) = Fin c /\ 0 <= c /\ c <= T.
Proof.
  intros HT Hn. destruct t as [x| | |]; try discriminate.
  - rewrite min_unfold by reflexivity.
    destruct (ltb (Fin T) (Fin x)) eqn:E1;
      rewrite max_unfold by reflexivity.
    + destruct (ltb zero (Fin T)) eqn:E2.
      * exists T. repeat split; trivial. lra.
      * exists (inject_Z 0). change (inject_Z 0) with 0.
        repeat split; trivial. lra.
    + apply ltb_fin_false in E1.
      destruct (ltb zero (Fin x)) eqn:E2.
      * apply ltb_fin in E2. change (inject_Z 0) with 0 in E2.
        exists x. repeat split; trivial. lra.
      * exists (inject_Z 0). change (inject_Z 0) with 0.
        repeat split; trivial. lra.
  - assert (E : min PInf (Fin T) = Fin T) by reflexivity. rewrite E.
    rewrite max_unfold by reflexivity.
    destruct (ltb zero (Fin T)) eqn:E2.
    + exists T. repeat split; trivial. lra.
    + exists (inject_Z 0). change (inject_Z 0) with 0.
      repeat split; trivial. lra.
  - exists (inject_Z 0). change (inject_Z 0) with 0.
    repeat split; trivial. lra.
Qed.

Lemma perform_clock (metadata : RaceMetadata.t) (drivers : list Driver.t)
    (T : Q) (frames : list AnimationFrame.t) (events : list RaceEvent.t)
    (st : PlaybackState.t) (a : action) :
  0 <= T ->
  regular_action a ->
  within_race T st ->
  within_race T
    (perform (Some (RaceTimeline.mk metadata drivers (Fin T) frames events))
       st a).
Proof.
  intros HT Hreg [(c & Hc & H0 & H1) (s0 & Hs & Hs0)].
  assert (Ediv : forall x,
             (Fin x / of_Z 100)%num = Fin (Qred (x / inject_Z 100)))
    by reflexivity.
  destruct a as [[| | |s|t|p]|d]; cbn [perform apply regular_action] in *.
  - split; [exists c | exists s0]; auto.
  - split; [exists c | exists s0]; auto.
  - split; [exists (inject_Z 0) | exists s0]; auto.
    change (inject_Z 0) with 0. repeat split; trivial. lra.
  - split; [exists c; auto | exact Hreg].
  - unfold seekTo. cbn [RaceTimeline.totalDurationMs currentTimeMs speed].
    split; [apply clamp_within; trivial | exists s0; auto].
  - unfold seekToPercent, seekTo.
    cbn [RaceTimeline.totalDurationMs currentTimeMs speed].
    split; [apply clamp_within; trivial | exists s0; auto].
    destruct p as [x| | |]; try discriminate.
    rewrite Ediv. reflexivity.
  - destruct Hreg as (q & -> & Hq).
    unfold animate. cbn [RaceTimeline.totalDurationMs RaceTimeline.frames].
    rewrite Hc, Hs. cbn [add mul of_Z].
    assert (Hp : 0 <= q * s0) by (apply Qmult_le_0_compat; trivial).
    match goal with |- context [(?n >=? Fin T)%num] =>
      destruct (n >=? Fin T)%num eqn:E end;
      cbn [currentTimeMs speed]; rewrite ?Hs.
    + split; [exists T | exists s0]; auto. repeat split; trivial. lra.
    + unfold geb in E. apply leb_fin_false in E.
      rewrite !Qred_correct in E. change (inject_Z 20) with 20 in *.
      split; [eexists; split; [reflexivity|] | exists s0; auto].
      rewrite !Qred_correct. split; lra.
Qed.

(** X22: with a timeline loaded whose duration is a number that is not
    negative, the clock stays within the race: after any sequence of calls
    and [animate] callbacks from the initial state, in which time does not
    go back between callbacks, no speed set is negative, and the targets of
    the seeks are numbers, the clock is a number of [0, totalDurationMs]. *)
Theorem clock_stays_within_race
    (metadata : RaceMetadata.t) (drivers : list Driver.t) (T : Q)
    (frames : list AnimationFrame.t) (events : list RaceEvent.t)
    (actions : list action) :
  0 <= T ->
  Forall regular_action actions ->
  within_race T
    (session (Some (RaceTimeline.mk metadata drivers (Fin T) frames events))
       actions initial).
Proof.
  intros HT Hreg. unfold session.
  assert (H0 : within_race T initial).
  { split.
    - exists (inject_Z 0). change (inject_Z 0) with 0.
      repeat split; trivial. lra.
    - exists (inject_Z 1). split; [reflexivity|].
      change (inject_Z 1) with 1. lra. }
  revert H0. generalize initial.
  induction Hreg as [|a r Ha _ IH]; intros st Hst; cbn [fold_left]; trivial.
  apply IH. apply perform_clock; trivial.
Qed.

Lemma clock_stays_within_race_witness :
  0 <= inject_Z 10000
  /\ Forall regular_action Samples2.a_session
  /\ within_race (inject_Z 10000)
       (session (Some Samples.short_timeline) Samples2.a_session initial).
Proof.
  assert (H1 : 0 <= inject_Z 10000) by (unfold Qle; simpl; lia).
  assert (Hn : forall z, (0 <= z)%Z -> nonneg (of_Z z)).
  { intros z Hz. exists (inject_Z z). split; [reflexivity|].
    change 0 with (inject_Z 0). rewrite <- Zle_Qle. exact Hz. }
  assert (H2 : Forall regular_action Samples2.a_session).
  { unfold Samples2.a_session.
    repeat constructor; cbn [regular_action]; trivial; apply Hn; lia. }
  repeat (split; trivial);
    apply (@clock_stays_within_race Samples.metadata [] (inject_Z 10000)
             [Samples.empty_frame 0; Samples.empty_frame 5000;
              Samples.empty_frame 10000] [] Samples2.a_session H1 H2).
Defined.

End ClockFacts.

Module InterpolationFacts.

Import Props PlaybackState Animation.
Local Open Scope Q_scope.

Lemma hd_skipn (A : Type) (l : list A) :
  forall n, hd_error (skipn n l) = nth_error l n.
Proof.
  induction l as [|x r IH]; intros [|n]; trivial. cbn [skipn nth_error].
  apply IH.
Qed.

Lemma skipn_succ (A : Type) (l : list A) :
  forall n, skipn (S n) l = tl (skipn n l).
Proof.
  induction l as [|x r IH]; intros [|n]; trivial.
  change (skipn (S (S n)) (x :: r)) with (skipn (S n) r).
  change (skipn (S n) (x :: r)) with (skipn n r). apply IH.
Qed.

Lemma getFrame_nth (metadata : RaceMetadata.t) (drivers : list Driver.t)
    (totalDurationMs : num) (frames : list AnimationFrame.t)
    (events : list RaceEvent.t) (n : nat) :
  getFrame (Some (RaceTimeline.mk metadata drivers totalDurationMs frames
                    events)) (Z.of_nat n)
  = nth_error frames n.
Proof.
  unfold getFrame. cbn [RaceTimeline.frames].
  assert (E1 : (Z.of_nat n <? 0)%Z = false) by (apply Z.ltb_ge; lia).
  rewrite E1, Nat2Z.id. cbn [orb].
  destruct (Z.of_nat (List.length frames) <=? Z.of_nat n)%Z eqn:E2; trivial.
  apply Z.leb_le in E2. symmetry. apply nth_error_None. lia.
Qed.

Lemma interpolate_driver_same (t : num) (nextDrivers : list DriverState.t)
    (driver : DriverState.t) :
  same_but_motion driver (interpolate_driver t nextDrivers driver).
Proof.
  unfold interpolate_driver, same_but_motion.
  destruct (find _ nextDrivers); cbn; repeat split.
Qed.

(** X23: on a timeline of at least one frame, [interpolateDrivers] returns
    one state for each state of the frame [findFrameIndex] gives, in the
    same order and with the same driver, flags, gap and last lap time: only
    position, progress and lap are interpolated.  When no frame follows,
    the states are those of the frame; and a driver who is not in the next
    frame keeps his state. *)
Theorem interpolateDrivers_keeps_roster
    (metadata : RaceMetadata.t) (drivers : list Driver.t)
    (totalDurationMs : num) (first : AnimationFrame.t)
    (rest : list AnimationFrame.t) (events : list RaceEvent.t)
    (timeMs : num) :
  let tl := Some (RaceTimeline.mk metadata drivers totalDurationMs
                    (first :: rest) events) in
  exists frame,
    getFrame tl (findFrameIndex tl timeMs) = Some frame
    /\ Forall2 same_but_motion (AnimationFrame.drivers frame)
         (interpolateDrivers tl timeMs)
    /\ match getFrame tl (findFrameIndex tl timeMs + 1) with
       | None => interpolateDrivers tl timeMs = AnimationFrame.drivers frame
       | Some next =>
           Forall (fun driver =>
                     find (fun d => String.eqb (DriverState.driverId d)
                                      (DriverState.driverId driver))
                          (AnimationFrame.drivers next) = None ->
                     In driver (interpolateDrivers tl timeMs))
                  (AnimationFrame.drivers frame)
       end.
Proof.
  intros tl.
  pose proof (SessionFacts.findFrameIndex_range metadata drivers
                totalDurationMs first rest events timeMs) as Hr.
  fold tl in Hr. unfold interpolateDrivers. fold tl.
  set (i := findFrameIndex tl timeMs) in *.
  set (n := Z.to_nat i).
  assert (G1 : getFrame tl i = nth_error (first :: rest) n).
  { replace i with (Z.of_nat n) by (unfold n; lia). apply getFrame_nth. }
  assert (G2 : getFrame tl (i + 1) = nth_error (first :: rest) (S n)).
  { replace (i + 1)%Z with (Z.of_nat (S n)) by (unfold n; lia).
    apply getFrame_nth. }
  rewrite G1, G2. unfold tl. cbn [RaceTimeline.frames].
  rewrite <- (hd_skipn (first :: rest) n), <- (hd_skipn (first :: rest) (S n)).
  rewrite (skipn_succ (first :: rest) n).
  destruct (skipn n (first :: rest)) as [|frame after] eqn:E.
  - assert (H : nth_error (first :: rest) n = None)
      by (rewrite <- hd_skipn, E; reflexivity).
    apply nth_error_None in H. lia.
  - exists frame. split; [reflexivity|]. cbn [List.tl hd_error].
    destruct after as [|next after']; cbn [hd_error].
    + split; trivial.
      induction (AnimationFrame.drivers frame) as [|d r IH]; constructor;
        trivial.
      unfold same_but_motion. repeat split.
    + split.
      * induction (AnimationFrame.drivers frame) as [|d r IH]; cbn [map];
          constructor; trivial.
        apply interpolate_driver_same.
      * apply Forall_forall. intros driver Hd Hf.
        apply in_map_iff. exists driver. split; trivial.
        unfold interpolate_driver. rewrite Hf. reflexivity.
Qed.

Lemma Qtrunc_floor (q : Q) : 0 <= q -> Qtrunc q = Qfloor q.
Proof.
  destruct q as [n d]. unfold Qle, Qtrunc, Qfloor. simpl. intros H.
  apply Z.quot_div_nonneg; lia.
Qed.

Lemma modulo_100 (w : Q) :
  0 <= w ->
  exists r, modulo (Fin w) (of_Z 100) = Fin r /\ 0 <= r /\ r < 100.
Proof.
  intros Hw.
  assert (E : modulo (Fin w) (of_Z 100)
              = Fin (Qred (w - inject_Z 100
                               * inject_Z (Qtrunc (w / inject_Z 100)))))
    by reflexivity.
  rewrite E. eexists. split; [reflexivity|].
  change (inject_Z 100) with 100.
  set (x := w / 100).
  assert (Ex : w == x * 100) by (unfold x; field).
  assert (Hx : 0 <= x) by (unfold x; apply Qle_shift_div_l; lra).
  rewrite Qred_correct, Qtrunc_floor by exact Hx.
  pose proof (Qfloor_le x) as Hlo. pose proof (Qlt_floor x) as Hhi.
  rewrite inject_Z_plus in Hhi. change (inject_Z 1) with 1 in Hhi.
  split; lra.
Qed.

Lemma div_pos (x y : Q) :
  0 < y -> (Fin x / Fin y)%num = Fin (Qred (x / y)).
Proof.
  intros Hy. unfold div, Qsign. destruct (y ?= 0) eqn:E; trivial.
  apply Qeq_alt in E. lra.
Qed.

(** The interpolation factor between a frame that is not after the time
    and the next one. *)
Lemma factor_bounds (cur next timeMs : Q) :
  cur <= timeMs ->
  exists t,
    (if Fin next - Fin cur >? zero
     then min (of_Z 1) ((Fin timeMs - Fin cur) / (Fin next - Fin cur))
     else zero)%num = Fin t
    /\ 0 <= t /\ t <= 1.
Proof.
  intros H. cbn [sub].
  destruct (Fin (Qred (next - cur)) >? zero)%num eqn:E.
  - unfold gtb in E. apply ltb_fin in E. rewrite Qred_correct in E.
    change (inject_Z 0) with 0 in E.
    rewrite div_pos by (rewrite Qred_correct; lra).
    rewrite min_unfold by reflexivity.
    match goal with |- context [ltb ?a ?b] => destruct (ltb a b) eqn:E2 end.
    + apply ltb_fin in E2. change (inject_Z 1) with 1 in E2.
      eexists. split; [reflexivity|].
      rewrite !Qred_correct in *. split; [|lra].
      apply Qle_shift_div_l; lra.
    + exists (inject_Z 1). change (inject_Z 1) with 1.
      repeat split; lra.
  - exists (inject_Z 0). change (inject_Z 0) with 0. repeat split; lra.
Qed.

Lemma interpolate_driver_on_track (t : Q) (nextDrivers : list DriverState.t)
    (driver : DriverState.t) :
  0 <= t -> t <= 1 ->
  on_track driver -> Forall on_track nextDrivers ->
  on_track (interpolate_driver (Fin t) nextDrivers driver).
Proof.
  intros Ht0 Ht1 Hd Hn. unfold interpolate_driver.
  destruct (find _ nextDrivers) as [nextDriver|] eqn:Ef; [|exact Hd].
  apply find_some in Ef. destruct Ef as [Hin _].
  rewrite Forall_forall in Hn. destruct (Hn nextDriver Hin) as (n & En & Hn0 & Hn1).
  destruct Hd as (p & Ep & Hp0 & Hp1).
  unfold on_track. cbn [DriverState.progress]. rewrite Ep, En.
  assert (H1 : 0 <= p * (1 - t)) by (apply Qmult_le_0_compat; lra).
  assert (H2 : 0 <= n * t) by (apply Qmult_le_0_compat; lra).
  assert (H3 : 0 <= (100 - p) * (1 - t)) by (apply Qmult_le_0_compat; lra).
  assert (H4 : 0 <= (100 - n) * t) by (apply Qmult_le_0_compat; lra).
  destruct ((DriverState.lap nextDriver >? DriverState.lap driver)
            && (Fin n <? Fin p))%num.
  - change (of_Z 100 - Fin p)%num with (Fin (Qred (inject_Z 100 - p))).
    cbn [add sub mul].
    match goal with |- context [(Fin ?w >? of_Z 100)%num] =>
      set (W := w);
      assert (HW : W == p + (100 - p + n) * t)
        by (unfold W; rewrite !Qred_correct;
            change (inject_Z 100) with 100; reflexivity);
      destruct (Fin W >? of_Z 100)%num eqn:E
    end.
    + destruct (@modulo_100 W) as (r & -> & Hr0 & Hr1); [lra|].
      exists r. repeat split; trivial. lra.
    + unfold gtb in E. apply ltb_fin_false in E.
      change (inject_Z 100) with 100 in E.
      exists W. repeat split; trivial. lra.
  - cbn [add sub mul]. eexists. split; [reflexivity|].
    rewrite !Qred_correct. split; lra.
Qed.

Lemma In_skipn (A : Type) (x : A) (l : list A) (n : nat) :
  In x (skipn n l) -> In x l.
Proof.
  intros H. rewrite <- (firstn_skipn n l). apply in_or_app. auto.
Qed.

Lemma Forall_firstn_nth (A : Type) (P : A -> Prop) (l : list A) :
  forall n x,
    Forall P (firstn (S n) l) -> nth_error l n = Some x -> P x.
Proof.
  induction l as [|y r IH]; intros [|n] x H E; try discriminate.
  - injection E as <-. inversion H; trivial.
  - cbn [firstn] in H. inversion H; subst. eapply IH; eauto.
Qed.

(** X24: on a timeline of at least one frame in which the time of every
    frame is a finite number that is not negative and the progress of
    every state is a number of [0, 100], and for a time the first frame is
    not after, the progress of every state [interpolateDrivers] returns is
    a number of [0, 100]: also across the end of a lap, where the progress
    wraps around. *)
Theorem interpolated_progress_on_track
    (metadata : RaceMetadata.t) (drivers : list Driver.t)
    (totalDurationMs : num) (first : AnimationFrame.t)
    (rest : list AnimationFrame.t) (events : list RaceEvent.t)
    (timeMs : Q) :
  Forall (fun frame =>
            nonneg (AnimationFrame.timeInMs frame)
            /\ Forall on_track (AnimationFrame.drivers frame))
         (first :: rest) ->
  le (AnimationFrame.timeInMs first) (Fin timeMs) ->
  Forall on_track
    (interpolateDrivers
       (Some (RaceTimeline.mk metadata drivers totalDurationMs
                (first :: rest) events))
       (Fin timeMs)).
Proof.
  intros Hframes Hfirst.
  assert (E0 : (AnimationFrame.timeInMs first >? Fin timeMs)%num = false)
    by (apply leb_ltb_false, Hfirst).
  destruct (@SessionFacts.frames_up_to_index metadata drivers totalDurationMs
              first rest events (Fin timeMs) E0) as [Hbefore _].
  pose proof (SessionFacts.findFrameIndex_range metadata drivers
                totalDurationMs first rest events (Fin timeMs)) as Hr.
  unfold interpolateDrivers. cbn [RaceTimeline.frames].
  set (n := Z.to_nat (findFrameIndex _ _)) in *.
  rewrite Forall_forall in Hframes.
  destruct (skipn n (first :: rest)) as [|frame after] eqn:E; [constructor|].
  assert (Hin : forall f, In f (frame :: after) -> In f (first :: rest)).
  { intros f Hf. apply In_skipn with n. rewrite E. exact Hf. }
  assert (Hn : nth_error (first :: rest) n = Some frame)
    by (rewrite <- hd_skipn, E; reflexivity).
  destruct after as [|next after'].
  - apply (Hframes frame). apply Hin. simpl. auto.
  - destruct (Hframes frame) as [(c & Ec & _) Hf]; [apply Hin; simpl; auto|].
    destruct (Hframes next) as [(x & Ex & _) Hnx]; [apply Hin; simpl; auto|].
    pose proof (Forall_firstn_nth _ _ Hbefore Hn) as Hc.
    unfold not_after in Hc. rewrite Ec, Ex. rewrite Ec in Hc.
    unfold gtb in Hc. apply ltb_fin_false in Hc.
    destruct (@factor_bounds c x timeMs Hc) as (t & -> & Ht0 & Ht1).
    apply Forall_forall. intros st Hst. apply in_map_iff in Hst.
    destruct Hst as (d & <- & Hd).
    apply interpolate_driver_on_track; trivial.
    rewrite Forall_forall in Hf. apply Hf, Hd.
Qed.

Lemma interpolated_progress_on_track_witness :
  Forall (fun frame =>
            nonneg (AnimationFrame.timeInMs frame)
            /\ Forall on_track (AnimationFrame.drivers frame))
         Samples2.two_frames
  /\ le zero (Fin (inject_Z 500))
  /\ Forall on_track
       (interpolateDrivers
          (Some (RaceTimeline.mk Samples.metadata [] (of_Z 1000)
                   Samples2.two_frames []))
          (Fin (inject_Z 500))).
Proof.
  assert (Ht : forall z, (0 <= z <= 100)%Z ->
                 on_track (DriverState.mk "a" (of_Z 1) (of_Z z) (of_Z 1)
                             false false false zero zero)
                 /\ on_track (DriverState.mk "a" (of_Z 1) (of_Z z) (of_Z 2)
                                false false false zero zero)).
  { intros z Hz.
    split; exists (inject_Z z); (split; [reflexivity|]);
      change 0 with (inject_Z 0); change 100 with (inject_Z 100);
      rewrite <- !Zle_Qle; lia. }
  assert (Hn : forall z, (0 <= z)%Z -> nonneg (of_Z z)).
  { intros z Hz. exists (inject_Z z). split; [reflexivity|].
    change 0 with (inject_Z 0). rewrite <- Zle_Qle. exact Hz. }
  assert (H1 : Forall (fun frame =>
                         nonneg (AnimationFrame.timeInMs frame)
                         /\ Forall on_track (AnimationFrame.drivers frame))
                      Samples2.two_frames).
  { unfold Samples2.two_frames.
    repeat constructor; cbn [AnimationFrame.drivers AnimationFrame.timeInMs];
      try (apply Hn; lia); apply Ht; lia. }
  assert (H2 : le zero (Fin (inject_Z 500))) by reflexivity.
  repeat (split; trivial);
    apply (@interpolated_progress_on_track Samples.metadata [] (of_Z 1000)
             _ _ [] (inject_Z 500) H1 H2).
Defined.

End InterpolationFacts.

(* ================================================================== *)
(** * The durations of the pit stops *)
(* ================================================================== *)

Module PitStopFacts.

Import Props LapProcessor.
Local Open Scope Q_scope.

Lemma span_digits_app (ds r : list ascii) (x : ascii) :
  forallb is_digit ds = true -> is_digit x = false ->
  span_digits (ds ++ x :: r) = (ds, x :: r).
Proof.
  intros Hd Hx. induction ds as [|c ds IH]; cbn [app span_digits forallb] in *.
  - rewrite Hx. reflexivity.
  - apply andb_prop in Hd. destruct Hd as [Hc Hd].
    rewrite Hc, (IH Hd). reflexivity.
Qed.

(** [parseFloat] stops at the colon. *)
Lemma parseFloat_minutes (c : ascii) (m r : list ascii) :
  forallb is_digit (c :: m) = true ->
  exists q,
    parseFloat ((c :: m) ++ ":"%char :: r) = Fin q
    /\ q == inject_Z (digits_value (c :: m)).
Proof.
  intros H. unfold parseFloat.
  pose proof H as H'. cbn [forallb] in H'. apply andb_prop in H'.
  destruct H' as [Hc _].
  change ((c :: m) ++ ":"%char :: r) with (c :: (m ++ ":"%char :: r)).
  destruct (ParseFacts.digit_head c (m ++ ":"%char :: r) Hc)
    as (-> & -> & -> & _).
  change (c :: (m ++ ":"%char :: r)) with ((c :: m) ++ ":"%char :: r).
  rewrite (@span_digits_app (c :: m) r ":"%char H eq_refl).
  eexists. split; [reflexivity|].
  rewrite Qred_correct, app_nil_r.
  change (exponent_part (":"%char :: r) - Z.of_nat (List.length (@nil ascii)))%Z
    with 0%Z.
  change (Qpower (10 # 1) 0) with 1. ring.
Qed.

Lemma split_without_colon (l : list ascii) :
  includes ":" l = false -> split_on ":" l = [l].
Proof.
  unfold includes.
  induction l as [|c r IH]; cbn [existsb split_on]; trivial.
  intros H. apply orb_false_elim in H. destruct H as [Hc Hr].
  rewrite Ascii.eqb_sym, Hc, (IH Hr). reflexivity.
Qed.

Lemma duration_is_read (duration : string) :
  duration_read duration
    (parseFloat (list_ascii_of_string duration) * of_Z 1000)%num.
Proof.
  unfold duration_read. cbv zeta. split; [|split].
  - intros Hne H.
    rewrite (ParseFacts.lapTimeToMs_nonempty Hne), (split_without_colon _ H).
    reflexivity.
  - intros H _. unfold Spec.is_minutes_shape in H.
    destruct (span_digits (list_ascii_of_string duration)) as [m rest] eqn:E.
    destruct m as [|c m']; [discriminate H|].
    destruct rest as [|sep r]; [discriminate H|].
    apply andb_prop in H. destruct H as [Hsep _].
    apply Ascii.eqb_eq in Hsep. subst sep.
    destruct (ParseFacts.span_digits_split _ E) as [-> Hm].
    destruct (parseFloat_minutes c m' r Hm) as (q & -> & Hq).
    cbn [mul of_Z fst]. eexists. split; [reflexivity|].
    rewrite Qred_correct, Hq, inject_Z_mult.
    change (inject_Z 1000) with 1000. ring.
  - intros ->. reflexivity.
Qed.

(** X25: [processPitStops] returns one stop for each record, in order, for
    the same driver; the duration in milliseconds of a record whose
    duration has no colon is what [lapTimeToMs] makes of it, but of a
    duration of the shape M:SS.mmm only the minutes are read, as seconds
    (1:02.345 gives 1000, where [lapTimeToMs] gives 62345), and an empty
    duration gives NaN. *)
Theorem pit_stop_durations (jolpicaPitStops : list JolpicaPitStop.t) :
  Forall2 (fun record stop =>
             PitStop.driverId stop = JolpicaPitStop.driverId record
             /\ duration_read (JolpicaPitStop.duration record)
                  (PitStop.durationInMs stop))
          jolpicaPitStops (processPitStops jolpicaPitStops)
  /\ map PitStop.durationInMs
       (processPitStops [JolpicaPitStop.mk "a" "12" "1" "14:05:11" "1:02.345"])
     = [of_Z 1000]
  /\ lapTimeToMs "1:02.345" = of_Z 62345.
Proof.
  split; [|split; reflexivity].
  unfold processPitStops.
  induction jolpicaPitStops as [|p r IH]; cbn [map]; constructor; trivial.
  cbn [PitStop.driverId PitStop.durationInMs]. split; [reflexivity|].
  apply duration_is_read.
Qed.

End PitStopFacts.

(* ================================================================== *)
(** * The event utilities of the client *)
(* ================================================================== *)

Module EventUtilFacts.

Import Props EventUtil.
Local Open Scope Q_scope.

(** On numbers, the comparator puts the later event first. *)
Lemma latest_first_later (a b : num) :
  is_nan a = false -> is_nan b = false ->
  (b - a >? zero)%num = ltb a b.
Proof.
  destruct a as [x| | |], b as [y| | |]; intros Ha Hb; try discriminate;
    try reflexivity.
  cbn [sub]. unfold gtb.
  destruct (ltb (Fin x) (Fin y)) eqn:E.
  - apply ltb_fin in E. apply ltb_fin. rewrite Qred_correct.
    change (inject_Z 0) with 0. lra.
  - apply ltb_fin_false in E. apply ltb_fin_false. rewrite Qred_correct.
    change (inject_Z 0) with 0. lra.
Qed.

Lemma leb_total (a b : num) :
  is_nan a = false -> is_nan b = false -> ltb a b = false -> leb b a = true.
Proof.
  destruct a as [x| | |], b as [y| | |]; intros Ha Hb; try discriminate;
    try reflexivity.
  intros E. apply ltb_fin_false in E. apply leb_fin, E.
Qed.

Lemma sort_insert_latest (x : RaceEvent.t) (l : list RaceEvent.t) :
  is_nan (RaceEvent.timeInMs x) = false ->
  Forall (fun e => is_nan (RaceEvent.timeInMs e) = false) l ->
  StronglySorted (fun a b => le (RaceEvent.timeInMs b) (RaceEvent.timeInMs a)) l ->
  StronglySorted (fun a b => le (RaceEvent.timeInMs b) (RaceEvent.timeInMs a))
    (sort_insert latest_first x l).
Proof.
  intros Hx Hl Hs. induction Hs as [|y r Hs IH Hy]; cbn [sort_insert].
  - repeat constructor.
  - inversion Hl as [|? ? Hny Hr]; subst.
    unfold comes_after, latest_first.
    rewrite (latest_first_later _ _ Hx Hny).
    destruct (ltb (RaceEvent.timeInMs x) (RaceEvent.timeInMs y)) eqn:E.
    + constructor; [apply IH, Hr|].
      apply Forall_forall. intros z Hz.
      apply (Permutation_in _
               (Permutation_sym (sort_insert_perm latest_first x r))) in Hz.
      destruct Hz as [<- | Hz].
      * apply ltb_leb, E.
      * rewrite Forall_forall in Hy. apply Hy, Hz.
    + pose proof (leb_total _ _ Hx Hny E) as Hyx.
      constructor; [constructor; assumption|].
      constructor; trivial.
      apply Forall_forall. intros z Hz. rewrite Forall_forall in Hy.
      unfold le. eapply leb_trans; [apply Hy, Hz | exact Hyx].
Qed.

Lemma array_sort_latest (l : list RaceEvent.t) :
  Forall (fun e => is_nan (RaceEvent.timeInMs e) = false) l ->
  StronglySorted (fun a b => le (RaceEvent.timeInMs b) (RaceEvent.timeInMs a))
    (array_sort latest_first l).
Proof.
  induction 1 as [|x r Hx Hr IH]; cbn [array_sort fold_right].
  - constructor.
  - apply sort_insert_latest; trivial.
    apply array_sort_Forall, Hr.
Qed.

(** X26: [getLatestDriverEvent] returns an event of the driver that is not
    after the current time and that no other such event of the log is
    after; it returns null exactly when the log has no event of the driver
    up to the current time. *)
Theorem latest_driver_event (events : list RaceEvent.t) (driverId : string)
    (currentTimeMs : num) :
  match getLatestDriverEvent events driverId currentTimeMs with
  | Some e =>
      In e events
      /\ past_event_of driverId currentTimeMs e
      /\ Forall (fun e' =>
                   past_event_of driverId currentTimeMs e' ->
                   le (RaceEvent.timeInMs e') (RaceEvent.timeInMs e))
                events
  | None =>
      Forall (fun e' => ~ past_event_of driverId currentTimeMs e') events
  end.
Proof.
  unfold getLatestDriverEvent.
  set (keep := fun e => (String.eqb (RaceEvent.driverId e) driverId
                         && (RaceEvent.timeInMs e <=? currentTimeMs)%num)%bool).
  assert (Hkeep : forall e, keep e = true <-> past_event_of driverId currentTimeMs e).
  { intros e. unfold keep, past_event_of, le.
    rewrite andb_true_iff, String.eqb_eq. reflexivity. }
  assert (Hnan : Forall (fun e => is_nan (RaceEvent.timeInMs e) = false)
                   (filter keep events)).
  { apply Forall_forall. intros e He. apply filter_In in He.
    destruct He as [_ He]. apply Hkeep in He. destruct He as [_ He].
    apply leb_not_nan in He. tauto. }
  pose proof (array_sort_latest Hnan) as Hs.
  pose proof (array_sort_perm latest_first (filter keep events)) as Hp.
  destruct (array_sort latest_first (filter keep events)) as [|e r] eqn:E;
    cbn [hd_error].
  - apply Permutation_sym, Permutation_nil in Hp.
    apply Forall_forall. intros e' He' Hpast. apply Hkeep in Hpast.
    assert (Hin : In e' (filter keep events)) by (apply filter_In; auto).
    rewrite Hp in Hin. destruct Hin.
  - assert (He : In e (filter keep events)).
    { apply (Permutation_in _ (Permutation_sym Hp)). simpl. auto. }
    apply filter_In in He. destruct He as [He Hk].
    split; [exact He|]. split; [apply Hkeep, Hk|].
    apply Forall_forall. intros e' He' Hpast.
    assert (Hin : In e' (e :: r)).
    { apply (Permutation_in _ Hp). apply filter_In. split; trivial.
      apply Hkeep, Hpast. }
    destruct Hin as [<- | Hin].
    + apply leb_refl. apply Hkeep in Hk. destruct Hk as [_ Hk].
      apply leb_not_nan in Hk. tauto.
    + inversion Hs as [|? ? _ Hall]; subst.
      rewrite Forall_forall in Hall. apply Hall, Hin.
Qed.

End EventUtilFacts.

(* ================================================================== *)
(** * The fastest lap *)
(* ================================================================== *)

Module FastestLapFacts.

Import Props LapProcessor EventManager.

Lemma findFastestLap_first (results : list JolpicaResult.t) :
  match findFastestLap results with
  | Some fastestLap =>
      exists before result rest fl,
        results = before ++ result :: rest
        /\ Forall not_fastest before
        /\ JolpicaResult.FastestLap result = Some fl
        /\ JolpicaFastestLap.rank fl = "1"
        /\ fastestLap
           = FastestLap.mk (JolpicaResult.driverId result)
               (parseInt (list_ascii_of_string (JolpicaFastestLap.lap fl)))
               (JolpicaFastestLap.time fl)
               (lapTimeToMs (JolpicaFastestLap.time fl))
  | None => Forall not_fastest results
  end.
Proof.
  induction results as [|r rest IH]; cbn [findFastestLap]; [constructor|].
  destruct (JolpicaResult.FastestLap r) as [fl|] eqn:Efl.
  - destruct (String.eqb (JolpicaFastestLap.rank fl) "1") eqn:Er.
    + exists [], r, rest, fl. apply String.eqb_eq in Er.
      repeat split; trivial.
    + assert (Hr : not_fastest r) by (unfold not_fastest; rewrite Efl; exact Er).
      destruct (findFastestLap rest) as [f|].
      * destruct IH as (before & result & rest' & fl' & -> & Hb & H).
        exists (r :: before), result, rest', fl'.
        split; [reflexivity|]. split; [constructor; trivial | exact H].
      * constructor; trivial.
  - assert (Hr : not_fastest r) by (unfold not_fastest; rewrite Efl; trivial).
    destruct (findFastestLap rest) as [f|].
    + destruct IH as (before & result & rest' & fl' & -> & Hb & H).
      exists (r :: before), result, rest', fl'.
      split; [reflexivity|]. split; [constructor; trivial | exact H].
    + constructor; trivial.
Qed.

(** X27: the fastest lap event made from the results is of the first
    result whose fastest lap has rank 1: it carries the driver of that
    result, the lap and the lap time parsed from it, and the time at which
    that lap ends in the series of the driver; no result with a fastest
    lap of rank 1 gives no event. *)
Theorem fastest_lap_event_of_first_rank_one
    (results : list JolpicaResult.t)
    (processedLapData : list ProcessedLapData.t) :
  match createFastestLapEvent (findFastestLap results) processedLapData with
  | Some e => fastest_event_of results processedLapData e
  | None =>
      Forall not_fastest results
      \/ exists fastestLap,
           findFastestLap results = Some fastestLap
           /\ match find_driver (FastestLap.driverId fastestLap)
                      processedLapData with
              | Some driverData =>
                  find_lap (FastestLap.lap fastestLap)
                    (ProcessedLapData.laps driverData) = None
              | None => True
              end
  end.
Proof.
  pose proof (findFastestLap_first results) as H.
  unfold createFastestLapEvent.
  destruct (findFastestLap results) as [fastestLap|]; [|left; exact H].
  destruct H as (before & result & rest & fl & E & Hb & Hfl & Hr & ->).
  cbn [FastestLap.driverId FastestLap.lap FastestLap.timeInMs].
  destruct (find_driver (JolpicaResult.driverId result) processedLapData)
    as [driverData|] eqn:Ed.
  - destruct (find_lap _ (ProcessedLapData.laps driverData)) as [lapData|]
      eqn:El.
    + split; [reflexivity|].
      exists before, result, rest, fl, driverData, lapData.
      cbn [RaceEvent.driverId RaceEvent.lap RaceEvent.timeInMs RaceEvent.data
           EventData.lapTime].
      repeat split; trivial.
    + right. eexists. split; [reflexivity|].
      cbn [FastestLap.driverId FastestLap.lap]. rewrite Ed. exact El.
  - right. eexists. split; [reflexivity|].
    cbn [FastestLap.driverId]. rewrite Ed. trivial.
Qed.

End FastestLapFacts.

(* ================================================================== *)
(** * The event log: what the merge keeps *)
(* ================================================================== *)

Module MergeFacts.

Import Inv Props EventManager.

Lemma filter_perm (A : Type) (f : A -> bool) (l l' : list A) :
  Permutation l l' -> Permutation (filter f l) (filter f l').
Proof.
  induction 1 as [|x l l' _ IH|x y l|l l' l'' _ IH1 _ IH2]; cbn [filter].
  - apply perm_nil.
  - destruct (f x); [apply perm_skip|]; exact IH.
  - destruct (f x), (f y); try apply Permutation_refl. apply perm_swap.
  - eapply perm_trans; eassumption.
Qed.

Lemma filter_all (A : Type) (f : A -> bool) (l : list A) :
  Forall (fun x => f x = true) l -> filter f l = l.
Proof.
  induction 1 as [|x r Hx _ IH]; cbn [filter]; trivial.
  rewrite Hx, IH. reflexivity.
Qed.

Lemma filter_none (A : Type) (f : A -> bool) (l : list A) :
  Forall (fun x => f x = false) l -> filter f l = [].
Proof.
  induction 1 as [|x r Hx _ IH]; cbn [filter]; trivial.
  rewrite Hx, IH. reflexivity.
Qed.

Lemma lap_complete_typed (lapTimings : list LapTiming.t) :
  Forall (fun e => RaceEvent.type e = lap_complete)
         (createLapCompleteEvents lapTimings).
Proof.
  unfold createLapCompleteEvents, sort_events. apply array_sort_Forall.
  unfold lap_complete_unsorted. rewrite EventFacts.fold_left_flat_map.
  assert (H : forall ts acc,
             Forall (fun e => RaceEvent.type e = lap_complete) (fst acc) ->
             Forall (fun e => RaceEvent.type e = lap_complete)
                    (fst (fold_left lap_complete_step ts acc))).
  { induction ts as [|t r IH]; intros [ev ct] Hacc; cbn [fold_left]; trivial.
    apply IH. unfold lap_complete_step. cbn [fst] in *.
    apply EventLogFacts.Forall_snoc; trivial. }
  apply H. constructor.
Qed.

Lemma pit_stop_typed (pitStops : list PitStop.t)
    (processedLapData : list ProcessedLapData.t) :
  Forall (fun e => RaceEvent.type e = pitstop)
         (createPitStopEvents pitStops processedLapData).
Proof.
  unfold createPitStopEvents, sort_events. apply array_sort_Forall.
  unfold pit_stop_unsorted.
  assert (H : forall stops events,
             Forall (fun e => RaceEvent.type e = pitstop) events ->
             Forall (fun e => RaceEvent.type e = pitstop)
                    (fold_left (pit_stop_step processedLapData) stops events)).
  { induction stops as [|p r IH]; intros events He; cbn [fold_left]; trivial.
    apply IH. unfold pit_stop_step.
    destruct (find_driver _ processedLapData) as [d|]; trivial.
    destruct (find_lap _ (ProcessedLapData.laps d)); trivial.
    apply EventLogFacts.Forall_snoc; trivial. }
  apply H. constructor.
Qed.

Lemma overtakes_typed (lapTimings : list LapTiming.t) :
  Forall (fun e => RaceEvent.type e = overtake) (detectOvertakes lapTimings).
Proof.
  apply Forall_forall. intros e He.
  destruct lapTimings as [|first rest]; [destruct He|].
  apply OvertakeFacts.overtakes_after_first in He.
  destruct He as (lt0 & t & _ & _ & Hty & _). exact Hty.
Qed.

Lemma dnf_typed (dnfs : list (string * DnfInfo.t))
    (processedLapData : list ProcessedLapData.t) :
  Forall (fun e => RaceEvent.type e = dnf)
         (createDNFEvents dnfs processedLapData).
Proof.
  unfold createDNFEvents, sort_events. apply array_sort_Forall.
  unfold dnf_unsorted.
  assert (H : forall entries events,
             Forall (fun e => RaceEvent.type e = dnf) events ->
             Forall (fun e => RaceEvent.type e = dnf)
                    (fold_left (dnf_step processedLapData) entries events)).
  { induction entries as [|[id info] r IH]; intros events He;
      cbn [fold_left]; trivial.
    apply IH. unfold dnf_step.
    destruct (find_driver id processedLapData) as [d|]; trivial.
    destruct (last_opt (ProcessedLapData.laps d)); trivial.
    apply EventLogFacts.Forall_snoc; trivial. }
  apply H. constructor.
Qed.

Lemma fastest_lap_typed (fastestLap : option FastestLap.t)
    (processedLapData : list ProcessedLapData.t) :
  Forall (fun e => RaceEvent.type e = fastest_lap)
         match createFastestLapEvent fastestLap processedLapData with
         | Some fastestLapEvent => [fastestLapEvent]
         | None => []
         end.
Proof.
  unfold createFastestLapEvent.
  destruct fastestLap as [fl|]; [|constructor].
  destruct (find_driver _ processedLapData) as [d|]; [|constructor].
  destruct (find_lap _ (ProcessedLapData.laps d)); repeat constructor.
Qed.

(** The events of one category among those of another. *)
Lemma filter_typed (ty ty' : RaceEventType) (l : list RaceEvent.t) :
  Forall (fun e => RaceEvent.type e = ty') l ->
  filter (fun event => type_eqb (RaceEvent.type event) ty) l
  = if type_eqb ty' ty then l else [].
Proof.
  intros H. destruct (type_eqb ty' ty) eqn:E.
  - apply filter_all. eapply Forall_impl; [|exact H].
    intros e ->. exact E.
  - apply filter_none. eapply Forall_impl; [|exact H].
    intros e ->. exact E.
Qed.

(** X28: the merge of [buildEventTimeline] loses and adds nothing: the log
    is, up to order, the events of the five builders; and filtering the
    log by category with [filterEventsByType] gives back, up to order, the
    events of the builder of that category. *)
Theorem event_log_has_every_event
    (lapTimings : list LapTiming.t) (pitStops : list PitStop.t)
    (processedLapData : list ProcessedLapData.t)
    (dnfs : list (string * DnfInfo.t)) (fastestLap : option FastestLap.t) :
  let log :=
    buildEventTimeline lapTimings pitStops processedLapData dnfs fastestLap in
  let fastest :=
    match createFastestLapEvent fastestLap processedLapData with
    | Some fastestLapEvent => [fastestLapEvent]
    | None => []
    end in
  Permutation log
    (createLapCompleteEvents lapTimings
     ++ createPitStopEvents pitStops processedLapData
     ++ detectOvertakes lapTimings
     ++ createDNFEvents dnfs processedLapData
     ++ fastest)
  /\ Permutation (filterEventsByType log lap_complete)
       (createLapCompleteEvents lapTimings)
  /\ Permutation (filterEventsByType log pitstop)
       (createPitStopEvents pitStops processedLapData)
  /\ Permutation (filterEventsByType log overtake)
       (detectOvertakes lapTimings)
  /\ Permutation (filterEventsByType log dnf)
       (createDNFEvents dnfs processedLapData)
  /\ Permutation (filterEventsByType log fastest_lap) fastest.
Proof.
  intros log fastest.
  assert (Hp : Permutation log
                 (all_events lapTimings pitStops processedLapData dnfs
                    fastestLap)).
  { apply Permutation_sym. apply array_sort_perm. }
  assert (Hf : forall ty,
             Permutation (filterEventsByType log ty)
               (filter (fun event => type_eqb (RaceEvent.type event) ty)
                  (all_events lapTimings pitStops processedLapData dnfs
                     fastestLap))).
  { intros ty. apply filter_perm, Hp. }
  split; [exact Hp|].
  unfold all_events in Hf. fold fastest in Hf.
  repeat split;
    (eapply perm_trans; [apply Hf|]);
    rewrite !filter_app;
    rewrite (filter_typed _ (lap_complete_typed lapTimings)),
      (filter_typed _ (pit_stop_typed pitStops processedLapData)),
      (filter_typed _ (overtakes_typed lapTimings)),
      (filter_typed _ (dnf_typed dnfs processedLapData)),
      (filter_typed _ (fastest_lap_typed fastestLap processedLapData));
    cbn [type_eqb app]; rewrite ?app_nil_r; apply Permutation_refl.
Qed.

End MergeFacts.
